(** * Maze AI solver: decision-and-learning core

    A shallow embedding of the agents of the maze solver
    (QLearningAgent, HybridMazeAgent, NeuralMazeAgent), of the reward
    model of EnhancedAgentState, of the dynamic elements' occupancy test,
    of the MCTS planner and of the AutoEpsilonScheduler, with the
    properties of their specification.

    Numbers.  A JavaScript number is modelled by an exact rational
    ([Q]); rounding of doubles is not modelled, except in the gradient
    update of the linear head, which is followed on IEEE 754 doubles
    (modules [Doubles] and [LinearHead]).  Where the source lets
    [-Infinity] flow into arithmetic (the bootstrap term of the tabular
    update) the type [num] adds the two infinities and NaN to the
    rationals, with the IEEE rules for them.  Equality of rationals is
    [Qeq] ([==]): the same number, whatever the fraction.

    Randomness.  [Math.random()] is a stream [nat -> Q] read at an
    explicit cursor.  Wall-clock time (the planner's budget) is the
    number of passes the loop makes before the deadline. *)

From Stdlib Require Import ZArith QArith Qround Lqa Lia List Bool String Sorted.
From Stdlib Require SpecFloat.
From stdpp Require Import base option list strings gmap.
Import ListNotations.

Local Open Scope Z_scope.
Local Open Scope Q_scope.

(** ** JavaScript numbers with infinities *)

Module JsNum.

Inductive num : Type :=
| Fin (q : Q)
| NegInf
| PosInf
| NaN.

(** [a + b] *)
Definition add (a b : num) : num :=
  match a, b with
  | NaN, _ | _, NaN => NaN
  | Fin x, Fin y => Fin (x + y)
  | PosInf, NegInf | NegInf, PosInf => NaN
  | PosInf, _ | _, PosInf => PosInf
  | NegInf, _ | _, NegInf => NegInf
  end.

(** [-a] *)
Definition neg (a : num) : num :=
  match a with
  | Fin x => Fin (- x)
  | NegInf => PosInf
  | PosInf => NegInf
  | NaN => NaN
  end.

(** [a - b] *)
Definition sub (a b : num) : num := add a (neg b).

(** an infinity of the sign of [x] times the sign [pos]; [0 * Infinity]
    is NaN *)
Definition scaleInf (x : Q) (pos : bool) : num :=
  match x ?= 0 with
  | Eq => NaN
  | Gt => if pos then PosInf else NegInf
  | Lt => if pos then NegInf else PosInf
  end.

(** [a * b] *)
Definition mul (a b : num) : num :=
  match a, b with
  | NaN, _ | _, NaN => NaN
  | Fin x, Fin y => Fin (x * y)
  | Fin x, PosInf | PosInf, Fin x => scaleInf x true
  | Fin x, NegInf | NegInf, Fin x => scaleInf x false
  | PosInf, PosInf | NegInf, NegInf => PosInf
  | PosInf, NegInf | NegInf, PosInf => NegInf
  end.

(** [a > b]; false as soon as one side is NaN *)
Definition gt (a b : num) : bool :=
  match a, b with
  | NaN, _ | _, NaN => false
  | Fin x, Fin y => if Qlt_le_dec y x then true else false
  | PosInf, PosInf => false
  | PosInf, _ => true
  | _, PosInf => false
  | NegInf, _ => false
  | Fin _, NegInf => true
  end.

(** [Math.max(a, b)] *)
Definition max2 (a b : num) : num :=
  match a, b with
  | NaN, _ | _, NaN => NaN
  | _, _ => if gt b a then b else a
  end.

(** [Math.max(...l)]; [-Infinity] for no argument *)
Definition maxOf (l : list num) : num := fold_left max2 l NegInf.

End JsNum.

(** ** The static grid *)

Module Grid.

(** a cell [[x, y]]: row, then column *)
Abbreviation cell := (Z * Z)%type.

(** the maze: rows of 0 (open) and 1 (wall) *)
Abbreviation maze := (list (list Z)).

(** [arr[i]]: [None] is JavaScript's [undefined], read outside the array *)
Definition at_ {A : Type} (arr : list A) (i : Z) : option A :=
  if (i <? 0)%Z then None else arr !! Z.to_nat i.

(** [maze[x][y] === 0].  [None] is the TypeError of reading [[y]] of an
    undefined row. *)
Definition cellIsZero (m : maze) (x y : Z) : option bool :=
  match at_ m x with
  | None => None
  | Some row =>
      Some (match at_ row y with
            | Some v => (v =? 0)%Z
            | None => false
            end)
  end.

(** the four moves: 0=up, 1=right, 2=down, 3=left *)
Definition actions : list (Z * Z) :=
  [(-1, 0); (0, 1); (1, 0); (0, -1)]%Z.

Definition manhattan (a b : cell) : Z :=
  (Z.abs (a.1 - b.1) + Z.abs (a.2 - b.2))%Z.

(** [arr[i] = v] on a JavaScript array: writing past the end extends the
    array, the holes reading as [hole] *)
Definition arraySet {A : Type} (hole : A) (arr : list A) (i : nat) (v : A)
  : list A :=
  if (i <? length arr)%nat then <[i := v]> arr
  else arr ++ replicate (i - length arr) hole ++ [v].

(** [x || d] on an optional number: [undefined] and [0] are falsy *)
Definition orDefault (x : option Q) (d : Q) : Q :=
  match x with
  | Some v => if Qeq_bool v 0 then d else v
  | None => d
  end.

(** [Math.min] and [Math.max] on rationals *)
Definition qmin (a b : Q) : Q := if Qlt_le_dec b a then b else a.
Definition qmax (a b : Q) : Q := if Qlt_le_dec a b then b else a.

End Grid.

(** ** QLearningAgent: the tabular policy *)

Module QLearning.
Import JsNum Grid.

Record options : Type := {
  optEpsilon : option Q;
  optEpsilonDecay : option Q;
  optEpsilonMin : option Q;
  optGamma : option Q;
  optLearningRate : option Q
}.

(** The fields the modelled methods read or write.  The planner switches
    ([useMCTS], budget, depth) only matter to [chooseAction]. *)
Record agent : Type := mkAgent {
  width : Z;
  height : Z;
  epsilon : Q;
  epsilonStart : Q;
  epsilonDecay : Q;
  epsilonMin : Q;
  gamma : Q;
  learningRate : Q;
  qTable : gmap (Z * Z) (list num);
  position : cell;
  path : list cell;
  moves : Z;
  isTraining : bool;
  gamesPlayed : Z;
  totalMoves : Z;
  moveHistory : list Z;
  successfulGames : Z
}.

(** [new QLearningAgent(mazeWidth, mazeHeight, options)], with the
    [reset()] it ends with *)
Definition create (mazeWidth mazeHeight : Z) (o : options) : agent :=
  let eps := orDefault (optEpsilon o) (9 # 10) in
  let decay := orDefault (optEpsilonDecay o) (995 # 1000) in
  {| width := mazeWidth;
     height := mazeHeight;
     epsilon := eps;
     epsilonStart := eps;
     epsilonDecay := qmin (9999 # 10000) (qmax (9 # 10) decay);
     epsilonMin := qmin eps (match optEpsilonMin o with
                             | Some m => m
                             | None => 1 # 100
                             end);
     gamma := orDefault (optGamma o) (95 # 100);
     learningRate := orDefault (optLearningRate o) (1 # 10);
     qTable := ∅;
     position := (1, 1)%Z;
     path := [(1, 1)%Z];
     moves := 0;
     isTraining := false;
     gamesPlayed := 0;
     totalMoves := 0;
     moveHistory := [];
     successfulGames := 0 |}.

Definition with_qTable (ag : agent) (t : gmap (Z * Z) (list num)) : agent :=
  {| width := width ag; height := height ag; epsilon := epsilon ag;
     epsilonStart := epsilonStart ag; epsilonDecay := epsilonDecay ag;
     epsilonMin := epsilonMin ag; gamma := gamma ag;
     learningRate := learningRate ag; qTable := t;
     position := position ag; path := path ag; moves := moves ag;
     isTraining := isTraining ag; gamesPlayed := gamesPlayed ag;
     totalMoves := totalMoves ag; moveHistory := moveHistory ag;
     successfulGames := successfulGames ag |}.

(** the key [`${x},${y}`]: one string per pair of integers, so the pair
    itself stands for it *)
Definition getStateKey (x y : Z) : Z * Z := (x, y).

(** [getQValue(state, action)]: the row of a state is created, all
    zero, the first time it is read.  An index outside the row reads
    [undefined], which is NaN in the arithmetic that follows. *)
Definition getQValue (t : gmap (Z * Z) (list num)) (state : cell)
  (action : nat) : num * gmap (Z * Z) (list num) :=
  let stateKey := getStateKey state.1 state.2 in
  let t1 := match t !! stateKey with
            | None => <[stateKey := replicate 4 (Fin 0)]> t
            | Some _ => t
            end in
  (default NaN (default [] (t1 !! stateKey) !! action), t1).

(** the value [getQValue] answers, the table put aside *)
Definition peek (t : gmap (Z * Z) (list num)) (state : cell) (action : nat)
  : num :=
  (getQValue t state action).1.

(** [setQValue(state, action, value)] *)
Definition setQValue (t : gmap (Z * Z) (list num)) (state : cell)
  (action : nat) (value : num) : gmap (Z * Z) (list num) :=
  let stateKey := getStateKey state.1 state.2 in
  let t1 := match t !! stateKey with
            | None => <[stateKey := replicate 4 (Fin 0)]> t
            | Some _ => t
            end in
  <[stateKey := arraySet NaN (default [] (t1 !! stateKey)) action value]> t1.

(** [isValidMove(state, action, maze)].  [None] is a TypeError:
    [this.actions[action]] undefined, or a row of the maze missing. *)
Definition isValidMove (ag : agent) (state : cell) (action : nat) (m : maze)
  : option bool :=
  match actions !! action with
  | None => None
  | Some (dx, dy) =>
      let newX := (state.1 + dx)%Z in
      let newY := (state.2 + dy)%Z in
      if (0 <=? newX)%Z && (newX <? height ag)%Z
         && (0 <=? newY)%Z && (newY <? width ag)%Z
      then cellIsZero m newX newY
      else Some false
  end.

(** [getReward(oldState, newState, maze, isGameOver, isWin)] *)
Definition getReward (ag : agent) (oldState newState : cell) (m : maze)
  (isGameOver isWin : bool) : Q :=
  if isWin then 100
  else if isGameOver then -50
  else
    let reward := -1 in
    let goal := ((height ag - 2)%Z, (width ag - 2)%Z) in
    let oldDistance := manhattan oldState goal in
    let newDistance := manhattan newState goal in
    if (newDistance <? oldDistance)%Z then reward + 2
    else if (oldDistance <? newDistance)%Z then reward - 1
    else reward.

(** the four terms handed to [Math.max] in [updateQValue]: the value of
    each action valid in [newState], [-Infinity] for the others *)
Fixpoint futureQs (ag : agent) (newState : cell) (m : maze)
  (acts : list nat) (t : gmap (Z * Z) (list num))
  : option (list num * gmap (Z * Z) (list num)) :=
  match acts with
  | [] => Some ([], t)
  | a :: rest =>
      match isValidMove ag newState a m with
      | None => None
      | Some ok =>
          let '(v, t1) := if ok then getQValue t newState a
                          else (NegInf, t) in
          match futureQs ag newState m rest t1 with
          | None => None
          | Some (vs, t2) => Some (v :: vs, t2)
          end
      end
  end.

(** [updateQValue(oldState, action, newState, reward, maze)] *)
Definition updateQValue (ag : agent) (oldState : cell) (action : nat)
  (newState : cell) (reward : num) (m : maze) : option agent :=
  let '(currentQ, t1) := getQValue (qTable ag) oldState action in
  match futureQs ag newState m [0; 1; 2; 3]%nat t1 with
  | None => None
  | Some (qs, t2) =>
      let maxFutureQ := maxOf qs in
      let newQ :=
        add currentQ
            (mul (Fin (learningRate ag))
                 (sub (add reward (mul (Fin (gamma ag)) maxFutureQ))
                      currentQ)) in
      Some (with_qTable ag (setQValue t2 oldState action newQ))
  end.

(** [trainStep(maze, previousState, action)]: [None] in the first
    component is the TypeError of [isValidMove]; the second is the
    returned verdict, absent when the agent is not training. *)
Definition trainStep (ag : agent) (m : maze)
  (previous : option (cell * nat)) : option (agent * option (bool * bool)) :=
  if negb (isTraining ag) then Some (ag, None)
  else
    let goalX := (height ag - 2)%Z in
    let goalY := (width ag - 2)%Z in
    let isWin := ((position ag).1 =? goalX)%Z && ((position ag).2 =? goalY)%Z in
    let isGameOver := (width ag * height ag <? moves ag)%Z || isWin in
    match previous with
    | Some (previousState, action) =>
        let reward :=
          getReward ag previousState (position ag) m isGameOver isWin in
        match updateQValue ag previousState action (position ag)
                (Fin reward) m with
        | None => None
        | Some ag' => Some (ag', Some (isWin, isGameOver))
        end
    | None => Some (ag, Some (isWin, isGameOver))
    end.

(** [finishGame(isWin)] *)
Definition finishGame (ag : agent) (isWin : bool) : agent :=
  {| width := width ag; height := height ag;
     epsilon := if Qlt_le_dec (epsilonMin ag) (epsilon ag)
                then epsilon ag * epsilonDecay ag
                else epsilon ag;
     epsilonStart := epsilonStart ag; epsilonDecay := epsilonDecay ag;
     epsilonMin := epsilonMin ag; gamma := gamma ag;
     learningRate := learningRate ag; qTable := qTable ag;
     position := position ag; path := path ag; moves := moves ag;
     isTraining := isTraining ag;
     gamesPlayed := (gamesPlayed ag + 1)%Z;
     totalMoves := (totalMoves ag + moves ag)%Z;
     moveHistory := moveHistory ag ++ [moves ag];
     successfulGames := if isWin then (successfulGames ag + 1)%Z
                        else successfulGames ag |}.

(** [finishGame] called at the end of each episode of a run, [wins]
    telling which episodes were won *)
Definition finishGames (ag : agent) (wins : list bool) : agent :=
  fold_left finishGame wins ag.

(** [validActionsFromState(state, maze)] *)
Fixpoint validFrom (ag : agent) (state : cell) (m : maze) (acts : list nat)
  : option (list nat) :=
  match acts with
  | [] => Some []
  | a :: rest =>
      match isValidMove ag state a m, validFrom ag state m rest with
      | Some ok, Some arr => Some (if ok then a :: arr else arr)
      | _, _ => None
      end
  end.

Definition validActionsFromState (ag : agent) (state : cell) (m : maze)
  : option (list nat) :=
  validFrom ag state m [0; 1; 2; 3]%nat.

Definition manhattanToGoal (ag : agent) (s : cell) : Z :=
  manhattan s ((height ag - 2)%Z, (width ag - 2)%Z).

(** [simStep(state, action, maze)], the step function handed to the
    planner; a TypeError of [isValidMove] counts as an invalid move *)
Definition simStep (ag : agent) (state : cell) (action : nat) (m : maze)
  : cell * Q * bool :=
  if negb (default false (isValidMove ag state action m))
  then (state, -1, false)
  else
    let '(dx, dy) := default (0, 0)%Z (actions !! action) in
    let next := ((state.1 + dx)%Z, (state.2 + dy)%Z) in
    let isWin := (next.1 =? height ag - 2)%Z && (next.2 =? width ag - 2)%Z in
    let r :=
      if isWin then 100
      else - (1 # 10)
           - (if (0 <? manhattanToGoal ag next - manhattanToGoal ag state)%Z
              then 5 # 10 else 0) in
    (next, r, isWin).

End QLearning.

(** ** HybridMazeAgent: Q-learning with a switch to path search *)

Module Hybrid.
Import Grid.

Inductive strategy : Type := Pathfinding | Qlearning.

Definition strategy_eqb (a b : strategy) : bool :=
  match a, b with
  | Pathfinding, Pathfinding | Qlearning, Qlearning => true
  | _, _ => false
  end.

Record options : Type := {
  optEpsilon : option Q;
  optEpsilonDecay : option Q;
  optEpsilonMin : option Q;
  optGamma : option Q;
  optLearningRate : option Q
}.

(** [fastSolver] is the field holding the path oracle; its method
    [solveMazeAStar(maze, start)] answers a route or [null].  The
    table holds finite values only: every value written by
    [updateQValue] is a finite combination of finite ones.  The time
    spent searching ([pathfindingTime]) is a stopwatch reading and is
    left out. *)
Record agent : Type := mkAgent {
  width : Z;
  height : Z;
  mazeSize : Z;
  isLargeMaze : bool;
  epsilon : Q;
  epsilonStart : Q;
  epsilonDecay : Q;
  epsilonMin : Q;
  gamma : Q;
  learningRate : Q;
  qTable : gmap Z (gmap nat Q);
  fastSolver : maze -> cell -> option (list cell);
  knownSolution : option (list cell);
  solutionSteps : Z;
  position : cell;
  path : list cell;
  moves : Z;
  visited : gset (Z * Z);
  isTraining : bool;
  currentStrategy : strategy;
  gamesPlayed : Z;
  totalMoves : Z;
  moveHistory : list Z;
  successfulGames : Z;
  prevPosition : option cell;
  lastAction : Z
}.

(** the episode fields, written together by [reset], the two moves and
    [finishGame] *)
Definition with_episode (ag : agent) (sol : option (list cell)) (steps : Z)
  (pos : cell) (pth : list cell) (mv : Z) (vis : gset (Z * Z))
  (prev : option cell) (last : Z) : agent :=
  {| width := width ag; height := height ag; mazeSize := mazeSize ag;
     isLargeMaze := isLargeMaze ag; epsilon := epsilon ag;
     epsilonStart := epsilonStart ag; epsilonDecay := epsilonDecay ag;
     epsilonMin := epsilonMin ag; gamma := gamma ag;
     learningRate := learningRate ag; qTable := qTable ag;
     fastSolver := fastSolver ag;
     knownSolution := sol; solutionSteps := steps;
     position := pos; path := pth; moves := mv; visited := vis;
     isTraining := isTraining ag; currentStrategy := currentStrategy ag;
     gamesPlayed := gamesPlayed ag; totalMoves := totalMoves ag;
     moveHistory := moveHistory ag; successfulGames := successfulGames ag;
     prevPosition := prev; lastAction := last |}.

Definition with_qTable (ag : agent) (t : gmap Z (gmap nat Q)) : agent :=
  {| width := width ag; height := height ag; mazeSize := mazeSize ag;
     isLargeMaze := isLargeMaze ag; epsilon := epsilon ag;
     epsilonStart := epsilonStart ag; epsilonDecay := epsilonDecay ag;
     epsilonMin := epsilonMin ag; gamma := gamma ag;
     learningRate := learningRate ag; qTable := t;
     fastSolver := fastSolver ag;
     knownSolution := knownSolution ag; solutionSteps := solutionSteps ag;
     position := position ag; path := path ag; moves := moves ag;
     visited := visited ag;
     isTraining := isTraining ag; currentStrategy := currentStrategy ag;
     gamesPlayed := gamesPlayed ag; totalMoves := totalMoves ag;
     moveHistory := moveHistory ag; successfulGames := successfulGames ag;
     prevPosition := prevPosition ag; lastAction := lastAction ag |}.

Definition with_currentStrategy (ag : agent) (s : strategy) : agent :=
  {| width := width ag; height := height ag; mazeSize := mazeSize ag;
     isLargeMaze := isLargeMaze ag; epsilon := epsilon ag;
     epsilonStart := epsilonStart ag; epsilonDecay := epsilonDecay ag;
     epsilonMin := epsilonMin ag; gamma := gamma ag;
     learningRate := learningRate ag; qTable := qTable ag;
     fastSolver := fastSolver ag;
     knownSolution := knownSolution ag; solutionSteps := solutionSteps ag;
     position := position ag; path := path ag; moves := moves ag;
     visited := visited ag;
     isTraining := isTraining ag; currentStrategy := s;
     gamesPlayed := gamesPlayed ag; totalMoves := totalMoves ag;
     moveHistory := moveHistory ag; successfulGames := successfulGames ag;
     prevPosition := prevPosition ag; lastAction := lastAction ag |}.

(** [reset()] *)
Definition reset (ag : agent) : agent :=
  with_episode ag None 0 (1, 1)%Z [(1, 1)%Z] 0 {[ (1, 1)%Z ]} None (-1).

(** [new HybridMazeAgent(mazeWidth, mazeHeight, options)], the solver
    being the module's [fastSolver] *)
Definition create (solver : maze -> cell -> option (list cell))
  (mazeWidth mazeHeight : Z) (o : options) : agent :=
  let size := (mazeWidth * mazeHeight)%Z in
  let large := (1000 <? size)%Z in
  let eps := orDefault (optEpsilon o) (if large then 1 # 10 else 6 # 10) in
  let defaultDecay := if large then 995 # 1000 else 98 # 100 in
  let decay := orDefault (optEpsilonDecay o) defaultDecay in
  reset
    {| width := mazeWidth; height := mazeHeight; mazeSize := size;
       isLargeMaze := large;
       epsilon := eps; epsilonStart := eps;
       epsilonDecay := qmin (9999 # 10000) (qmax (9 # 10) decay);
       epsilonMin := qmin eps (match optEpsilonMin o with
                               | Some m => m
                               | None => 1 # 100
                               end);
       gamma := orDefault (optGamma o) (95 # 100);
       learningRate := orDefault (optLearningRate o) (1 # 10);
       qTable := ∅;
       fastSolver := solver;
       knownSolution := None; solutionSteps := 0;
       position := (1, 1)%Z; path := [(1, 1)%Z]; moves := 0;
       visited := {[ (1, 1)%Z ]};
       isTraining := false;
       currentStrategy := if large then Pathfinding else Qlearning;
       gamesPlayed := 0; totalMoves := 0; moveHistory := [];
       successfulGames := 0;
       prevPosition := None; lastAction := (-1) |}.

(** [selectStrategy(maze)]; [successfulGames / gamesPlayed > 0.8] *)
Definition selectStrategy (ag : agent) (m : maze) : strategy :=
  if isLargeMaze ag then Pathfinding
  else
    let successRate :=
      if (0 <? gamesPlayed ag)%Z
      then inject_Z (successfulGames ag) / inject_Z (gamesPlayed ag)
      else 0 in
    if (20 <? gamesPlayed ag)%Z
       && (if Qlt_le_dec (8 # 10) successRate then true else false)
       && (if Qlt_le_dec (epsilon ag) (1 # 10) then true else false)
    then Pathfinding
    else Qlearning.

(** what a move returns *)
Record moveResult : Type := {
  resPosition : cell;
  resAction : option nat;
  resMoves : Z;
  resIsValid : bool;
  resStrategy : strategy
}.

(** [pathfindingMove(maze)] *)
Definition pathfindingMove (ag : agent) (m : maze) : agent * moveResult :=
  let ag1 :=
    if match knownSolution ag with None => true | Some _ => false end
       || (solutionSteps ag =? 0)%Z
    then with_episode ag (fastSolver ag m (position ag)) 0
           (position ag) (path ag) (moves ag) (visited ag)
           (prevPosition ag) (lastAction ag)
    else ag in
  let advance :=
    match knownSolution ag1 with
    | Some sol =>
        if (solutionSteps ag1 <? Z.of_nat (length sol) - 1)%Z
        then at_ sol (solutionSteps ag1 + 1)%Z
        else None
    | None => None
    end in
  match advance with
  | Some nextPos =>
      let ag2 :=
        with_episode ag1 (knownSolution ag1) (solutionSteps ag1 + 1)%Z
          nextPos (path ag1 ++ [nextPos]) (moves ag1 + 1)%Z (visited ag1)
          (prevPosition ag1) (lastAction ag1) in
      (ag2, {| resPosition := nextPos; resAction := None;
               resMoves := moves ag2; resIsValid := true;
               resStrategy := Pathfinding |})
  | None =>
      (ag1, {| resPosition := position ag1; resAction := None;
               resMoves := moves ag1; resIsValid := false;
               resStrategy := Pathfinding |})
  end.

(** [(x << 16) | y], both operators working on 32-bit integers *)
Definition toInt32 (z : Z) : Z :=
  ((z + 2147483648) mod 4294967296 - 2147483648)%Z.

Definition getStateKey (x y : Z) : Z :=
  Z.lor (toInt32 (Z.shiftl (toInt32 x) 16)) (toInt32 y).

(** [getQValue(state, action)]: [qValues ? qValues[action] || 0 : 0] *)
Definition getQValue (t : gmap Z (gmap nat Q)) (state : cell) (action : nat)
  : Q :=
  match t !! getStateKey state.1 state.2 with
  | Some qValues => default 0 (qValues !! action)
  | None => 0
  end.

(** [setQValue(state, action, value)] *)
Definition setQValue (t : gmap Z (gmap nat Q)) (state : cell) (action : nat)
  (value : Q) : gmap Z (gmap nat Q) :=
  let stateKey := getStateKey state.1 state.2 in
  <[stateKey := <[action := value]> (default ∅ (t !! stateKey))]> t.

(** [isValidMove(state, action, maze)], as in the tabular agent *)
Definition isValidMove (ag : agent) (state : cell) (action : nat) (m : maze)
  : option bool :=
  match actions !! action with
  | None => None
  | Some (dx, dy) =>
      let newX := (state.1 + dx)%Z in
      let newY := (state.2 + dy)%Z in
      if (0 <=? newX)%Z && (newX <? height ag)%Z
         && (0 <=? newY)%Z && (newY <? width ag)%Z
      then cellIsZero m newX newY
      else Some false
  end.

(** [getReward(oldState, newState, maze, isGameOver, isWin)] *)
Definition getReward (ag : agent) (oldState newState : cell) (m : maze)
  (isGameOver isWin : bool) : Q :=
  if isWin then 100
  else if isGameOver then -50
  else
    let reward := - (5 # 10) in
    let goal := ((height ag - 2)%Z, (width ag - 2)%Z) in
    let oldDistance := manhattan oldState goal in
    let newDistance := manhattan newState goal in
    let reward :=
      if (newDistance <? oldDistance)%Z then reward + 2
      else if (oldDistance <? newDistance)%Z then reward - 2
      else reward - (5 # 10) in
    if bool_decide (newState ∈ visited ag) then reward
    else reward + (15 # 10).

(** the loop of [updateQValue]: [None] is [-Infinity], the running
    maximum before any valid action was met; the outer option is the
    TypeError of [isValidMove] *)
Fixpoint maxFuture (ag : agent) (newState : cell) (m : maze)
  (acts : list nat) (acc : option Q) : option (option Q) :=
  match acts with
  | [] => Some acc
  | a :: rest =>
      match isValidMove ag newState a m with
      | None => None
      | Some true =>
          let q := getQValue (qTable ag) newState a in
          maxFuture ag newState m rest
            (Some (match acc with
                   | None => q
                   | Some best => qmax best q
                   end))
      | Some false => maxFuture ag newState m rest acc
      end
  end.

(** [updateQValue(oldState, action, newState, reward, maze)] *)
Definition updateQValue (ag : agent) (oldState : cell) (action : nat)
  (newState : cell) (reward : Q) (m : maze) : option agent :=
  if negb (strategy_eqb (currentStrategy ag) Qlearning) then Some ag
  else
    let currentQ := getQValue (qTable ag) oldState action in
    match maxFuture ag newState m [0; 1; 2; 3]%nat None with
    | None => None
    | Some best =>
        let maxFutureQ := default 0 best in
        let newQ :=
          currentQ
          + learningRate ag * (reward + gamma ag * maxFutureQ - currentQ) in
        Some (with_qTable ag (setQValue (qTable ag) oldState action newQ))
    end.

(** [finishGame(isWin)] *)
Definition finishGame (ag : agent) (isWin : bool) : agent :=
  {| width := width ag; height := height ag; mazeSize := mazeSize ag;
     isLargeMaze := isLargeMaze ag;
     epsilon := if Qlt_le_dec (epsilonMin ag) (epsilon ag)
                then epsilon ag
                     * (if isLargeMaze ag then 99 # 100 else epsilonDecay ag)
                else epsilon ag;
     epsilonStart := epsilonStart ag; epsilonDecay := epsilonDecay ag;
     epsilonMin := epsilonMin ag; gamma := gamma ag;
     learningRate := learningRate ag; qTable := qTable ag;
     fastSolver := fastSolver ag;
     knownSolution := None; solutionSteps := 0;
     position := position ag; path := path ag; moves := moves ag;
     visited := visited ag;
     isTraining := isTraining ag; currentStrategy := currentStrategy ag;
     gamesPlayed := (gamesPlayed ag + 1)%Z;
     totalMoves := (totalMoves ag + moves ag)%Z;
     moveHistory := moveHistory ag ++ [moves ag];
     successfulGames := if isWin then (successfulGames ag + 1)%Z
                        else successfulGames ag;
     prevPosition := prevPosition ag; lastAction := lastAction ag |}.

(** [finishGame] called at the end of each episode of a run *)
Definition finishGames (ag : agent) (wins : list bool) : agent :=
  fold_left finishGame wins ag.

(** [trainStep(maze, previousState, action)]: the first option is the
    TypeError of [isValidMove]; the verdict is absent when the agent is
    not training *)
Definition trainStep (ag : agent) (m : maze)
  (previous : option (cell * nat)) : option (agent * option (bool * bool)) :=
  if negb (isTraining ag) then Some (ag, None)
  else
    let goalX := (height ag - 2)%Z in
    let goalY := (width ag - 2)%Z in
    let isWin := ((position ag).1 =? goalX)%Z && ((position ag).2 =? goalY)%Z in
    let maxMoves :=
      if isLargeMaze ag then mazeSize ag
      else if (width ag <=? 31)%Z
      then Z.max 100 (width ag * height ag / 2)
      else Z.max (width ag * height ag) 150 in
    let isGameOver := (maxMoves <? moves ag)%Z || isWin in
    match previous with
    | Some (previousState, action) =>
        if strategy_eqb (currentStrategy ag) Qlearning
        then
          let reward :=
            getReward ag previousState (position ag) m isGameOver isWin in
          match updateQValue ag previousState action (position ag) reward m
          with
          | None => None
          | Some ag' => Some (ag', Some (isWin, isGameOver))
          end
        else Some (ag, Some (isWin, isGameOver))
    | None => Some (ag, Some (isWin, isGameOver))
    end.

Section Move.

(** [chooseAction(state, maze)] draws random numbers and may call the
    planner; the moves below take its answer as given. *)
Variable chooseAction : agent -> cell -> maze -> nat.

(** [qLearningMove(maze)] *)
Definition qLearningMove (ag : agent) (m : maze)
  : option (agent * moveResult) :=
  let action := chooseAction ag (position ag) m in
  match actions !! action with
  | None => None
  | Some (dx, dy) =>
      let newPosition := ((position ag).1 + dx, (position ag).2 + dy)%Z in
      match isValidMove ag (position ag) action m with
      | None => None
      | Some true =>
          let ag1 :=
            with_episode ag (knownSolution ag) (solutionSteps ag)
              newPosition (path ag ++ [newPosition]) (moves ag + 1)%Z
              ({[ newPosition ]} ∪ visited ag)
              (Some (position ag)) (Z.of_nat action) in
          Some (ag1, {| resPosition := newPosition;
                        resAction := Some action;
                        resMoves := moves ag1; resIsValid := true;
                        resStrategy := Qlearning |})
      | Some false =>
          Some (ag, {| resPosition := position ag;
                       resAction := Some action;
                       resMoves := moves ag; resIsValid := false;
                       resStrategy := Qlearning |})
      end
  end.

(** [move(maze)] *)
Definition move (ag : agent) (m : maze) : option (agent * moveResult) :=
  let ag1 := with_currentStrategy ag (selectStrategy ag m) in
  match currentStrategy ag1 with
  | Pathfinding => Some (pathfindingMove ag1 m)
  | Qlearning => qLearningMove ag1 m
  end.

(** what the requests along a stored route keep, [k] requests into the
    episode of the agent [ag0]: the route and the count of steps, the
    agent on the [k]-th cell, the cells so far in [path], the table as
    it was *)
Definition onRoute (ag0 ag : agent) (route : list cell) (k : nat) : Prop :=
  isLargeMaze ag = true
  /\ knownSolution ag = Some route
  /\ solutionSteps ag = Z.of_nat k
  /\ route !! k = Some (position ag)
  /\ path ag = [(1, 1)%Z] ++ take k (drop 1 route)
  /\ moves ag = Z.of_nat k
  /\ qTable ag = qTable ag0.

(** [n] calls of [move(maze)] in a row: the agent after them and what
    the calls returned, in order *)
Fixpoint moveTimes (n : nat) (ag : agent) (m : maze)
  : option (agent * list moveResult) :=
  match n with
  | O => Some (ag, [])
  | S k =>
      match move ag m with
      | None => None
      | Some (ag1, r) =>
          match moveTimes k ag1 m with
          | None => None
          | Some (ag2, rs) => Some (ag2, r :: rs)
          end
      end
  end.

End Move.

End Hybrid.

(** ** Random draws *)

Module Rand.

(** the [i]-th value of [Math.random()]: the stream's entry brought into
    [0, 1) by dropping its integer part *)
Definition random (rnd : nat -> Q) (i : nat) : Q :=
  rnd i - inject_Z (Qfloor (rnd i)).

(** [(Math.random() * len) | 0], also [Math.floor(Math.random() * len)] *)
Definition randomIndex (rnd : nat -> Q) (i : nat) (len : nat) : nat :=
  Z.to_nat (Qfloor (random rnd i * inject_Z (Z.of_nat len))).

(** [Math.floor(Math.random() * k)] for an integer [k] *)
Definition randomBelow (rnd : nat -> Q) (i : nat) (k : Z) : Z :=
  Qfloor (random rnd i * inject_Z k).

End Rand.

(** ** mctsPlan: the time-boxed tree search *)

Module MCTS.
Import Grid.

(** the three maps of one invocation, and the cursor into the random
    stream.  A state's key [x + "," + y] is one string per cell, and
    [sKey + "|" + a] one string per cell and action: the cell and the
    pair stand for them. *)
Record stats : Type := mkStats {
  N : gmap (Z * Z) nat;
  Na : gmap (Z * Z * nat) nat;
  Qsum : gmap (Z * Z * nat) Q;
  cursor : nat
}.

Definition getNa (st : stats) (sKey : Z * Z) (a : nat) : nat :=
  default 0%nat (Na st !! (sKey, a)).

Definition getQ (st : stats) (sKey : Z * Z) (a : nat) : Q :=
  default 0 (Qsum st !! (sKey, a)).

(** [addStats(sKey, a, v)] *)
Definition addStats (st : stats) (sKey : Z * Z) (a : nat) (v : Q) : stats :=
  {| N := <[sKey := (default 0 (N st !! sKey) + 1)%nat]> (N st);
     Na := <[(sKey, a) := (getNa st sKey a + 1)%nat]> (Na st);
     Qsum := <[(sKey, a) := getQ st sKey a + v]> (Qsum st);
     cursor := cursor st |}.

(** [x > best] where [None] is [-Infinity] *)
Definition above (x best : option Q) : bool :=
  match x, best with
  | None, _ => false
  | Some _, None => true
  | Some a, Some b => if Qlt_le_dec b a then true else false
  end.

(** the loops [for (const a of actions) if (score(a) > best) ...]:
    the first action with the greatest score seen, scores compared
    with [>] *)
Fixpoint pickBest (score : nat -> option Q) (acts : list nat)
  (bestA : nat) (best : option Q) : nat :=
  match acts with
  | [] => bestA
  | a :: rest =>
      if above (score a) best then pickBest score rest a (score a)
      else pickBest score rest bestA best
  end.

Section Plan.

Variable maze_ : maze.
Variable validActionsFn : cell -> maze -> list nat.
Variable stepFn : cell -> nat -> maze -> cell * Q * bool.
Variable evaluateFn : cell -> maze -> Q.
Variable maxDepth : nat.
Variable c : Q.
(** [Math.sqrt] and [Math.log], which have no rational model *)
Variable sqrt : Q -> Q.
Variable log : Q -> Q.
Variable rnd : nat -> Q.

(** [actions[(Math.random() * actions.length) | 0]] *)
Definition drawAction (acts : list nat) (st : stats) : nat * stats :=
  (nth (Rand.randomIndex rnd (cursor st) (length acts)) acts 0%nat,
   {| N := N st; Na := Na st; Qsum := Qsum st;
      cursor := S (cursor st) |}).

(** [rollout(s, depth)]; [left] is [maxDepth - depth] *)
Fixpoint rollout (left : nat) (current : cell) (st : stats) : Q * stats :=
  match left with
  | O => (evaluateFn current maze_, st)
  | S left' =>
      match validActionsFn current maze_ with
      | [] => (evaluateFn current maze_, st)
      | acts =>
          let '(a, st1) := drawAction acts st in
          let '(nextState, reward, terminal) := stepFn current a maze_ in
          if terminal then (reward, st1)
          else rollout left' nextState st1
      end
  end.

(** the UCB score of an action at a visited state *)
Definition ucb (st : stats) (sKey : Z * Z) (total : Q) (a : nat) : Q :=
  let q := getQ st sKey a in
  let na := getNa st sKey a in
  let mean := if (0 <? na)%nat then q / inject_Z (Z.of_nat na) else 0 in
  mean + c * sqrt (log (total + 1) / (1 + inject_Z (Z.of_nat na))).

(** [simulate(s, depth)]; [left] is [maxDepth - depth] *)
Fixpoint simulate (left : nat) (s : cell) (st : stats) : Q * stats :=
  match left with
  | O => (evaluateFn s maze_, st)
  | S left' =>
      match validActionsFn s maze_ with
      | [] => (evaluateFn s maze_, st)
      | (a0 :: _) as acts =>
          match N st !! s with
          | None =>
              let st0 := {| N := <[s := 0%nat]> (N st); Na := Na st;
                            Qsum := Qsum st; cursor := cursor st |} in
              let '(a, st1) := drawAction acts st0 in
              let '(nextState, reward, terminal) := stepFn s a maze_ in
              let '(leafV, st2) :=
                if terminal then (reward, st1)
                else rollout left' nextState st1 in
              (leafV, addStats st2 s a leafV)
          | Some n =>
              let total := inject_Z (Z.of_nat n) + (1 # 1000000000) in
              let bestA :=
                pickBest (fun a => Some (ucb st s total a)) acts a0 None in
              let '(nextState, reward, terminal) := stepFn s bestA maze_ in
              let '(v, st1) :=
                if terminal then (reward, st)
                else simulate left' nextState st in
              (v, addStats st1 s bestA v)
          end
      end
  end.

(** [while (performance.now() < deadline) simulate(state, 0)], for the
    [passes] the loop makes before the deadline *)
Fixpoint runPasses (passes : nat) (state : cell) (st : stats) : stats :=
  match passes with
  | O => st
  | S k => runPasses k state (simulate maxDepth state st).2
  end.

(** the mean return of a root action, [-Infinity] if it was never taken *)
Definition rootValue (st : stats) (rootKey : Z * Z) (a : nat) : option Q :=
  let q := getQ st rootKey a in
  let n := getNa st rootKey a in
  if (0 <? n)%nat then Some (q / inject_Z (Z.of_nat n)) else None.

(** [mctsPlan({state, maze, ...})] *)
Definition mctsPlan (passes : nat) (state : cell) : nat :=
  let st := runPasses passes state
              {| N := ∅; Na := ∅; Qsum := ∅; cursor := 0%nat |} in
  match validActionsFn state maze_ with
  | [] => 0%nat
  | (a0 :: _) as acts => pickBest (rootValue st state) acts a0 None
  end.

End Plan.

End MCTS.

(** ** QLearningAgent: choosing and making a move *)

Module QPolicy.
Import JsNum Grid QLearning.

(** the loop [if (qValue > bestValue) ...] over the actions in [acts]
    that are valid in [state]; reading a value creates the row of the
    state.  [None] is the TypeError of [isValidMove]. *)
Fixpoint bestFrom (ag : agent) (state : cell) (m : maze) (acts : list nat)
  (t : gmap (Z * Z) (list num)) (bestAction : nat) (bestValue : num)
  : option (nat * gmap (Z * Z) (list num)) :=
  match acts with
  | [] => Some (bestAction, t)
  | a :: rest =>
      match isValidMove ag state a m with
      | None => None
      | Some false => bestFrom ag state m rest t bestAction bestValue
      | Some true =>
          let '(qValue, t1) := getQValue t state a in
          if gt qValue bestValue
          then bestFrom ag state m rest t1 a qValue
          else bestFrom ag state m rest t1 bestAction bestValue
      end
  end.

(** [getBestAction(state, maze)] *)
Definition getBestAction (ag : agent) (state : cell) (m : maze)
  : option (nat * agent) :=
  match bestFrom ag state m [0; 1; 2; 3]%nat (qTable ag) 0%nat NegInf with
  | None => None
  | Some (a, t) => Some (a, with_qTable ag t)
  end.

(** the exploiting loop of [chooseAction], over the valid actions *)
Fixpoint greedy (state : cell) (acts : list nat)
  (t : gmap (Z * Z) (list num)) (bestAction : nat) (bestValue : num)
  : nat * gmap (Z * Z) (list num) :=
  match acts with
  | [] => (bestAction, t)
  | a :: rest =>
      let '(qValue, t1) := getQValue t state a in
      if gt qValue bestValue then greedy state rest t1 a qValue
      else greedy state rest t1 bestAction bestValue
  end.

Section Choice.

(** the planner switch and its settings, fields of the agent that only
    [chooseAction] reads; the budget is the number of passes it allows;
    [Math.sqrt] and [Math.log] as in the planner *)
Variable useMCTS : bool.
Variable passes : nat.
Variable mctsDepth : nat.
Variable sqrt : Q -> Q.
Variable log : Q -> Q.

(** [chooseAction(state, maze)], reading the random stream [rnd] from
    its start.  A TypeError of [isValidMove] is [None]; inside the
    planner's callbacks the valid actions are computed on a maze that
    has all its rows. *)
Definition chooseAction (rnd : nat -> Q) (ag : agent) (state : cell)
  (m : maze) : option (nat * agent) :=
  if useMCTS
  then
    Some (MCTS.mctsPlan m
            (fun s m' => default [] (validActionsFromState ag s m'))
            (simStep ag)
            (fun s _ => inject_Z (- manhattanToGoal ag s))
            mctsDepth (12 # 10) sqrt log rnd passes state,
          ag)
  else
    match validActionsFromState ag state m with
    | None => None
    | Some [] => Some (0%nat, ag)
    | Some ((a0 :: _) as validActions) =>
        if (if Qlt_le_dec (Rand.random rnd 0) (epsilon ag) then true
            else false)
           && isTraining ag
        then
          Some (nth (Rand.randomIndex rnd 1 (length validActions))
                  validActions 0%nat,
                ag)
        else
          let '(a, t) := greedy state validActions (qTable ag) a0 NegInf in
          Some (a, with_qTable ag t)
    end.

(** what [move] returns *)
Record moveResult : Type := {
  resPosition : cell;
  resAction : nat;
  resMoves : Z;
  resIsValid : bool
}.

Definition with_place (ag : agent) (pos : cell) (pth : list cell) (mv : Z)
  : agent :=
  {| width := width ag; height := height ag; epsilon := epsilon ag;
     epsilonStart := epsilonStart ag; epsilonDecay := epsilonDecay ag;
     epsilonMin := epsilonMin ag; gamma := gamma ag;
     learningRate := learningRate ag; qTable := qTable ag;
     position := pos; path := pth; moves := mv;
     isTraining := isTraining ag; gamesPlayed := gamesPlayed ag;
     totalMoves := totalMoves ag; moveHistory := moveHistory ag;
     successfulGames := successfulGames ag |}.

(** [move(maze)] *)
Definition move (rnd : nat -> Q) (ag : agent) (m : maze)
  : option (agent * moveResult) :=
  match chooseAction rnd ag (position ag) m with
  | None => None
  | Some (action, ag1) =>
      match actions !! action with
      | None => None
      | Some (dx, dy) =>
          let newPosition :=
            ((position ag1).1 + dx, (position ag1).2 + dy)%Z in
          match isValidMove ag1 (position ag1) action m with
          | None => None
          | Some true =>
              let ag2 :=
                with_place ag1 newPosition (path ag1 ++ [newPosition])
                  (moves ag1 + 1)%Z in
              Some (ag2, {| resPosition := newPosition; resAction := action;
                            resMoves := moves ag2; resIsValid := true |})
          | Some false =>
              Some (ag1, {| resPosition := position ag1;
                            resAction := action;
                            resMoves := moves ag1; resIsValid := false |})
          end
      end
  end.

End Choice.


Definition maxOf (l : list Z) : Z := foldr Z.max (default 0%Z (head l)) l.

Record stats : Type := {
  statGamesPlayed : Z;
  statEpsilon : Q;
  statGamma : Q;
  avgMoves : Q;
  minMoves : Z;
  maxMoves : Z;
  successRate : Q;
  qTableSize : nat
}.




End QPolicy.

(** ** DynamicMazeElements: which cells the moving parts occupy *)

Module Dynamic.
Import Grid.

Record movingWall : Type := {
  wallPosition : cell;
  wallDirection : Z;
  wallSpeed : Z;
  wallLastMove : Z;
  wallLength : Z
}.

(** the angle only ever takes the values 0, 90, 180 and 270 *)
Record rotatingSection : Type := {
  center : cell;
  radius : Z;
  rotationSpeed : Z;
  lastRotation : Z;
  angle : nat
}.

Record elements : Type := {
  width : Z;
  height : Z;
  time : Z;
  movingWalls : list movingWall;
  rotatingSections : list rotatingSection;
  temporaryWalls : gset (Z * Z)
}.

(** the cells strictly inside the border *)
Definition inner (d : elements) (x y : Z) : bool :=
  (0 <? x)%Z && (x <? height d - 1)%Z && (0 <? y)%Z && (y <? width d - 1)%Z.

(** [0, 1, ..., len - 1] *)
Definition upto (len : Z) : list Z :=
  map Z.of_nat (seq 0 (Z.to_nat len)).

(** [getMovingWallCells(wall)] *)
Definition getMovingWallCells (d : elements) (w : movingWall) : list cell :=
  let '(x, y) := wallPosition w in
  let len := if (wallLength w =? 0)%Z then 2%Z else wallLength w in
  let dir := Z.rem (wallDirection w) 2 in
  omap (fun i =>
          let cx := if (dir =? 1)%Z then (x + i)%Z else x in
          let cy := if (dir =? 0)%Z then (y + i)%Z else y in
          if inner d cx cy then Some (cx, cy) else None)
       (upto len).

(** [getRotatingSectionCells(section)] *)
Definition getRotatingSectionCells (d : elements) (s : rotatingSection)
  : list cell :=
  let '(cx, cy) := center s in
  let r := radius s in
  let plus := [(- r, 0); (r, 0); (0, - r); (0, r)]%Z in
  let cross := [(- r, - r); (- r, r); (r, - r); (r, r)]%Z in
  let orientations := [plus; cross; plus; cross] in
  let idx := (((angle s mod 360) / 90) mod 4)%nat in
  omap (fun '(dx, dy) =>
          let x := (cx + dx)%Z in
          let y := (cy + dy)%Z in
          if inner d x y then Some (x, y) else None)
       (nth idx orientations []).

(** [parts.some(([px, py]) => px === x && py === y)] *)
Definition someAt (parts : list cell) (x y : Z) : bool :=
  existsb (fun p => (p.1 =? x)%Z && (p.2 =? y)%Z) parts.

(** [isBlocked(x, y)] *)
Definition isBlocked (d : elements) (x y : Z) : bool :=
  existsb (fun w => someAt (getMovingWallCells d w) x y) (movingWalls d)
  || existsb (fun s => someAt (getRotatingSectionCells d s) x y)
       (rotatingSections d)
  || bool_decide ((x, y) ∈ temporaryWalls d).

End Dynamic.

(** ** EnhancedAgentState: the per-episode record and the reward model *)

Module Enhanced.
Import Grid.

Inductive gameMode : Type :=
| Classic | DynamicMode | Competitive | Fog | Survival | Procedural.

Inductive dir : Type := Up | Right | Down | Left.

(** the fifteen action names: [move_up], [dash_left], [wait], ... *)
Inductive action : Type :=
| Move (d : dir)
| Wait
| Dash (d : dir)
| Jump (d : dir)
| UseItem
| Rest.

Definition dirName (d : dir) : string :=
  match d with
  | Up => "up" | Right => "right" | Down => "down" | Left => "left"
  end%string.

(** the string of an action *)
Definition name (a : action) : string :=
  match a with
  | Move d => "move_" ++ dirName d
  | Dash d => "dash_" ++ dirName d
  | Jump d => "jump_" ++ dirName d
  | Wait => "wait"
  | UseItem => "use_item"
  | Rest => "rest"
  end%string.

Inductive item : Type :=
| HealthPotion (value : Q)
| EnergyPotion (value : Q)
| KeyItem (keyType : string)
| OtherItem.

Record gameEvents : Type := {
  adaptedToChange : bool;
  caughtByMovingWall : bool;
  foundFood : bool;
  foundKey : bool;
  hitTrap : bool;
  collectibleTaken : bool;
  blockedOtherAgent : bool;
  wasBlocked : bool
}.

(** the fields the reward model and the linear agent read or write *)
Record state : Type := mkState {
  mode : gameMode;
  width : Z;
  height : Z;
  position : cell;
  path : list cell;
  moves : Z;
  health : Q;
  maxHealth : Q;
  energy : Q;
  maxEnergy : Q;
  score : Q;
  inventory : list item;
  keys : gset string;
  abilities : gset string;
  powerups : gset string;
  exploredCells : gset (Z * Z);
  timeAlive : Z;
  stepsWithoutProgress : Z;
  primaryGoal : cell
}.

(** the resources and the stagnation counter, which [calculateReward]
    writes *)
Definition with_vitals (s : state) (h e : Q) (stag : Z) : state :=
  {| mode := mode s; width := width s; height := height s;
     position := position s; path := path s; moves := moves s;
     health := h; maxHealth := maxHealth s;
     energy := e; maxEnergy := maxEnergy s;
     score := score s; inventory := inventory s; keys := keys s;
     abilities := abilities s; powerups := powerups s;
     exploredCells := exploredCells s; timeAlive := timeAlive s;
     stepsWithoutProgress := stag; primaryGoal := primaryGoal s |}.

(** [getEnergyCost(action)]: the comparisons are with the bare words
    [dash] and [jump] *)
Definition getEnergyCost (s : state) (a : action) : Q :=
  let cost := 1 in
  let cost :=
    if bool_decide ("dash"%string ∈ abilities s)
       && String.eqb (name a) "dash" then 3 else cost in
  let cost :=
    if bool_decide ("jump"%string ∈ abilities s)
       && String.eqb (name a) "jump" then 2 else cost in
  if bool_decide ("efficiency"%string ∈ powerups s)
  then cost * (5 # 10) else cost.

Definition leb (a b : Q) : bool := if Qlt_le_dec b a then false else true.

(** the cells of the 3x3 block around [p] that lie in the maze and are
    not explored yet *)
Definition unknownNeighbors (s : state) (m : maze) (p : cell) : Z :=
  let rows := Z.of_nat (length m) in
  let cols := Z.of_nat (length (default [] (head m))) in
  Z.of_nat
    (length
       (filter
          (fun ij : Z * Z =>
             let checkX := (p.1 + ij.1)%Z in
             let checkY := (p.2 + ij.2)%Z in
             (0 <=? checkX)%Z && (checkX <? rows)%Z
             && (0 <=? checkY)%Z && (checkY <? cols)%Z
             && negb (bool_decide ((checkX, checkY) ∈ exploredCells s)) = true)
          (i ← [-1; 0; 1]%Z; j ← [-1; 0; 1]%Z; [(i, j)]))).

(** the opening of [calculateReward]: step cost, energy spent and its
    cost, penalties for low health and low energy.  It answers the
    running reward and the energy left. *)
Definition baseCost (s : state) (a : action) : Q * Q :=
  let reward := 0 in
  let reward := reward - (5 # 10) in
  let energyCost := getEnergyCost s a in
  let energy1 := qmax 0 (energy s - energyCost) in
  let reward := reward - energyCost * (5 # 100) in
  let reward := if leb (health s) 20 then reward - 3 else reward in
  let reward := if leb energy1 10 then reward - 2 else reward in
  (reward, energy1).

(** the goal-progress block: the running reward and the stagnation
    counter after it *)
Definition goalProgress (s : state) (newPosition : cell) (reward : Q)
  : Q * Z :=
  let oldDistance := manhattan (position s) (primaryGoal s) in
  let newDistance := manhattan newPosition (primaryGoal s) in
  if (newDistance <? oldDistance)%Z
  then (reward + qmax 3 (15 - inject_Z newDistance * (5 # 10)), 0%Z)
  else if (newDistance =? oldDistance)%Z
  then (reward - (1 # 10), stepsWithoutProgress s)
  else (reward - 1, (stepsWithoutProgress s + 1)%Z).

(** the escalating stagnation penalty *)
Definition stagnation (stag : Z) (reward : Q) : Q :=
  if (15 <? stag)%Z then reward - inject_Z stag * (5 # 10) else reward.

(** the [switch (this.gameMode)] block: the running reward and the
    health after it *)
Definition modeReward (s : state) (m : maze) (newPosition : cell)
  (ev : gameEvents) (reward : Q) : Q * Q :=
  match mode s with
  | Fog =>
      let reward :=
        if bool_decide (newPosition ∈ exploredCells s) then reward
        else reward + 8 in
      (reward + inject_Z (unknownNeighbors s m newPosition) * (15 # 10),
       health s)
  | Survival =>
      let '(reward, h) :=
        if foundFood ev
        then (reward + 20, qmin (maxHealth s) (health s + 25))
        else (reward, health s) in
      let reward := if foundKey ev then reward + 15 else reward in
      if hitTrap ev then (reward - 30, h - 20) else (reward, h)
  | Competitive =>
      let reward := if collectibleTaken ev then reward + 25 else reward in
      let reward := if blockedOtherAgent ev then reward + 10 else reward in
      let reward := if wasBlocked ev then reward - 5 else reward in
      (reward, health s)
  | DynamicMode =>
      let reward := if adaptedToChange ev then reward + 8 else reward in
      let reward :=
        if caughtByMovingWall ev then reward - 15 else reward in
      (reward, health s)
  | Classic | Procedural => (reward, health s)
  end.

(** the reward before the win and death terms, with the energy, health
    and stagnation counter as the method leaves them *)
Definition shapedReward (s : state) (a : action) (newPosition : cell)
  (m : maze) (ev : gameEvents) : Q * state :=
  let '(reward, energy1) := baseCost s a in
  let '(reward, stag) := goalProgress s newPosition reward in
  let reward := stagnation stag reward in
  let '(reward, health1) := modeReward s m newPosition ev reward in
  (reward, with_vitals s health1 energy1 stag).

(** the win condition of [calculateReward] *)
Definition atGoal (s : state) (p : cell) : bool :=
  (p.1 =? (primaryGoal s).1)%Z && (p.2 =? (primaryGoal s).2)%Z.

(** the death condition of [calculateReward], on the state as the
    shaping left it *)
Definition dead (s : state) : bool := leb (health s) 0 || leb (energy s) 0.

(** [calculateReward(action, newPosition, maze, dynamicElements,
    gameEvents)] *)
Definition calculateReward (s : state) (a : action) (newPosition : cell)
  (m : maze) (ev : gameEvents) : Q * state :=
  let '(reward, s1) := shapedReward s a newPosition m ev in
  let reward :=
    if atGoal s1 newPosition
    then
      let reward := reward + 100 in
      let efficiency := qmax 0 (inject_Z (1000 - moves s1)) / 10 in
      reward + efficiency
    else reward in
  let reward := if dead s1 then reward - 100 else reward in
  (reward, s1).

End Enhanced.

(** ** DynamicMazeElements: set-up and the step of the dynamic mode *)

Module DynamicSteps.
Import Grid Enhanced Dynamic.

(** the moving walls [initializeDynamicElements] creates, [n] of them,
    five draws each: row, column, direction, speed, length *)
Fixpoint newWalls (rnd : nat -> Q) (w h : Z) (n : nat) (cur : nat)
  : list movingWall :=
  match n with
  | O => []
  | S k =>
      {| wallPosition :=
           ((Rand.randomBelow rnd cur (h - 4) + 2)%Z,
            (Rand.randomBelow rnd (cur + 1) (w - 4) + 2)%Z);
         wallDirection := Rand.randomBelow rnd (cur + 2) 4;
         wallSpeed := (3 + Rand.randomBelow rnd (cur + 3) 3)%Z;
         wallLastMove := 0;
         wallLength := (2 + Rand.randomBelow rnd (cur + 4) 3)%Z |}
      :: newWalls rnd w h k (cur + 5)
  end.

(** the rotating sections it creates, four draws each: centre row,
    centre column, radius, speed *)
Fixpoint newSections (rnd : nat -> Q) (w h : Z) (n : nat) (cur : nat)
  : list rotatingSection :=
  match n with
  | O => []
  | S k =>
      {| center :=
           ((Rand.randomBelow rnd cur (h - 8) + 4)%Z,
            (Rand.randomBelow rnd (cur + 1) (w - 8) + 4)%Z);
         radius := (2 + Rand.randomBelow rnd (cur + 2) 2)%Z;
         rotationSpeed := (8 + Rand.randomBelow rnd (cur + 3) 4)%Z;
         lastRotation := 0;
         angle := 0 |}
      :: newSections rnd w h k (cur + 4)
  end.

(** [new DynamicMazeElements(width, height, "dynamic")]: the fields of
    the constructor, then [initializeDynamicElements()] *)
Definition createDynamic (rnd : nat -> Q) (w h : Z) (cur : nat) : elements :=
  let numMovingWalls := Z.to_nat (w / 8) in
  let numRotatingSections := Z.to_nat (Z.min w h / 15) in
  {| width := w; height := h; time := 0;
     movingWalls := newWalls rnd w h numMovingWalls cur;
     rotatingSections :=
       newSections rnd w h numRotatingSections (cur + 5 * numMovingWalls);
     temporaryWalls := ∅ |}.

(** the events object [update] starts from *)
Definition noEvents : gameEvents :=
  {| adaptedToChange := false; caughtByMovingWall := false;
     foundFood := false; foundKey := false; hitTrap := false;
     collectibleTaken := false; blockedOtherAgent := false;
     wasBlocked := false |}.

Definition with_moved (ev : gameEvents) (caught : bool) : gameEvents :=
  {| adaptedToChange := true;
     caughtByMovingWall := caughtByMovingWall ev || caught;
     foundFood := foundFood ev; foundKey := foundKey ev;
     hitTrap := hitTrap ev; collectibleTaken := collectibleTaken ev;
     blockedOtherAgent := blockedOtherAgent ev;
     wasBlocked := wasBlocked ev |}.

(** the offsets a wall moves by, indexed by its direction *)
Definition wallOffsets : list (Z * Z) := [(0, 1); (1, 0); (0, -1); (-1, 0)]%Z.

(** the body of [movingWalls.forEach] in [updateDynamicElements], at
    the time [now].  [None] is the TypeError of a direction that is no
    index of the offsets. *)
Definition stepWall (w h now : Z) (agentPosition : cell) (wall : movingWall)
  (ev : gameEvents) : option (movingWall * gameEvents) :=
  if (wallSpeed wall <=? now - wallLastMove wall)%Z
  then
    match at_ wallOffsets (wallDirection wall) with
    | None => None
    | Some (dx, dy) =>
        let newPos :=
          (((wallPosition wall).1 + dx)%Z, ((wallPosition wall).2 + dy)%Z) in
        if (newPos.1 <=? 1)%Z || (h - 2 <=? newPos.1)%Z
           || (newPos.2 <=? 1)%Z || (w - 2 <=? newPos.2)%Z
        then
          Some ({| wallPosition := wallPosition wall;
                   wallDirection := Z.rem (wallDirection wall + 2) 4;
                   wallSpeed := wallSpeed wall; wallLastMove := now;
                   wallLength := wallLength wall |},
                ev)
        else
          Some ({| wallPosition := newPos;
                   wallDirection := wallDirection wall;
                   wallSpeed := wallSpeed wall; wallLastMove := now;
                   wallLength := wallLength wall |},
                with_moved ev
                  ((newPos.1 =? agentPosition.1)%Z
                   && (newPos.2 =? agentPosition.2)%Z))
    end
  else Some (wall, ev).

Fixpoint stepWalls (w h now : Z) (agentPosition : cell)
  (walls : list movingWall) (ev : gameEvents)
  : option (list movingWall * gameEvents) :=
  match walls with
  | [] => Some ([], ev)
  | wall :: rest =>
      match stepWall w h now agentPosition wall ev with
      | None => None
      | Some (wall1, ev1) =>
          match stepWalls w h now agentPosition rest ev1 with
          | None => None
          | Some (rest1, ev2) => Some (wall1 :: rest1, ev2)
          end
      end
  end.

(** the body of [rotatingSections.forEach] *)
Definition stepSection (now : Z) (s : rotatingSection) (ev : gameEvents)
  : rotatingSection * gameEvents :=
  if (rotationSpeed s <=? now - lastRotation s)%Z
  then ({| center := center s; radius := radius s;
           rotationSpeed := rotationSpeed s; lastRotation := now;
           angle := (angle s + 90) mod 360 |},
        with_moved ev false)
  else (s, ev).

Fixpoint stepSections (now : Z) (ss : list rotatingSection) (ev : gameEvents)
  : list rotatingSection * gameEvents :=
  match ss with
  | [] => ([], ev)
  | s :: rest =>
      let '(s1, ev1) := stepSection now s ev in
      let '(rest1, ev2) := stepSections now rest ev1 in
      (s1 :: rest1, ev2)
  end.

(** [update(maze, agentPosition, agentStats)] in the dynamic mode: the
    clock ticks, then [updateDynamicElements] *)
Definition update (d : elements) (agentPosition : cell)
  : option (elements * gameEvents) :=
  let now := (time d + 1)%Z in
  match stepWalls (width d) (height d) now agentPosition (movingWalls d)
          noEvents with
  | None => None
  | Some (walls, ev1) =>
      let '(sections, ev2) := stepSections now (rotatingSections d) ev1 in
      Some ({| width := width d; height := height d; time := now;
               movingWalls := walls; rotatingSections := sections;
               temporaryWalls := temporaryWalls d |},
            ev2)
  end.

(** [update] called once for each position of the agent in turn *)
Fixpoint updates (d : elements) (positions : list cell) : option elements :=
  match positions with
  | [] => Some d
  | p :: rest =>
      match update d p with
      | None => None
      | Some (d1, _) => updates d1 rest
      end
  end.

(** a moving wall as set-up and steps keep it: anchored two cells or
    more from every border, with a direction that indexes the offsets *)
Definition anchored (w h : Z) (wall : movingWall) : Prop :=
  (2 <= (wallPosition wall).1 <= h - 3)%Z
  /\ (2 <= (wallPosition wall).2 <= w - 3)%Z
  /\ (0 <= wallDirection wall < 4)%Z.

(** [moveAgentTowardsGoal(agent, maze)] for a competitor at [pos],
    reading one draw when a direction leads towards the goal.  [None]
    is the TypeError of a missing maze row. *)
Definition moveAgentTowardsGoal (rnd : nat -> Q) (d : elements) (pos : cell)
  (m : maze) (cur : nat) : option (cell * nat) :=
  let gx := (height d - 2)%Z in
  let gy := (width d - 2)%Z in
  let directions :=
    (if (pos.1 <? gx)%Z then [(1, 0)%Z] else [])
    ++ (if (gx <? pos.1)%Z then [(-1, 0)%Z] else [])
    ++ (if (pos.2 <? gy)%Z then [(0, 1)%Z] else [])
    ++ (if (gy <? pos.2)%Z then [(0, -1)%Z] else []) in
  match directions with
  | [] => Some (pos, cur)
  | _ :: _ =>
      let '(dx, dy) :=
        nth (Rand.randomIndex rnd cur (length directions)) directions
          (0, 0)%Z in
      let newX := (pos.1 + dx)%Z in
      let newY := (pos.2 + dy)%Z in
      if (0 <=? newX)%Z && (newX <? height d)%Z
         && (0 <=? newY)%Z && (newY <? width d)%Z
      then
        match cellIsZero m newX newY with
        | None => None
        | Some true => Some ((newX, newY), S cur)
        | Some false => Some (pos, S cur)
        end
      else Some (pos, S cur)
  end.



End DynamicSteps.

(** ** NeuralMazeAgent: the linear-approximation policy *)

Module Neural.
Import Grid Enhanced.

(** [this.actions] *)
Definition actions : list action :=
  [Move Up; Move Right; Move Down; Move Left; Wait;
   Dash Up; Dash Right; Dash Down; Dash Left;
   Jump Up; Jump Right; Jump Down; Jump Left;
   UseItem; Rest].

Definition action_eqb (a b : action) : bool := String.eqb (name a) (name b).

(** [this.actions.indexOf(action)]: [-1] when absent *)
Fixpoint indexFrom (i : Z) (l : list action) (a : action) : Z :=
  match l with
  | [] => (-1)%Z
  | b :: rest => if action_eqb b a then i else indexFrom (i + 1)%Z rest a
  end.

Definition indexOf (a : action) : Z := indexFrom 0 actions a.

Record experience : Type := {
  expState : list Q;
  expAction : Z;
  expReward : Q;
  expNextState : list Q;
  expTerminal : bool
}.

(** one weight row and one bias per action *)
Record linearHead : Type := {
  weights : list (list Q);
  biases : list Q
}.

Record agent : Type := mkAgent {
  width : Z;
  height : Z;
  agentState : state;
  dynamicElements : Dynamic.elements;
  learningRate : Q;
  epsilon : Q;
  epsilonStart : Q;
  epsilonDecay : Q;
  epsilonMin : Q;
  gamma : Q;
  batchSize : nat;
  memory : list experience;
  memorySize : nat;
  head : linearHead;
  lossHistory : list Q;
  explorationHistory : list Q;
  isTraining : bool;
  episode : Z;
  totalSteps : Z
}.

Definition with_agentState (ag : agent) (s : state) : agent :=
  {| width := width ag; height := height ag; agentState := s;
     dynamicElements := dynamicElements ag;
     learningRate := learningRate ag; epsilon := epsilon ag;
     epsilonStart := epsilonStart ag; epsilonDecay := epsilonDecay ag;
     epsilonMin := epsilonMin ag; gamma := gamma ag;
     batchSize := batchSize ag; memory := memory ag;
     memorySize := memorySize ag; head := head ag;
     lossHistory := lossHistory ag;
     explorationHistory := explorationHistory ag;
     isTraining := isTraining ag; episode := episode ag;
     totalSteps := totalSteps ag |}.

Definition with_memory (ag : agent) (mem : list experience) : agent :=
  {| width := width ag; height := height ag; agentState := agentState ag;
     dynamicElements := dynamicElements ag;
     learningRate := learningRate ag; epsilon := epsilon ag;
     epsilonStart := epsilonStart ag; epsilonDecay := epsilonDecay ag;
     epsilonMin := epsilonMin ag; gamma := gamma ag;
     batchSize := batchSize ag; memory := mem;
     memorySize := memorySize ag; head := head ag;
     lossHistory := lossHistory ag;
     explorationHistory := explorationHistory ag;
     isTraining := isTraining ag; episode := episode ag;
     totalSteps := totalSteps ag |}.

Definition with_head (ag : agent) (h : linearHead) : agent :=
  {| width := width ag; height := height ag; agentState := agentState ag;
     dynamicElements := dynamicElements ag;
     learningRate := learningRate ag; epsilon := epsilon ag;
     epsilonStart := epsilonStart ag; epsilonDecay := epsilonDecay ag;
     epsilonMin := epsilonMin ag; gamma := gamma ag;
     batchSize := batchSize ag; memory := memory ag;
     memorySize := memorySize ag; head := h;
     lossHistory := lossHistory ag;
     explorationHistory := explorationHistory ag;
     isTraining := isTraining ag; episode := episode ag;
     totalSteps := totalSteps ag |}.

(** the end of [trainOnBatch]: loss pushed, epsilon decayed and pushed *)
Definition with_schedule (ag : agent) (eps : Q) (losses expl : list Q)
  : agent :=
  {| width := width ag; height := height ag; agentState := agentState ag;
     dynamicElements := dynamicElements ag;
     learningRate := learningRate ag; epsilon := eps;
     epsilonStart := epsilonStart ag; epsilonDecay := epsilonDecay ag;
     epsilonMin := epsilonMin ag; gamma := gamma ag;
     batchSize := batchSize ag; memory := memory ag;
     memorySize := memorySize ag; head := head ag;
     lossHistory := losses;
     explorationHistory := expl;
     isTraining := isTraining ag; episode := episode ag;
     totalSteps := totalSteps ag |}.

(** the offset of a direction *)
Definition offset (d : dir) : Z * Z :=
  match d with
  | Up => (-1, 0) | Right => (0, 1) | Down => (1, 0) | Left => (0, -1)
  end%Z.

(** the cell a plain move in direction [d] aims at *)
Definition aim (ag : agent) (d : dir) : cell :=
  (((position (agentState ag)).1 + (offset d).1)%Z,
   ((position (agentState ag)).2 + (offset d).2)%Z).

(** the four entries of [directions] in [getValidActions] *)
Definition directions : list dir := [Up; Right; Down; Left].

(** the test shared by [getValidActions] and [performAction]: in
    bounds, open, not blocked by a dynamic element.  [None] is the
    TypeError of a missing maze row. *)
Definition freeCell (ag : agent) (m : maze) (newX newY : Z) : option bool :=
  let blockedByDynamic := Dynamic.isBlocked (dynamicElements ag) newX newY in
  if (0 <=? newX)%Z && (newX <? height ag)%Z
     && (0 <=? newY)%Z && (newY <? width ag)%Z
  then
    match cellIsZero m newX newY with
    | None => None
    | Some open => Some (open && negb blockedByDynamic)
    end
  else Some false.

(** what one direction adds to the list in [getValidActions] *)
Definition actionsToward (ag : agent) (m : maze) (d : dir)
  : option (list action) :=
  let '(x, y) := position (agentState ag) in
  let '(dx, dy) := offset d in
  match freeCell ag m (x + dx)%Z (y + dy)%Z with
  | None => None
  | Some false => Some []
  | Some true =>
      Some ([Move d]
            ++ (if bool_decide ("dash"%string ∈ abilities (agentState ag))
                   && leb 3 (energy (agentState ag))
                then [Dash d] else [])
            ++ (if bool_decide ("jump"%string ∈ abilities (agentState ag))
                   && leb 2 (energy (agentState ag))
                then [Jump d] else []))
  end.

Fixpoint towardAll (ag : agent) (m : maze) (ds : list dir)
  : option (list action) :=
  match ds with
  | [] => Some []
  | d :: rest =>
      match actionsToward ag m d, towardAll ag m rest with
      | Some l, Some ls => Some (l ++ ls)
      | _, _ => None
      end
  end.

(** [getValidActions(maze)] *)
Definition getValidActions (ag : agent) (m : maze) : option (list action) :=
  match towardAll ag m directions with
  | None => None
  | Some moves =>
      Some (moves ++ [Wait; Rest]
            ++ (if (0 <? length (inventory (agentState ag)))%nat
                then [UseItem] else []))
  end.

(** the target offset and energy cost [performAction] derives from the
    action's name: a name without direction, or with a word that is no
    direction ([use_item]), stays in place at cost 1 *)
Definition target (a : action) : Z * Z * Q :=
  match a with
  | Move d => (offset d, 1)
  | Dash d => (((offset d).1 * 2)%Z, ((offset d).2 * 2)%Z, 3)
  | Jump d => (offset d, 2)
  | Wait | Rest | UseItem => ((0, 0)%Z, 1)
  end.

Definition with_place (s : state) (pos : cell) (pth : list cell) (e : Q)
  : state :=
  {| mode := mode s; Enhanced.width := Enhanced.width s;
     Enhanced.height := Enhanced.height s;
     position := pos; path := pth; moves := moves s;
     health := health s; maxHealth := maxHealth s;
     energy := e; maxEnergy := maxEnergy s;
     score := score s; inventory := inventory s; keys := keys s;
     abilities := abilities s; powerups := powerups s;
     exploredCells := exploredCells s; timeAlive := timeAlive s;
     stepsWithoutProgress := stepsWithoutProgress s;
     primaryGoal := primaryGoal s |}.

Definition with_items (s : state) (h e : Q) (inv : list item)
  (ks : gset string) : state :=
  {| mode := mode s; Enhanced.width := Enhanced.width s;
     Enhanced.height := Enhanced.height s;
     position := position s; path := path s; moves := moves s;
     health := h; maxHealth := maxHealth s;
     energy := e; maxEnergy := maxEnergy s;
     score := score s; inventory := inv; keys := ks;
     abilities := abilities s; powerups := powerups s;
     exploredCells := exploredCells s; timeAlive := timeAlive s;
     stepsWithoutProgress := stepsWithoutProgress s;
     primaryGoal := primaryGoal s |}.

(** [useItem()]: the last entry of the inventory is consumed *)
Definition useItem (s : state) : state :=
  match last (inventory s) with
  | None => s
  | Some it =>
      let inv := removelast (inventory s) in
      match it with
      | HealthPotion v =>
          with_items s (qmin (maxHealth s) (health s + v)) (energy s) inv
            (keys s)
      | EnergyPotion v =>
          with_items s (health s) (qmin (maxEnergy s) (energy s + v)) inv
            (keys s)
      | KeyItem k =>
          with_items s (health s) (energy s) inv ({[ k ]} ∪ keys s)
      | OtherItem => with_items s (health s) (energy s) inv (keys s)
      end
  end.

Record actionResult : Type := {
  success : bool;
  resPosition : cell
}.

(** [performAction(action, maze)] *)
Definition performAction (ag : agent) (a : action) (m : maze)
  : option (agent * actionResult) :=
  let s := agentState ag in
  let '(x, y) := position s in
  let '(dx, dy, energyCost) := target a in
  let newX := (x + dx)%Z in
  let newY := (y + dy)%Z in
  match freeCell ag m newX newY with
  | None => None
  | Some free =>
      if free && leb energyCost (energy s)
      then
        Some (with_agentState ag
                (with_place s (newX, newY) (path s ++ [(newX, newY)])
                   (qmax 0 (energy s - energyCost))),
              {| success := true; resPosition := (newX, newY) |})
      else
        let s1 :=
          match a with
          | Wait =>
              with_place s (position s) (path s)
                (qmin (maxEnergy s) (energy s + (5 # 10)))
          | Rest =>
              with_place s (position s) (path s)
                (qmin (maxEnergy s) (energy s + 5))
          | UseItem => useItem s
          | _ => s
          end in
        Some (with_agentState ag s1,
              {| success := false; resPosition := (x, y) |})
  end.

(** [storeExperience(state, action, reward, nextState, terminal)] *)
Definition storeExperience (ag : agent) (st : list Q) (a : action)
  (reward : Q) (nextState : list Q) (terminal : bool) : agent :=
  let experience :=
    {| expState := st; expAction := indexOf a; expReward := reward;
       expNextState := nextState; expTerminal := terminal |} in
  let mem := memory ag ++ [experience] in
  with_memory ag
    (if (memorySize ag <? length mem)%nat then tail mem else mem).

(** the loop [for (i < len) q += w[i] * state[i]], [len] the shorter
    length *)
Fixpoint dotFrom (q : Q) (w st : list Q) : Q :=
  match w, st with
  | wi :: w', si :: st' => dotFrom (q + wi * si) w' st'
  | _, _ => q
  end.

(** [forwardPass(state, actionIndex)]; the second component is the
    cursor into the random stream after the call *)
Definition forwardPass (rnd : nat -> Q) (ag : agent) (st : list Q)
  (actionIndex : Z) (cur : nat) : Q * nat :=
  let q := default 0 (at_ (biases (head ag)) actionIndex) in
  let q :=
    match at_ (weights (head ag)) actionIndex with
    | Some w => dotFrom q w st
    | None => q
    end in
  if isTraining ag
  then (q + (Rand.random rnd cur - (5 # 10)) * epsilon ag * (5 # 100), S cur)
  else (q, cur).

(** the loop [w[i] += lr * error * state[i]] *)
Fixpoint stepRow (lr error : Q) (w st : list Q) : list Q :=
  match w, st with
  | wi :: w', si :: st' => (wi + lr * error * si) :: stepRow lr error w' st'
  | _, _ => w
  end.

(** [updateWeights(state, actionIndex, error)]: [None] is the TypeError
    of reading [length] of a weight row that does not exist.  A bias
    outside the typed array is not stored.  Here the arithmetic is
    exact; [LinearHead] follows the same update on doubles. *)
Definition updateWeights (ag : agent) (st : list Q) (actionIndex : Z)
  (error : Q) : option agent :=
  let lr := learningRate ag in
  match at_ (weights (head ag)) actionIndex with
  | None => None
  | Some w =>
      let i := Z.to_nat actionIndex in
      Some (with_head ag
              {| weights := <[i := stepRow lr error w st]> (weights (head ag));
                 biases :=
                   match biases (head ag) !! i with
                   | Some b => <[i := b + lr * error]> (biases (head ag))
                   | None => biases (head ag)
                   end |})
  end.

(** the loop over all actions for the greatest value of the next state;
    [None] is [-Infinity] *)
Fixpoint maxNext (rnd : nat -> Q) (ag : agent) (nextState : list Q)
  (idxs : list Z) (best : option Q) (cur : nat) : option Q * nat :=
  match idxs with
  | [] => (best, cur)
  | a :: rest =>
      let '(nextQ, cur1) := forwardPass rnd ag nextState a cur in
      maxNext rnd ag nextState rest
        (Some (match best with
               | None => nextQ
               | Some b => qmax b nextQ
               end)) cur1
  end.

(** the indices [0 .. this.actions.length - 1] *)
Definition actionIndices : list Z :=
  map Z.of_nat (seq 0 (length actions)).

(** the body of [batch.forEach]: one sampled experience.  It answers
    the agent, the squared error, and the cursor. *)
Definition trainOne (rnd : nat -> Q) (ag : agent) (e : experience)
  (cur : nat) : option (agent * Q * nat) :=
  let '(currentQ, cur1) := forwardPass rnd ag (expState e) (expAction e) cur in
  let '(targetQ, cur2) :=
    if expTerminal e then (expReward e, cur1)
    else
      let '(best, cur2) :=
        maxNext rnd ag (expNextState e) actionIndices None cur1 in
      (expReward e + gamma ag * default 0 best, cur2) in
  let loss := (targetQ - currentQ) * (targetQ - currentQ) in
  match updateWeights ag (expState e) (expAction e) (targetQ - currentQ) with
  | None => None
  | Some ag1 => Some (ag1, loss, cur2)
  end.

Fixpoint trainAll (rnd : nat -> Q) (ag : agent) (batch : list experience)
  (totalLoss : Q) (cur : nat) : option (agent * Q * nat) :=
  match batch with
  | [] => Some (ag, totalLoss, cur)
  | e :: rest =>
      match trainOne rnd ag e cur with
      | None => None
      | Some (ag1, loss, cur1) => trainAll rnd ag1 rest (totalLoss + loss) cur1
      end
  end.

(** the sampling loop: [batchSize] draws with replacement.  [None] is
    the TypeError of taking apart an experience that is not there. *)
Fixpoint sample (rnd : nat -> Q) (mem : list experience) (n : nat)
  (cur : nat) : option (list experience) :=
  match n with
  | O => Some []
  | S k =>
      match mem !! Rand.randomIndex rnd cur (length mem),
            sample rnd mem k (S cur) with
      | Some e, Some es => Some (e :: es)
      | _, _ => None
      end
  end.

(** [trainOnBatch()], reading the random stream from [cur] on *)
Definition trainOnBatch (rnd : nat -> Q) (ag : agent) (cur : nat)
  : option (agent * nat) :=
  if (length (memory ag) <? batchSize ag)%nat then Some (ag, cur)
  else
    match sample rnd (memory ag) (batchSize ag) cur with
    | None => None
    | Some batch =>
        match trainAll rnd ag batch 0 (cur + batchSize ag)%nat with
        | None => None
        | Some (ag1, totalLoss, cur1) =>
            let eps :=
              if Qlt_le_dec (epsilonMin ag1) (epsilon ag1)
              then epsilon ag1 * epsilonDecay ag1
              else epsilon ag1 in
            Some (with_schedule ag1 eps
                    (lossHistory ag1
                     ++ [totalLoss / inject_Z (Z.of_nat (batchSize ag1))])
                    (explorationHistory ag1 ++ [eps]),
                  cur1)
        end
    end.

(** the arguments of one call of [storeExperience] *)
Record transition : Type := {
  trState : list Q;
  trAction : action;
  trReward : Q;
  trNextState : list Q;
  trTerminal : bool
}.

(** the record [storeExperience] builds from its arguments *)
Definition toExperience (t : transition) : experience :=
  {| expState := trState t; expAction := indexOf (trAction t);
     expReward := trReward t; expNextState := trNextState t;
     expTerminal := trTerminal t |}.

(** [storeExperience] called on each transition in turn *)
Fixpoint storeAll (ag : agent) (ts : list transition) : agent :=
  match ts with
  | [] => ag
  | t :: rest =>
      storeAll
        (storeExperience ag (trState t) (trAction t) (trReward t)
           (trNextState t) (trTerminal t))
        rest
  end.

End Neural.

(** ** The linear head on doubles

    The gradient update of the linear head is where the rounding of
    doubles decides what the code does: a step smaller than half the
    gap between two neighbouring doubles leaves a bias where it was.
    This part follows the code's arithmetic on IEEE 754 binary64
    values, operation by operation. *)

Module Doubles.

(** a JavaScript number: binary64, 53 bits of precision, results
    rounded to nearest, ties to even *)
Definition double : Type := SpecFloat.spec_float.

Definition add : double -> double -> double := SpecFloat.SFadd 53 1024.
Definition sub : double -> double -> double := SpecFloat.SFsub 53 1024.
Definition mul : double -> double -> double := SpecFloat.SFmul 53 1024.
Definition div : double -> double -> double := SpecFloat.SFdiv 53 1024.

(** [a < b] *)
Definition lt (a b : double) : bool := SpecFloat.SFltb a b.

(** the double of an integer *)
Definition ofZ (z : Z) : double :=
  SpecFloat.binary_normalize 53 1024 z 0 false.

Definition zero : double := SpecFloat.S754_zero false.
Definition negInfinity : double := SpecFloat.S754_infinity true.

(** the literals [0.5] and [0.05]: the doubles nearest to 1/2 and to
    5/100 *)
Definition half : double :=
  SpecFloat.S754_finite false 4503599627370496 (-53).
Definition twentieth : double :=
  SpecFloat.S754_finite false 7205759403792794 (-57).

(** [x || 0] for a number or [undefined]: NaN and both zeros are
    falsy *)
Definition orZero (x : option double) : double :=
  match x with
  | Some (SpecFloat.S754_finite s m e) => SpecFloat.S754_finite s m e
  | Some (SpecFloat.S754_infinity s) => SpecFloat.S754_infinity s
  | _ => zero
  end.

(** [Math.max(a, b)]: NaN if either is, and [+0] above [-0] *)
Definition max2 (a b : double) : double :=
  match a, b with
  | SpecFloat.S754_nan, _ | _, SpecFloat.S754_nan => SpecFloat.S754_nan
  | SpecFloat.S754_zero true, SpecFloat.S754_zero _ => b
  | _, _ => if lt a b then b else a
  end.

End Doubles.

Module LinearHead.
Import Grid Doubles.

(** an experience of the replay buffer, as [trainOnBatch] takes it
    apart *)
Record experience : Type := {
  expState : list double;
  expAction : Z;
  expReward : double;
  expNextState : list double;
  expTerminal : bool
}.

(** [linearHead]: one [Float64Array] of weights per action, and the
    [Float64Array] of biases *)
Record linearHead : Type := {
  weights : list (list double);
  biases : list double
}.

(** the fields of the agent that [trainOnBatch] reads or writes, but
    for [lossHistory] *)
Record agent : Type := {
  learningRate : double;
  gamma : double;
  epsilon : double;
  epsilonDecay : double;
  epsilonMin : double;
  isTraining : bool;
  batchSize : nat;
  memory : list experience;
  head : linearHead;
  explorationHistory : list double
}.

Definition with_head (ag : agent) (h : linearHead) : agent :=
  {| learningRate := learningRate ag; gamma := gamma ag;
     epsilon := epsilon ag; epsilonDecay := epsilonDecay ag;
     epsilonMin := epsilonMin ag; isTraining := isTraining ag;
     batchSize := batchSize ag; memory := memory ag; head := h;
     explorationHistory := explorationHistory ag |}.

(** the end of [trainOnBatch]: epsilon decayed and pushed *)
Definition with_schedule (ag : agent) (eps : double) (expl : list double)
  : agent :=
  {| learningRate := learningRate ag; gamma := gamma ag;
     epsilon := eps; epsilonDecay := epsilonDecay ag;
     epsilonMin := epsilonMin ag; isTraining := isTraining ag;
     batchSize := batchSize ag; memory := memory ag; head := head ag;
     explorationHistory := expl |}.

(** the loop [for (i < len) q += w[i] * state[i]], [len] the shorter
    length *)
Fixpoint dotFrom (q : double) (w st : list double) : double :=
  match w, st with
  | wi :: w', si :: st' => dotFrom (add q (mul wi si)) w' st'
  | _, _ => q
  end.

(** [forwardPass(state, actionIndex)], reading [Math.random()] from
    the stream [rnd] at the cursor; the second component is the cursor
    after the call *)
Definition forwardPass (rnd : nat -> double) (ag : agent) (st : list double)
  (actionIndex : Z) (cur : nat) : double * nat :=
  let q := orZero (at_ (biases (head ag)) actionIndex) in
  let q :=
    match at_ (weights (head ag)) actionIndex with
    | Some w => dotFrom q w st
    | None => q
    end in
  if isTraining ag
  then (add q (mul (mul (sub (rnd cur) half) (epsilon ag)) twentieth), S cur)
  else (q, cur).

(** the loop [w[i] += lr * error * state[i]] *)
Fixpoint stepRow (lr error : double) (w st : list double) : list double :=
  match w, st with
  | wi :: w', si :: st' =>
      add wi (mul (mul lr error) si) :: stepRow lr error w' st'
  | _, _ => w
  end.

(** [updateWeights(state, actionIndex, error)]: [None] is the TypeError
    of reading [length] of a weight row that does not exist.  A bias
    outside the typed array is not stored. *)
Definition updateWeights (ag : agent) (st : list double) (actionIndex : Z)
  (error : double) : option agent :=
  let lr := learningRate ag in
  match at_ (weights (head ag)) actionIndex with
  | None => None
  | Some w =>
      let i := Z.to_nat actionIndex in
      Some (with_head ag
              {| weights := <[i := stepRow lr error w st]> (weights (head ag));
                 biases :=
                   match biases (head ag) !! i with
                   | Some b => <[i := add b (mul lr error)]> (biases (head ag))
                   | None => biases (head ag)
                   end |})
  end.

(** the loop [maxNextQ = Math.max(maxNextQ, forwardPass(nextState, a))]
    over the action indices *)
Fixpoint maxNext (rnd : nat -> double) (ag : agent) (nextState : list double)
  (idxs : list Z) (best : double) (cur : nat) : double * nat :=
  match idxs with
  | [] => (best, cur)
  | a :: rest =>
      let '(nextQ, cur1) := forwardPass rnd ag nextState a cur in
      maxNext rnd ag nextState rest (max2 best nextQ) cur1
  end.

(** [targetQ] of one experience: the reward, plus for an experience
    that is not terminal [gamma] times the greatest value of the next
    state *)
Definition targetQ (rnd : nat -> double) (ag : agent) (e : experience)
  (cur : nat) : double * nat :=
  if expTerminal e then (expReward e, cur)
  else
    let '(maxNextQ, cur1) :=
      maxNext rnd ag (expNextState e) Neural.actionIndices negInfinity cur in
    (add (expReward e) (mul (gamma ag) maxNextQ), cur1).

(** the body of [batch.forEach]: one sampled experience.  The loss
    [Math.pow(targetQ - currentQ, 2)], which only [lossHistory]
    receives, is left out. *)
Definition trainOne (rnd : nat -> double) (ag : agent) (e : experience)
  (cur : nat) : option (agent * nat) :=
  let '(currentQ, cur1) := forwardPass rnd ag (expState e) (expAction e) cur in
  let '(target, cur2) := targetQ rnd ag e cur1 in
  match updateWeights ag (expState e) (expAction e) (sub target currentQ) with
  | None => None
  | Some ag1 => Some (ag1, cur2)
  end.

(** [batch.forEach(...)] *)
Fixpoint trainAll (rnd : nat -> double) (ag : agent) (batch : list experience)
  (cur : nat) : option (agent * nat) :=
  match batch with
  | [] => Some (ag, cur)
  | e :: rest =>
      match trainOne rnd ag e cur with
      | None => None
      | Some (ag1, cur1) => trainAll rnd ag1 rest cur1
      end
  end.

(** [Math.floor(x)] used as an index of an array: [None] when it is
    none (NaN, an infinity, a negative number) *)
Definition floorIndex (x : double) : option nat :=
  match x with
  | SpecFloat.S754_zero _ => Some 0%nat
  | SpecFloat.S754_finite false m e =>
      Some (Z.to_nat (if (0 <=? e)%Z then (Z.pos m * 2 ^ e)%Z
                      else Z.shiftr (Z.pos m) (- e)))
  | _ => None
  end.

(** the sampling loop: [batchSize] draws with replacement, each
    [memory[Math.floor(Math.random() * memory.length)]].  [None] is the
    TypeError of taking apart an experience that is not there. *)
Fixpoint sample (rnd : nat -> double) (mem : list experience) (n : nat)
  (cur : nat) : option (list experience) :=
  match n with
  | O => Some []
  | S k =>
      match floorIndex (mul (rnd cur) (ofZ (Z.of_nat (length mem)))) with
      | None => None
      | Some i =>
          match mem !! i, sample rnd mem k (S cur) with
          | Some e, Some es => Some (e :: es)
          | _, _ => None
          end
      end
  end.

(** [trainOnBatch()], reading the random stream from [cur] on *)
Definition trainOnBatch (rnd : nat -> double) (ag : agent) (cur : nat)
  : option (agent * nat) :=
  if (length (memory ag) <? batchSize ag)%nat then Some (ag, cur)
  else
    match sample rnd (memory ag) (batchSize ag) cur with
    | None => None
    | Some batch =>
        match trainAll rnd ag batch (cur + batchSize ag)%nat with
        | None => None
        | Some (ag1, cur1) =>
            let eps :=
              if lt (epsilonMin ag1) (epsilon ag1)
              then mul (epsilon ag1) (epsilonDecay ag1)
              else epsilon ag1 in
            Some (with_schedule ag1 eps (explorationHistory ag1 ++ [eps]),
                  cur1)
        end
    end.

End LinearHead.

(** ** AutoEpsilonScheduler *)

Module Scheduler.
Import Grid Enhanced.

Record episode : Type := {
  win : bool;
  epMoves : Z;
  epReward : Q
}.

Record scheduler : Type := {
  schedMode : gameMode;
  mazeSize : Z;
  window : Z;
  history : list episode;
  targetEnd : Q;
  minDecay : Q;
  maxDecay : Q
}.

(** the three fields of an agent the scheduler reads and writes.  The
    source falls back to defaults when a field is not a number; the
    three policies all carry numbers there. *)
Record tunable : Type := {
  epsilon : Q;
  epsilonMin : Q;
  epsilonDecay : Q
}.

(** [getTargetEnd(mode)] *)
Definition getTargetEnd (m : gameMode) : Q :=
  match m with
  | Fog => 1 # 10
  | DynamicMode | Competitive | Survival => 8 # 100
  | Classic | Procedural => 5 # 100
  end.

(** [new AutoEpsilonScheduler({gameMode, mazeSize})] *)
Definition create (m : gameMode) (size : Z) : scheduler :=
  {| schedMode := m; mazeSize := size; window := 20; history := [];
     targetEnd := getTargetEnd m;
     minDecay := 9 # 10; maxDecay := 9999 # 10000 |}.

(** [applyInitialDefaults()]: the start, the end and the decay it
    seeds *)
Definition applyInitialDefaults (s : scheduler) : Q * Q * Q :=
  let isTiny := (mazeSize s <=? 21)%Z in
  match schedMode s with
  | Fog => (95 # 100, 1 # 10, 98 # 100)
  | Classic =>
      if isTiny then (6 # 10, 5 # 100, 97 # 100)
      else (8 # 10, 5 # 100, 99 # 100)
  | _ => (85 # 100, 8 # 100, 992 # 1000)
  end.

(** [recordEpisode(ep)] *)
Definition recordEpisode (s : scheduler) (ep : episode) : scheduler :=
  let h := history s ++ [ep] in
  {| schedMode := schedMode s; mazeSize := mazeSize s; window := window s;
     history := if (window s <? Z.of_nat (length h))%Z then tail h else h;
     targetEnd := targetEnd s;
     minDecay := minDecay s; maxDecay := maxDecay s |}.

(** the success rate of [stats()]: wins over [h.length || 1] *)
Definition success (s : scheduler) : Q :=
  let h := history s in
  let n := if (length h =? 0)%nat then 1%Z else Z.of_nat (length h) in
  let wins := Z.of_nat (length (filter (fun x => win x = true) h)) in
  inject_Z wins / inject_Z n.

(** [clampDecay(d)] *)
Definition clampDecay (s : scheduler) (d : Q) : Q :=
  qmin (maxDecay s) (qmax (minDecay s) d).

(** [onEpisodeEnd(agent, epSummary)]: the scheduler and the agent as
    the call leaves them *)
Definition onEpisodeEnd (s : scheduler) (agent : tunable) (ep : episode)
  : scheduler * tunable :=
  let s := recordEpisode s ep in
  let succ := success s in
  let eps := epsilon agent in
  let epsMin := epsilonMin agent in
  let decay := epsilonDecay agent in
  let enough := leb (inject_Z (window s) / 2) (inject_Z (Z.of_nat (length (history s)))) in
  let '(decay, epsNow) :=
    if leb (8 # 10) succ && enough
    then (clampDecay s (decay * (97 # 100)), qmax epsMin (eps * (9 # 10)))
    else (decay, epsilon agent) in
  let '(decay, epsNow) :=
    if leb succ (1 # 10) && enough
    then
      let bump := match schedMode s with Fog => 5 # 100 | _ => 1 # 10 end in
      (clampDecay s ((decay + 1) / 2), qmin (95 # 100) (eps + bump))
    else (decay, epsNow) in
  (s,
   {| epsilon := epsNow;
      epsilonMin := qmin epsNow (qmax (1 # 100) (targetEnd s));
      epsilonDecay := clampDecay s decay |}).

(** the window and the two clamp bounds as the constructor sets them *)
Definition configured (s : scheduler) : Prop :=
  window s = 20%Z /\ minDecay s = 9 # 10 /\ maxDecay s = 9999 # 10000.

(** an episode won, an episode lost *)
Definition won (ep : episode) : Prop := win ep = true.

(** a run of episodes, each fed to [onEpisodeEnd] in turn *)
Fixpoint run (s : scheduler) (agent : tunable) (eps : list episode)
  : scheduler * tunable :=
  match eps with
  | [] => (s, agent)
  | ep :: rest =>
      let '(s1, agent1) := onEpisodeEnd s agent ep in
      run s1 agent1 rest
  end.

End Scheduler.

(** ** FastMazeSolver: the A* path oracle *)

Module FastMazeSolver.
Import Grid.

#[local] Set Warnings "-register-all".

Inductive node : Type :=
| Node (pos : cell) (g h f : Z) (parent : option node).

Definition nodePos (n : node) : cell := let 'Node p _ _ _ _ := n in p.
Definition nodeG (n : node) : Z := let 'Node _ g _ _ _ := n in g.
Definition nodeF (n : node) : Z := let 'Node _ _ _ f _ := n in f.

(** [heuristic(pos1, pos2)] *)
Definition heuristic (a b : cell) : Z := manhattan a b.

(** [openSet.sort((a, b) => a.f - b.f)]: a stable sort on [f] *)
Fixpoint insertByF (n : node) (l : list node) : list node :=
  match l with
  | [] => [n]
  | x :: rest =>
      if (nodeF n <=? nodeF x)%Z then n :: l else x :: insertByF n rest
  end.

Definition sortByF (l : list node) : list node := foldr insertByF [] l.

(** [reconstructPath(node)]: the positions from the root down *)
Fixpoint reconstructPath (n : node) : list cell :=
  match n with
  | Node p _ _ _ None => [p]
  | Node p _ _ _ (Some parent) => reconstructPath parent ++ [p]
  end.

(** the neighbours loop of one expansion: the open set and the map of
    best known costs after it *)
Fixpoint expand (m : maze) (goal : cell) (closed : gset (Z * Z))
  (current : node) (dirs : list (Z * Z))
  (openSet : list node) (seen : gmap (Z * Z) Z)
  : list node * gmap (Z * Z) Z :=
  match dirs with
  | [] => (openSet, seen)
  | (dx, dy) :: rest =>
      let newX := ((nodePos current).1 + dx)%Z in
      let newY := ((nodePos current).2 + dy)%Z in
      let rows := Z.of_nat (length m) in
      let cols := Z.of_nat (length (default [] (head m))) in
      if (0 <=? newX)%Z && (newX <? rows)%Z
         && (0 <=? newY)%Z && (newY <? cols)%Z
         && default false (cellIsZero m newX newY)
         && negb (bool_decide ((newX, newY) ∈ closed))
      then
        let g := (nodeG current + 1)%Z in
        let h := heuristic (newX, newY) goal in
        let better :=
          match seen !! (newX, newY) with
          | None => true
          | Some g0 => (g <? g0)%Z
          end in
        if better
        then expand m goal closed current rest
               (openSet ++ [Node (newX, newY) g h (g + h) (Some current)])
               (<[(newX, newY) := g]> seen)
        else expand m goal closed current rest openSet seen
      else expand m goal closed current rest openSet seen
  end.

(** the [while (openSet.length > 0)] loop, for at most [fuel] turns.
    The outer [None] is the fuel running out; [Some None] is the
    source's [null], no route. *)
Fixpoint search (fuel : nat) (m : maze) (goal : cell)
  (openSet : list node) (closed : gset (Z * Z)) (seen : gmap (Z * Z) Z)
  : option (option (list cell)) :=
  match fuel with
  | O => None
  | S k =>
      match sortByF openSet with
      | [] => Some None
      | current :: rest =>
          if bool_decide (nodePos current ∈ closed)
          then search k m goal rest closed seen
          else
            let closed1 := {[ nodePos current ]} ∪ closed in
            if ((nodePos current).1 =? goal.1)%Z
               && ((nodePos current).2 =? goal.2)%Z
            then Some (Some (reconstructPath current))
            else
              let '(open1, seen1) :=
                expand m goal closed1 current actions rest seen in
              search k m goal open1 closed1 seen1
      end
  end.

(** [solveMazeAStar(maze, start)] with the default goal, the cell
    before the last of the last row but one *)
Definition solveMazeAStar (fuel : nat) (m : maze) (start : cell)
  : option (option (list cell)) :=
  let goal := ((Z.of_nat (length m) - 2)%Z,
               (Z.of_nat (length (default [] (head m))) - 2)%Z) in
  let h := heuristic start goal in
  search fuel m goal [Node start 0 h h None] ∅ ∅.

(** the turns given to [search]: a turn either drops an entry of the
    open set or closes a cell and adds at most four entries, hence five
    turns a cell and two to spare *)
Definition enoughFuel (m : maze) : nat :=
  (5 * (length m * length (default [] (head m))) + 2)%nat.

(** the oracle as the agent holds it: a route or [null]; a search that
    used up its turns counts as [null] *)
Definition oracle (m : maze) (start : cell) : option (list cell) :=
  default None (solveMazeAStar (enoughFuel m) m start).

(** [isValidMove(maze, x, y)], the test every search applies to the
    cell it is about to enter *)
Definition isValidMove (m : maze) (x y : Z) : bool :=
  (0 <=? x)%Z && (x <? Z.of_nat (length m))%Z
  && (0 <=? y)%Z && (y <? Z.of_nat (length (default [] (head m))))%Z
  && default false (cellIsZero m x y).

(** the goal the searches take when none is given *)
Definition defaultGoal (m : maze) : cell :=
  ((Z.of_nat (length m) - 2)%Z,
   (Z.of_nat (length (default [] (head m))) - 2)%Z).

(** [b] is one of the four [directions] away from [a] *)
Definition adjacent (a b : cell) : bool :=
  existsb (fun d : Z * Z => (b.1 =? a.1 + d.1)%Z && (b.2 =? a.2 + d.2)%Z)
    actions.

(** a walk from [a] through [rest]: every cell is next to the one
    before it and may be entered *)
Fixpoint walk (m : maze) (a : cell) (rest : list cell) : bool :=
  match rest with
  | [] => true
  | b :: rest' => adjacent a b && isValidMove m b.1 b.2 && walk m b rest'
  end.

(** a route from [start] to [goal]: a walk that begins on the one and
    ends on the other *)
Definition route (m : maze) (start goal : cell) (p : list cell) : bool :=
  match p with
  | [] => false
  | a :: rest =>
      bool_decide (a = start) && walk m a rest
      && bool_decide (last p = Some goal)
  end.

(** a cell inside the grid of [maze.length] rows and [maze[0].length]
    columns *)
Definition inGrid (m : maze) (p : cell) : bool :=
  (0 <=? p.1)%Z && (p.1 <? Z.of_nat (length m))%Z
  && (0 <=? p.2)%Z && (p.2 <? Z.of_nat (length (default [] (head m))))%Z.

(** all the cells of the grid *)
Definition gridCells (m : maze) : list cell :=
  map (fun xy : nat * nat => (Z.of_nat xy.1, Z.of_nat xy.2))
    (list_prod (seq 0 (length m)) (seq 0 (length (default [] (head m))))).

(** how many cells of the grid the search has not closed yet *)
Definition unclosed (m : maze) (closed : gset (Z * Z)) : nat :=
  length (filter (fun c => c ∉ closed) (gridCells m)).

(** a node of the search as the loop builds them: the chain of parents
    leads back to [start] by steps onto valid cells, [g] counts the
    steps and [f] is [g] plus the heuristic *)
Fixpoint wellFormed (m : maze) (start goal : cell) (n : node) : Prop :=
  match n with
  | Node p g _ f None =>
      p = start /\ g = 0%Z /\ f = (g + heuristic p goal)%Z
  | Node p g _ f (Some q) =>
      wellFormed m start goal q
      /\ adjacent (nodePos q) p = true /\ isValidMove m p.1 p.2 = true
      /\ g = (nodeG q + 1)%Z /\ f = (g + heuristic p goal)%Z
  end.

(** the cell [v] is closed, or waits in the open set at a cost of at
    most [b] *)
Definition bounded (closed : gset (Z * Z)) (openSet : list node) (v : cell)
  (b : Z) : Prop :=
  v ∈ closed \/ Exists (fun n => nodePos n = v /\ (nodeG n <= b)%Z) openSet.

(** what every turn of the loop keeps: the start is accounted for, the
    open nodes are well formed, every valid neighbour of a closed cell
    is accounted for at one step more than any route to that cell, and
    so is every cell of the map of best known costs *)
Definition invariant (m : maze) (start goal : cell) (openSet : list node)
  (closed : gset (Z * Z)) (seen : gmap (Z * Z) Z) : Prop :=
  bounded closed openSet start 0
  /\ Forall (wellFormed m start goal) openSet
  /\ (forall (c v : cell) (r : list cell),
        c ∈ closed -> adjacent c v = true -> isValidMove m v.1 v.2 = true ->
        route m start c r = true ->
        bounded closed openSet v (Z.of_nat (length r)))
  /\ (forall v g0, seen !! v = Some g0 -> bounded closed openSet v g0).

End FastMazeSolver.

(** ** The trail of the hybrid agent *)

Module Trail.
Import Grid.

(** the cell holds 0 *)
Definition open (m : maze) (c : cell) : bool :=
  default false (cellIsZero m c.1 c.2).

(** from [a] through [rest], every cell is next to the one before it
    and open *)
Fixpoint steps (m : maze) (a : cell) (rest : list cell) : bool :=
  match rest with
  | [] => true
  | b :: rest' => FastMazeSolver.adjacent a b && open m b && steps m b rest'
  end.

(** what [path], [position] and [moves] keep during an episode *)
Definition tracked (m : maze) (ag : Hybrid.agent) : Prop :=
  exists rest,
    Hybrid.path ag = (1, 1)%Z :: rest
    /\ last (Hybrid.path ag) = Some (Hybrid.position ag)
    /\ Hybrid.moves ag = Z.of_nat (length rest)
    /\ steps m (1, 1)%Z rest = true.

(** the stored route, once the agent has taken a step along it: it
    came from the oracle, the agent stands on the cell the count of
    steps points at, and the strategy is pathfinding *)
Definition following (m : maze) (ag : Hybrid.agent) : Prop :=
  Hybrid.solutionSteps ag = 0%Z
  \/ Hybrid.knownSolution ag = None
  \/ exists a rest,
       Hybrid.knownSolution ag = Some (a :: rest)
       /\ Hybrid.selectStrategy ag m = Hybrid.Pathfinding
       /\ (0 < Hybrid.solutionSteps ag)%Z
       /\ (a :: rest) !! Z.to_nat (Hybrid.solutionSteps ag)
          = Some (Hybrid.position ag)
       /\ FastMazeSolver.walk m a rest = true.

(** how many of the moves were answered as valid *)
Definition validMoves (rs : list Hybrid.moveResult) : nat :=
  length (filter (fun r => Hybrid.resIsValid r = true) rs).

End Trail.

(** ** Concrete mazes, agents and transitions *)

Module Examples.
Import Grid.

(** a survival-mode agent one step left of the goal of a 31x31 maze,
    a thousand moves into the episode *)
Definition lateArrival : Enhanced.state :=
  {| Enhanced.mode := Enhanced.Survival;
     Enhanced.width := 31; Enhanced.height := 31;
     Enhanced.position := (29, 28)%Z; Enhanced.path := [(1, 1)%Z];
     Enhanced.moves := 1000;
     Enhanced.health := 100; Enhanced.maxHealth := 100;
     Enhanced.energy := 100; Enhanced.maxEnergy := 100;
     Enhanced.score := 0; Enhanced.inventory := [];
     Enhanced.keys := ∅; Enhanced.abilities := {[ "move"%string ]};
     Enhanced.powerups := ∅; Enhanced.exploredCells := ∅;
     Enhanced.timeAlive := 1000; Enhanced.stepsWithoutProgress := 0;
     Enhanced.primaryGoal := (29, 29)%Z |}.

Definition noEvents : Enhanced.gameEvents :=
  {| Enhanced.adaptedToChange := false; Enhanced.caughtByMovingWall := false;
     Enhanced.foundFood := false; Enhanced.foundKey := false;
     Enhanced.hitTrap := false; Enhanced.collectibleTaken := false;
     Enhanced.blockedOtherAgent := false; Enhanced.wasBlocked := false |}.

Definition trapEvent : Enhanced.gameEvents :=
  {| Enhanced.adaptedToChange := false; Enhanced.caughtByMovingWall := false;
     Enhanced.foundFood := false; Enhanced.foundKey := false;
     Enhanced.hitTrap := true; Enhanced.collectibleTaken := false;
     Enhanced.blockedOtherAgent := false; Enhanced.wasBlocked := false |}.

(** the same agent in the middle of the maze with one unit of energy *)
Definition lastBreath : Enhanced.state :=
  {| Enhanced.mode := Enhanced.Survival;
     Enhanced.width := 31; Enhanced.height := 31;
     Enhanced.position := (5, 5)%Z; Enhanced.path := [(1, 1)%Z];
     Enhanced.moves := 40;
     Enhanced.health := 100; Enhanced.maxHealth := 100;
     Enhanced.energy := 1; Enhanced.maxEnergy := 100;
     Enhanced.score := 0; Enhanced.inventory := [];
     Enhanced.keys := ∅; Enhanced.abilities := {[ "move"%string ]};
     Enhanced.powerups := ∅; Enhanced.exploredCells := ∅;
     Enhanced.timeAlive := 40; Enhanced.stepsWithoutProgress := 0;
     Enhanced.primaryGoal := (29, 29)%Z |}.

(** a 5x5 grid whose start cell (1,1) has no open neighbour *)
Definition walledStart : maze :=
  [[1; 1; 1; 1; 1];
   [1; 0; 1; 0; 1];
   [1; 1; 1; 1; 1];
   [1; 0; 0; 0; 1];
   [1; 1; 1; 1; 1]]%Z.

(** a 5x5 grid with an open ring around a central wall *)
Definition ring : maze :=
  [[1; 1; 1; 1; 1];
   [1; 0; 0; 0; 1];
   [1; 0; 1; 0; 1];
   [1; 0; 0; 0; 1];
   [1; 1; 1; 1; 1]]%Z.

Definition defaults : QLearning.options :=
  {| QLearning.optEpsilon := None; QLearning.optEpsilonDecay := None;
     QLearning.optEpsilonMin := None; QLearning.optGamma := None;
     QLearning.optLearningRate := None |}.

(** [new QLearningAgent(5, 5)] *)
Definition tabular5 : QLearning.agent := QLearning.create 5 5 defaults.

(** [new QLearningAgent(21, 21, {epsilon: 0.6, epsilonDecay: 0.975,
    epsilonMin: 0.05})] *)
Definition tabular21 : QLearning.agent :=
  QLearning.create 21 21
    {| QLearning.optEpsilon := Some (6 # 10);
       QLearning.optEpsilonDecay := Some (975 # 1000);
       QLearning.optEpsilonMin := Some (5 # 100);
       QLearning.optGamma := None; QLearning.optLearningRate := None |}.

(** an 11x11 room: open inside its border walls *)
Definition room : maze :=
  replicate 11 1%Z
  :: replicate 9 (1%Z :: replicate 9 0%Z ++ [1%Z]) ++ [replicate 11 1%Z].

(** [new QLearningAgent(11, 11)] *)
Definition tabular11 : QLearning.agent := QLearning.create 11 11 defaults.

(** a vertical moving wall of three cells from (2,2) and a rotating
    section of radius 2 around (5,5), turned once, in an 11x11 arena *)
Definition movingParts : Dynamic.elements :=
  {| Dynamic.width := 11; Dynamic.height := 11; Dynamic.time := 0;
     Dynamic.movingWalls :=
       [{| Dynamic.wallPosition := (2, 2)%Z; Dynamic.wallDirection := 1;
           Dynamic.wallSpeed := 3; Dynamic.wallLastMove := 0;
           Dynamic.wallLength := 3 |}];
     Dynamic.rotatingSections :=
       [{| Dynamic.center := (5, 5)%Z; Dynamic.radius := 2;
           Dynamic.rotationSpeed := 8; Dynamic.lastRotation := 0;
           Dynamic.angle := 90 |}];
     Dynamic.temporaryWalls := ∅ |}.

(** a linear agent one step below the start of [room], the moving wall
    of [movingParts] to its right, with [energy] left *)
Definition linearState (energy : Q) : Enhanced.state :=
  {| Enhanced.mode := Enhanced.DynamicMode;
     Enhanced.width := 11; Enhanced.height := 11;
     Enhanced.position := (2, 1)%Z; Enhanced.path := [(1, 1)%Z; (2, 1)%Z];
     Enhanced.moves := 1;
     Enhanced.health := 100; Enhanced.maxHealth := 100;
     Enhanced.energy := energy; Enhanced.maxEnergy := 100;
     Enhanced.score := 0; Enhanced.inventory := [];
     Enhanced.keys := ∅; Enhanced.abilities := {[ "move"%string ]};
     Enhanced.powerups := ∅; Enhanced.exploredCells := ∅;
     Enhanced.timeAlive := 1; Enhanced.stepsWithoutProgress := 0;
     Enhanced.primaryGoal := (9, 9)%Z |}.

(** a linear head of [n] actions with [k] weights each, all zero but
    the bias of action 0 *)
Definition flatHead (n k : nat) (bias0 : Q) : Neural.linearHead :=
  {| Neural.weights := replicate n (replicate k 0);
     Neural.biases := bias0 :: replicate (n - 1) 0 |}.

Definition linearAgent (energy : Q) (capacity : nat)
  (mem : list Neural.experience) (lr bias0 : Q) : Neural.agent :=
  {| Neural.width := 11; Neural.height := 11;
     Neural.agentState := linearState energy;
     Neural.dynamicElements := movingParts;
     Neural.learningRate := lr;
     Neural.epsilon := 85 # 100; Neural.epsilonStart := 85 # 100;
     Neural.epsilonDecay := 992 # 1000; Neural.epsilonMin := 1 # 100;
     Neural.gamma := 99 # 100;
     Neural.batchSize := 32;
     Neural.memory := mem; Neural.memorySize := capacity;
     Neural.head := flatHead 15 3 bias0;
     Neural.lossHistory := []; Neural.explorationHistory := [];
     Neural.isTraining := false; Neural.episode := 0;
     Neural.totalSteps := 0 |}.

(** a transition numbered by its reward *)
Definition numbered (r : Z) : Neural.transition :=
  {| Neural.trState := [0; 0; 0]; Neural.trAction := Enhanced.Move Enhanced.Up;
     Neural.trReward := inject_Z r; Neural.trNextState := [0; 0; 0];
     Neural.trTerminal := false |}.

(** a corridor of 3 rows and 335 columns, 1005 cells: the middle row is
    open between the border walls *)
Definition corridor : maze :=
  [replicate 335 1%Z; 1%Z :: replicate 333 0%Z ++ [1%Z]; replicate 335 1%Z].

Definition hybridDefaults : Hybrid.options :=
  {| Hybrid.optEpsilon := None; Hybrid.optEpsilonDecay := None;
     Hybrid.optEpsilonMin := None; Hybrid.optGamma := None;
     Hybrid.optLearningRate := None |}.

(** [new HybridMazeAgent(335, 3)] *)
Definition hybridOnCorridor : Hybrid.agent :=
  Hybrid.create FastMazeSolver.oracle 335 3 hybridDefaults.

(** [new HybridMazeAgent(5, 5)] *)
Definition hybridOnRing : Hybrid.agent :=
  Hybrid.create FastMazeSolver.oracle 5 5 hybridDefaults.

Definition wonEpisode : Scheduler.episode :=
  {| Scheduler.win := true; Scheduler.epMoves := 40;
     Scheduler.epReward := 100 |}.

Definition lostEpisode : Scheduler.episode :=
  {| Scheduler.win := false; Scheduler.epMoves := 441;
     Scheduler.epReward := -50 |}.

(** an agent with epsilon 0.1, floor 0.05 and decay 0.95 *)
Definition tuned : Scheduler.tunable :=
  {| Scheduler.epsilon := 1 # 10; Scheduler.epsilonMin := 5 # 100;
     Scheduler.epsilonDecay := 95 # 100 |}.

(** the scheduler of a classic 21x21 maze after twenty lost episodes *)
Definition afterLosses : Scheduler.scheduler :=
  (Scheduler.run (Scheduler.create Enhanced.Classic 21) tuned
     (replicate 20 lostEpisode)).1.



(** the callbacks the tabular agent hands to the planner *)
Definition plannerMoves (s : cell) (m : maze) : list nat :=
  default [] (QLearning.validActionsFromState tabular5 s m).

Definition plannerValue (s : cell) (m : maze) : Q :=
  inject_Z (- QLearning.manhattanToGoal tabular5 s).

(** a stream of draws: 0, 0.7, 0.4, 0.1, 0.8, ... *)
Definition draws (i : nat) : Q := inject_Z (Z.of_nat (i * 7 mod 10)) / 10.

End Examples.

(** * Properties *)

(** ** Rationals: [Math.min], [Math.max], comparisons *)

Section Rationals.
Import Grid.

Lemma qmax_l (a b : Q) : a <= qmax a b.
Proof. unfold qmax. destruct (Qlt_le_dec a b); lra. Qed.

Lemma qmax_r (a b : Q) : b <= qmax a b.
Proof. unfold qmax. destruct (Qlt_le_dec a b); lra. Qed.

Lemma qmax_lub (a b c : Q) : a <= c -> b <= c -> qmax a b <= c.
Proof. unfold qmax. destruct (Qlt_le_dec a b); lra. Qed.

Lemma qmin_l (a b : Q) : qmin a b <= a.
Proof. unfold qmin. destruct (Qlt_le_dec b a); lra. Qed.

Lemma qmin_r (a b : Q) : qmin a b <= b.
Proof. unfold qmin. destruct (Qlt_le_dec b a); lra. Qed.

Lemma qmin_glb (a b c : Q) : c <= a -> c <= b -> c <= qmin a b.
Proof. unfold qmin. destruct (Qlt_le_dec b a); lra. Qed.

Lemma leb_true (a b : Q) : Enhanced.leb a b = true <-> a <= b.
Proof.
  unfold Enhanced.leb. destruct (Qlt_le_dec b a); split; intros H;
    try discriminate; try reflexivity; try assumption. lra.
Qed.

Lemma leb_false (a b : Q) : Enhanced.leb a b = false <-> b < a.
Proof.
  unfold Enhanced.leb. destruct (Qlt_le_dec b a); split; intros H;
    try discriminate; try reflexivity; try assumption. lra.
Qed.

Lemma inject_Z_lt (a b : Z) : (a < b)%Z -> inject_Z a < inject_Z b.
Proof. intros H. now rewrite <- Zlt_Qlt. Qed.

Lemma inject_Z_le (a b : Z) : (a <= b)%Z -> inject_Z a <= inject_Z b.
Proof. intros H. now rewrite <- Zle_Qle. Qed.

Lemma manhattan_nonneg (a b : cell) : (0 <= manhattan a b)%Z.
Proof. unfold manhattan. lia. Qed.

End Rationals.

(** ** The reward model *)

Module RewardFacts.
Import Grid Enhanced.

Lemma getEnergyCost_pos (s : state) (a : action) : 0 < getEnergyCost s a.
Proof.
  unfold getEnergyCost.
  repeat match goal with
         | |- context [if ?b then _ else _] => destruct b
         end; lra.
Qed.

Lemma unknownNeighbors_le (s : state) (m : maze) (p : cell) :
  (unknownNeighbors s m p <= 9)%Z.
Proof.
  unfold unknownNeighbors.
  match goal with
  | |- (Z.of_nat (length (filter ?P ?l)) <= 9)%Z =>
      pose proof (length_filter P l) as H;
      assert (length l = 9%nat) as Hl by reflexivity
  end.
  lia.
Qed.

Lemma baseCost_upper (s : state) (a : action) :
  (baseCost s a).1 <= - (5 # 10).
Proof.
  pose proof (getEnergyCost_pos s a) as Hc.
  unfold baseCost. cbv zeta. cbn [fst].
  destruct (leb (health s) 20), (leb (qmax 0 (energy s - getEnergyCost s a)) 10);
    lra.
Qed.

Lemma goalProgress_upper (s : state) (p : cell) (r : Q) :
  (goalProgress s p r).1 <= r + 15.
Proof.
  pose proof (inject_Z_le _ _ (manhattan_nonneg p (primaryGoal s))) as Hd.
  assert (inject_Z 0 == 0) as Hz0 by reflexivity.
  assert (qmax 3 (15 - inject_Z (manhattan p (primaryGoal s)) * (5 # 10)) <= 15)
    as Hprog by (apply qmax_lub; lra).
  unfold goalProgress. cbv zeta.
  destruct (_ <? _)%Z; [cbn [fst]; lra|].
  destruct (_ =? _)%Z; cbn [fst]; lra.
Qed.

Lemma stagnation_upper (stag : Z) (r : Q) : stagnation stag r <= r.
Proof.
  unfold stagnation. destruct (15 <? stag)%Z eqn:Hs; [|lra].
  apply Z.ltb_lt in Hs. apply inject_Z_lt in Hs.
  assert (inject_Z 15 == 15) as Hz15 by reflexivity. lra.
Qed.

Lemma modeReward_upper (s : state) (m : maze) (p : cell) (ev : gameEvents)
  (r : Q) :
  (modeReward s m p ev r).1 <= r + 35.
Proof.
  pose proof (inject_Z_le _ _ (unknownNeighbors_le s m p)) as Hn.
  assert (inject_Z 9 == 9) as Hz9 by reflexivity.
  unfold modeReward. destruct (mode s); cbv zeta;
    repeat match goal with
           | |- context [if ?b then _ else _] => destruct b
           end; cbn [fst]; lra.
Qed.

(** the state [shapedReward] answers differs from the one it was given
    in health, energy and the stagnation counter only *)
Lemma shapedReward_state (s : state) (a : action) (p : cell) (m : maze)
  (ev : gameEvents) :
  exists h e stag, (shapedReward s a p m ev).2 = with_vitals s h e stag.
Proof.
  unfold shapedReward.
  destruct (baseCost s a) as [r0 e].
  destruct (goalProgress s p r0) as [r1 stag].
  destruct (modeReward s m p ev (stagnation stag r1)) as [r2 h].
  cbn [snd]. eauto.
Qed.

(** the shaping terms never add up to more than 49.5 *)
Lemma shapedReward_upper (s : state) (a : action) (p : cell) (m : maze)
  (ev : gameEvents) :
  (shapedReward s a p m ev).1 <= 495 # 10.
Proof.
  unfold shapedReward.
  pose proof (baseCost_upper s a) as H0.
  destruct (baseCost s a) as [r0 e].
  pose proof (goalProgress_upper s p r0) as H1.
  destruct (goalProgress s p r0) as [r1 stag].
  pose proof (stagnation_upper stag r1) as H2.
  pose proof (modeReward_upper s m p ev (stagnation stag r1)) as H3.
  destruct (modeReward s m p ev (stagnation stag r1)) as [r2 h].
  cbn [fst] in *. lra.
Qed.

End RewardFacts.

(** C1, as the code has it.  The tabular and the hybrid agent answer
    exactly 100 for a win and exactly -50 for a game over that is no
    win.  The reward of the enhanced modes adds its terminal terms to
    the shaping terms: with health or energy at zero and the goal not
    reached it is at most -50; on reaching the goal alive it is at
    least the shaping terms plus 100. *)
Theorem reward_terminal_terms :
  (forall ag o n m over, QLearning.getReward ag o n m over true = 100) /\
  (forall ag o n m, QLearning.getReward ag o n m true false = -50) /\
  (forall ag o n m over, Hybrid.getReward ag o n m over true = 100) /\
  (forall ag o n m, Hybrid.getReward ag o n m true false = -50) /\
  (forall s a p m ev,
      Enhanced.atGoal s p = false ->
      Enhanced.dead (Enhanced.calculateReward s a p m ev).2 = true ->
      (Enhanced.calculateReward s a p m ev).1 <= -50) /\
  (forall s a p m ev,
      Enhanced.atGoal s p = true ->
      Enhanced.dead (Enhanced.calculateReward s a p m ev).2 = false ->
      (Enhanced.shapedReward s a p m ev).1 + 100
      <= (Enhanced.calculateReward s a p m ev).1).
Proof.
  repeat split; try reflexivity.
  - intros s a p m ev Hgoal Hdead.
    pose proof (RewardFacts.shapedReward_upper s a p m ev) as Hup.
    destruct (RewardFacts.shapedReward_state s a p m ev) as (h & e & stag & Hst).
    unfold Enhanced.calculateReward in *.
    destruct (Enhanced.shapedReward s a p m ev) as [r s1].
    cbn [fst snd] in *. subst s1.
    change (Enhanced.atGoal (Enhanced.with_vitals s h e stag) p)
      with (Enhanced.atGoal s p).
    rewrite Hgoal, Hdead. lra.
  - intros s a p m ev Hgoal Hdead.
    destruct (RewardFacts.shapedReward_state s a p m ev) as (h & e & stag & Hst).
    unfold Enhanced.calculateReward in *.
    destruct (Enhanced.shapedReward s a p m ev) as [r s1].
    cbn [fst snd] in *. subst s1.
    change (Enhanced.atGoal (Enhanced.with_vitals s h e stag) p)
      with (Enhanced.atGoal s p).
    rewrite Hgoal, Hdead.
    pose proof (qmax_l 0
      (inject_Z (1000 - Enhanced.moves (Enhanced.with_vitals s h e stag)))) as Hq.
    set (eff := Grid.qmax 0 _) in *.
    assert (0 <= eff / 10) by (apply Qle_shift_div_l; lra).
    lra.
Qed.

(** [reward_terminal_terms] at [lastBreath], where the move spends the
    last unit of energy away from the goal, and at [lateArrival], which
    reaches the goal alive *)
Lemma reward_terminal_terms_witness :
  (Enhanced.calculateReward Examples.lastBreath (Enhanced.Move Enhanced.Right)
     (5, 6)%Z [] Examples.noEvents).1 <= -50
  /\ (Enhanced.shapedReward Examples.lateArrival
        (Enhanced.Move Enhanced.Right) (29, 29)%Z [] Examples.noEvents).1
     + 100
     <= (Enhanced.calculateReward Examples.lateArrival
           (Enhanced.Move Enhanced.Right) (29, 29)%Z [] Examples.noEvents).1.
Proof.
  destruct reward_terminal_terms as (_ & _ & _ & _ & Hdeath & Hwin).
  split.
  - apply Hdeath; vm_compute; reflexivity.
  - apply Hwin; vm_compute; reflexivity.
Defined.

(** C1 as stated fails: the agent of [lateArrival] steps on a trap on
    the goal cell; the win condition holds and the reward is 84.45. *)
Lemma reward_win_below_100 :
  Enhanced.atGoal Examples.lateArrival (29, 29)%Z = true /\
  (Enhanced.calculateReward Examples.lateArrival
     (Enhanced.Move Enhanced.Right) (29, 29)%Z [] Examples.trapEvent).1
  == 8445 # 100 /\
  ~ 100 <= (Enhanced.calculateReward Examples.lateArrival
              (Enhanced.Move Enhanced.Right) (29, 29)%Z []
              Examples.trapEvent).1.
Proof.
  split; [reflexivity|]. split; [vm_compute; reflexivity|].
  vm_compute. intros H. apply H. reflexivity.
Qed.

(** ** Valid moves *)

Module MoveFacts.
Import Grid.

Lemma inBounds_true (x y h w : Z) :
  (0 <=? x)%Z && (x <? h)%Z && (0 <=? y)%Z && (y <? w)%Z = true
  <-> (0 <= x < h)%Z /\ (0 <= y < w)%Z.
Proof.
  rewrite !andb_true_iff, !Z.leb_le, !Z.ltb_lt. lia.
Qed.

Lemma tabular_isValidMove (ag : QLearning.agent) (st : cell) (a : nat)
  (m : maze) :
  QLearning.isValidMove ag st a m = Some true
  <-> exists dx dy,
      actions !! a = Some (dx, dy)
      /\ (0 <= st.1 + dx < QLearning.height ag)%Z
      /\ (0 <= st.2 + dy < QLearning.width ag)%Z
      /\ cellIsZero m (st.1 + dx) (st.2 + dy) = Some true.
Proof.
  unfold QLearning.isValidMove.
  destruct (actions !! a) as [[dx dy]|]; cbv zeta.
  - destruct (_ && _) eqn:Hb.
    + apply inBounds_true in Hb. split.
      * intros H. exists dx, dy. tauto.
      * intros (dx' & dy' & Heq & _ & _ & H). now inversion Heq; subst.
    + split; [discriminate|].
      intros (dx' & dy' & Heq & Hx & Hy & _). inversion Heq; subst.
      assert ((0 <=? st.1 + dx')%Z && (st.1 + dx' <? QLearning.height ag)%Z
              && (0 <=? st.2 + dy')%Z && (st.2 + dy' <? QLearning.width ag)%Z
              = true) as Hb' by (apply inBounds_true; lia).
      congruence.
  - split; [discriminate|]. intros (dx & dy & Heq & _). discriminate.
Qed.

Lemma hybrid_isValidMove (ag : Hybrid.agent) (st : cell) (a : nat)
  (m : maze) :
  Hybrid.isValidMove ag st a m = Some true
  <-> exists dx dy,
      actions !! a = Some (dx, dy)
      /\ (0 <= st.1 + dx < Hybrid.height ag)%Z
      /\ (0 <= st.2 + dy < Hybrid.width ag)%Z
      /\ cellIsZero m (st.1 + dx) (st.2 + dy) = Some true.
Proof.
  unfold Hybrid.isValidMove.
  destruct (actions !! a) as [[dx dy]|]; cbv zeta.
  - destruct (_ && _) eqn:Hb.
    + apply inBounds_true in Hb. split.
      * intros H. exists dx, dy. tauto.
      * intros (dx' & dy' & Heq & _ & _ & H). now inversion Heq; subst.
    + split; [discriminate|].
      intros (dx' & dy' & Heq & Hx & Hy & _). inversion Heq; subst.
      assert ((0 <=? st.1 + dx')%Z && (st.1 + dx' <? Hybrid.height ag)%Z
              && (0 <=? st.2 + dy')%Z && (st.2 + dy' <? Hybrid.width ag)%Z
              = true) as Hb' by (apply inBounds_true; lia).
      congruence.
  - split; [discriminate|]. intros (dx & dy & Heq & _). discriminate.
Qed.

Import Enhanced.

Lemma freeCell_true (ag : Neural.agent) (m : maze) (x y : Z) :
  Neural.freeCell ag m x y = Some true
  <-> (0 <= x < Neural.height ag)%Z /\ (0 <= y < Neural.width ag)%Z
      /\ cellIsZero m x y = Some true
      /\ Dynamic.isBlocked (Neural.dynamicElements ag) x y = false.
Proof.
  unfold Neural.freeCell. cbv zeta.
  destruct (_ && _) eqn:Hb.
  - apply inBounds_true in Hb.
    destruct (cellIsZero m x y) as [[|]|],
             (Dynamic.isBlocked (Neural.dynamicElements ag) x y);
      cbn; split; intros H; try discriminate; try tauto;
      destruct H as (_ & _ & H1 & H2); discriminate.
  - split; [discriminate|]. intros (Hx & Hy & _).
    assert ((0 <=? x)%Z && (x <? Neural.height ag)%Z
            && (0 <=? y)%Z && (y <? Neural.width ag)%Z = true) as Hb'
      by (apply inBounds_true; lia).
    congruence.
Qed.

Lemma actionsToward_move (ag : Neural.agent) (m : maze) (d d' : dir)
  (l : list action) :
  Neural.actionsToward ag m d' = Some l ->
  Move d ∈ l
  <-> d = d' /\ Neural.freeCell ag m (Neural.aim ag d).1 (Neural.aim ag d).2 = Some true.
Proof.
  unfold Neural.actionsToward, Neural.aim.
  destruct (position (Neural.agentState ag)) as [x y].
  destruct (Neural.offset d') as [dx dy] eqn:Hoff. cbn [fst snd].
  destruct (Neural.freeCell ag m (x + dx) (y + dy)) as [[|]|] eqn:Hfree;
    intros Hl; inversion Hl; subst; clear Hl.
  - split.
    + rewrite elem_of_cons, elem_of_app.
      intros [H | [H | H]].
      * inversion H; subst. rewrite Hoff. cbn [fst snd]. tauto.
      * destruct (_ && _) in H; [|inversion H].
        apply list_elem_of_singleton in H. discriminate.
      * destruct (_ && _) in H; [|inversion H].
        apply list_elem_of_singleton in H. discriminate.
    + intros [-> _]. apply elem_of_cons. now left.
  - split; [intros H; inversion H|].
    intros [-> H]. rewrite Hoff in H. cbn [fst snd] in H. congruence.
Qed.

Lemma towardAll_move (ag : Neural.agent) (m : maze) (d : dir)
  (ds : list dir) (ls : list action) :
  Neural.towardAll ag m ds = Some ls ->
  Move d ∈ ls
  <-> d ∈ ds /\ Neural.freeCell ag m (Neural.aim ag d).1 (Neural.aim ag d).2 = Some true.
Proof.
  revert ls. induction ds as [|d' ds IH]; intros ls; cbn [Neural.towardAll].
  - intros H. inversion H. split; [intros Hin; inversion Hin|].
    intros [Hin _]. inversion Hin.
  - destruct (Neural.actionsToward ag m d') as [l|] eqn:Hl; [|discriminate].
    destruct (Neural.towardAll ag m ds) as [ls'|]; [|discriminate].
    intros H. inversion H; subst; clear H.
    rewrite elem_of_app, (actionsToward_move ag m d d' l Hl), (IH ls' eq_refl),
      elem_of_cons.
    tauto.
Qed.

Lemma getValidActions_move (ag : Neural.agent) (m : maze) (d : dir)
  (acts : list action) :
  Neural.getValidActions ag m = Some acts ->
  Move d ∈ acts
  <-> Neural.freeCell ag m (Neural.aim ag d).1 (Neural.aim ag d).2 = Some true.
Proof.
  unfold Neural.getValidActions.
  destruct (Neural.towardAll ag m Neural.directions) as [mv|] eqn:Hmv;
    [|discriminate].
  intros H. inversion H; subst; clear H.
  rewrite elem_of_app, !elem_of_cons, (towardAll_move ag m d _ mv Hmv).
  split.
  - intros [[_ H] | [H | [H | H]]]; [exact H | discriminate | discriminate |].
    destruct (_ <? _)%nat in H; [|inversion H].
    apply list_elem_of_singleton in H. discriminate.
  - intros H. left. split; [|exact H].
    unfold Neural.directions. destruct d; set_solver.
Qed.

(** with a row for every in-bounds index, [getValidActions] returns *)
Lemma freeCell_returns (ag : Neural.agent) (m : maze) (x y : Z) :
  (Neural.height ag <= Z.of_nat (length m))%Z ->
  is_Some (Neural.freeCell ag m x y).
Proof.
  intros Hrows. unfold Neural.freeCell. cbv zeta.
  destruct (_ && _) eqn:Hb; [|eauto].
  apply inBounds_true in Hb.
  unfold cellIsZero, at_.
  destruct (x <? 0)%Z eqn:Hx; [apply Z.ltb_lt in Hx; lia|].
  destruct (m !! Z.to_nat x) as [row|] eqn:Hrow; [cbn; eauto|].
  apply lookup_ge_None in Hrow. lia.
Qed.

Lemma getValidActions_returns (ag : Neural.agent) (m : maze) :
  (Neural.height ag <= Z.of_nat (length m))%Z ->
  is_Some (Neural.getValidActions ag m).
Proof.
  intros Hrows.
  assert (forall d, is_Some (Neural.actionsToward ag m d)) as Hd.
  { intros d. unfold Neural.actionsToward.
    destruct (position (Neural.agentState ag)) as [x y].
    destruct (Neural.offset d) as [dx dy].
    destruct (freeCell_returns ag m (x + dx) (y + dy) Hrows) as [[|] ->]; eauto. }
  unfold Neural.getValidActions, Neural.directions. cbn [Neural.towardAll].
  destruct (Hd Up) as [? ->], (Hd Right) as [? ->], (Hd Down) as [? ->],
           (Hd Left) as [? ->].
  eauto.
Qed.

End MoveFacts.

(** C3, as the code has it.  [isValidMove] of the tabular and of the
    hybrid agent is true exactly when the target cell is in bounds and
    open in the static grid; these agents consult no dynamic element.
    For the linear agent, [move_<d>] is in the list of
    [getValidActions] exactly when the target is in bounds, open and
    not blocked according to [isBlocked]. *)
Theorem valid_move_iff :
  (forall (ag : QLearning.agent) (st : Grid.cell) (a : nat) (m : Grid.maze),
      QLearning.isValidMove ag st a m = Some true
      <-> exists dx dy,
          Grid.actions !! a = Some (dx, dy)
          /\ (0 <= st.1 + dx < QLearning.height ag)%Z
          /\ (0 <= st.2 + dy < QLearning.width ag)%Z
          /\ Grid.cellIsZero m (st.1 + dx) (st.2 + dy) = Some true) /\
  (forall (ag : Hybrid.agent) (st : Grid.cell) (a : nat) (m : Grid.maze),
      Hybrid.isValidMove ag st a m = Some true
      <-> exists dx dy,
          Grid.actions !! a = Some (dx, dy)
          /\ (0 <= st.1 + dx < Hybrid.height ag)%Z
          /\ (0 <= st.2 + dy < Hybrid.width ag)%Z
          /\ Grid.cellIsZero m (st.1 + dx) (st.2 + dy) = Some true) /\
  (forall (ag : Neural.agent) (m : Grid.maze) (d : Enhanced.dir),
      (Neural.height ag <= Z.of_nat (length m))%Z ->
      exists acts,
        Neural.getValidActions ag m = Some acts
        /\ (Enhanced.Move d ∈ acts
            <-> (0 <= (Neural.aim ag d).1 < Neural.height ag)%Z
                /\ (0 <= (Neural.aim ag d).2 < Neural.width ag)%Z
                /\ Grid.cellIsZero m (Neural.aim ag d).1
                     (Neural.aim ag d).2 = Some true
                /\ Dynamic.isBlocked (Neural.dynamicElements ag)
                     (Neural.aim ag d).1 (Neural.aim ag d).2 = false)).
Proof.
  split; [exact MoveFacts.tabular_isValidMove|].
  split; [exact MoveFacts.hybrid_isValidMove|].
  intros ag m d Hrows.
  destruct (MoveFacts.getValidActions_returns ag m Hrows) as [acts Hacts].
  exists acts. split; [exact Hacts|].
  rewrite (MoveFacts.getValidActions_move ag m d acts Hacts).
  apply MoveFacts.freeCell_true.
Qed.

(** [valid_move_iff] for the linear agent of [Examples.linearAgent] on
    the open room: moving down is valid; moving right is not, the cell
    being held by a moving wall *)
Lemma valid_move_iff_witness :
  exists acts,
    Neural.getValidActions (Examples.linearAgent 100 4 [] (1 # 10) 0)
      Examples.room = Some acts
    /\ Enhanced.Move Enhanced.Down ∈ acts
    /\ ~ Enhanced.Move Enhanced.Right ∈ acts.
Proof.
  destruct valid_move_iff as (_ & _ & H).
  pose (ag := Examples.linearAgent 100 4 [] (1 # 10) 0).
  assert ((Neural.height ag <= Z.of_nat (length Examples.room))%Z) as Hrows
    by (vm_compute; discriminate).
  destruct (H ag Examples.room Enhanced.Down Hrows) as (acts & Hacts & Hdown).
  destruct (H ag Examples.room Enhanced.Right Hrows) as (acts' & Hacts' & Hright).
  exists acts. split; [exact Hacts|]. split.
  - apply Hdown. vm_compute. repeat split; discriminate.
  - assert (acts' = acts) as -> by congruence.
    intros Hin. apply Hright in Hin. destruct Hin as (_ & _ & _ & Hb).
    vm_compute in Hb. discriminate.
Defined.

(** C3 as stated fails for the tabular agent: in the open room the
    move right from (2,1) is valid for [isValidMove] although the
    target (2,2) is held by a moving wall according to [isBlocked]. *)
Lemma tabular_ignores_dynamic_elements :
  QLearning.isValidMove Examples.tabular11 (2, 1)%Z 1 Examples.room = Some true
  /\ Dynamic.isBlocked Examples.movingParts 2 2 = true
  /\ ~ (QLearning.isValidMove Examples.tabular11 (2, 1)%Z 1 Examples.room
        = Some true
        <-> (0 <= 2 < 11)%Z /\ (0 <= 2 < 11)%Z
            /\ Grid.cellIsZero Examples.room 2 2 = Some true
            /\ Dynamic.isBlocked Examples.movingParts 2 2 = false).
Proof.
  split; [reflexivity|]. split; [reflexivity|].
  intros [H _]. specialize (H eq_refl). destruct H as (_ & _ & _ & H).
  vm_compute in H. discriminate.
Qed.

(** ** The tabular update *)

(** C2 at the failing input: on [walledStart] no action is valid at
    (1,1); the update of the tabular agent for the transition
    ((1,1), up, -1, (1,1)) stores [-Infinity], where the claim's
    formula with a bootstrap term of 0 gives -0.1. *)
Theorem tabular_bootstrap_without_valid_action :
  QLearning.validActionsFromState Examples.tabular5 (1, 1)%Z
    Examples.walledStart = Some []
  /\ exists ag',
      QLearning.updateQValue Examples.tabular5 (1, 1)%Z 0 (1, 1)%Z
        (JsNum.Fin (-1)) Examples.walledStart = Some ag'
      /\ (QLearning.getQValue (QLearning.qTable ag') (1, 1)%Z 0).1
         = JsNum.NegInf.
Proof.
  split; [reflexivity|].
  eexists. split; vm_compute; reflexivity.
Qed.

(** ** Epsilon at the end of an episode *)

(** C4 at the failing input: the agent of [Examples.tabular21]
    (epsilon 0.6, decay 0.975, floor 0.05) is above its floor after 98
    episodes and strictly below it after the 99th. *)
Theorem epsilon_falls_below_floor :
  let after n :=
    Nat.iter n (fun ag => QLearning.finishGame ag true) Examples.tabular21 in
  QLearning.epsilonMin (after 99%nat) == 5 # 100
  /\ QLearning.epsilonMin (after 99%nat) < QLearning.epsilon (after 98%nat)
  /\ QLearning.epsilon (after 99%nat) < QLearning.epsilonMin (after 99%nat).
Proof.
  cbv zeta. repeat split; vm_compute; reflexivity.
Qed.

(** on agents whose epsilon is not negative and whose decay is at most
    1, the end of an episode never raises epsilon *)
Lemma tabular_epsilon_monotone (ag : QLearning.agent) (isWin : bool) :
  0 <= QLearning.epsilon ag -> QLearning.epsilonDecay ag <= 1 ->
  QLearning.epsilon (QLearning.finishGame ag isWin) <= QLearning.epsilon ag.
Proof.
  intros He Hd. cbn [QLearning.finishGame QLearning.epsilon].
  destruct (Qlt_le_dec _ _); [nra | lra].
Qed.

Lemma hybrid_epsilon_monotone (ag : Hybrid.agent) (isWin : bool) :
  0 <= Hybrid.epsilon ag -> Hybrid.epsilonDecay ag <= 1 ->
  Hybrid.epsilon (Hybrid.finishGame ag isWin) <= Hybrid.epsilon ag.
Proof.
  intros He Hd. cbn [Hybrid.finishGame Hybrid.epsilon].
  destruct (Qlt_le_dec _ _); [|lra].
  destruct (Hybrid.isLargeMaze ag); [lra | nra].
Qed.

(** what the guard [epsilon > epsilonMin] does ensure: epsilon stays
    above the floor times the decay *)
Lemma tabular_epsilon_floor (ag : QLearning.agent) (isWin : bool) :
  0 <= QLearning.epsilonDecay ag <= 1 ->
  0 <= QLearning.epsilonMin ag ->
  QLearning.epsilonMin ag * QLearning.epsilonDecay ag <= QLearning.epsilon ag ->
  QLearning.epsilonMin ag * QLearning.epsilonDecay ag
  <= QLearning.epsilon (QLearning.finishGame ag isWin).
Proof.
  intros Hd Hm He. cbn [QLearning.finishGame QLearning.epsilon].
  destruct (Qlt_le_dec _ _); [nra | lra].
Qed.

(** the constructor clamps the decay into [0.9, 0.9999] and puts the
    floor at or under epsilon *)
Lemma tabular_create_invariant (w h : Z) (o : QLearning.options) :
  let ag := QLearning.create w h o in
  9 # 10 <= QLearning.epsilonDecay ag <= 9999 # 10000
  /\ QLearning.epsilonMin ag <= QLearning.epsilon ag.
Proof.
  cbn [QLearning.create QLearning.epsilonDecay QLearning.epsilonMin
       QLearning.epsilon].
  repeat split.
  - apply qmin_glb; [lra | apply qmax_l].
  - apply qmin_l.
  - apply qmin_l.
Qed.

(** ** The replay buffer *)

Module ReplayFacts.
Import Neural.

Lemma storeExperience_memory (ag : agent) (t : transition) :
  let ag' := storeExperience ag (trState t) (trAction t) (trReward t)
               (trNextState t) (trTerminal t) in
  memorySize ag' = memorySize ag
  /\ memory ag'
     = if (memorySize ag <? length (memory ag ++ [toExperience t]))%nat
       then tail (memory ag ++ [toExperience t])
       else memory ag ++ [toExperience t].
Proof. split; reflexivity. Qed.

Lemma tail_drop {A : Type} (l : list A) : tail l = drop 1 l.
Proof. destruct l; [reflexivity|]. cbn. now rewrite drop_0. Qed.

Lemma storeAll_memory (ts : list transition) :
  forall ag : agent,
    (length (memory ag) <= memorySize ag)%nat ->
    memorySize (storeAll ag ts) = memorySize ag
    /\ (length (memory (storeAll ag ts)) <= memorySize ag)%nat
    /\ memory (storeAll ag ts)
       = drop (length (memory ag) + length ts - memorySize ag)
           (memory ag ++ map toExperience ts).
Proof.
  induction ts as [|t ts IH]; intros ag Hlen.
  - cbn [storeAll map length]. rewrite app_nil_r, Nat.add_0_r.
    replace (length (memory ag) - memorySize ag)%nat with 0%nat by lia.
    rewrite drop_0. auto.
  - cbn [storeAll].
    destruct (storeExperience_memory ag t) as [Hcap Hmem].
    cbv zeta in Hcap, Hmem.
    set (ag1 := storeExperience ag (trState t) (trAction t) (trReward t)
                  (trNextState t) (trTerminal t)) in *.
    assert (length (memory ag ++ [toExperience t]) = S (length (memory ag)))
      as Hl1 by (rewrite length_app; cbn; lia).
    assert (memory ag1
            = drop (S (length (memory ag)) - memorySize ag)
                (memory ag ++ [toExperience t])) as Hdrop.
    { rewrite Hmem, Hl1.
      destruct (memorySize ag <? S (length (memory ag)))%nat eqn:Hfull.
      - apply Nat.ltb_lt in Hfull.
        replace (S (length (memory ag)) - memorySize ag)%nat with 1%nat by lia.
        apply tail_drop.
      - apply Nat.ltb_ge in Hfull.
        replace (S (length (memory ag)) - memorySize ag)%nat with 0%nat by lia.
        now rewrite drop_0. }
    assert (length (memory ag1)
            = (S (length (memory ag)) - (S (length (memory ag)) - memorySize ag))%nat)
      as Hlen1 by (rewrite Hdrop, length_drop, Hl1; reflexivity).
    destruct (IH ag1) as (Hc & Hb & Hm); [lia|].
    rewrite Hc, Hcap. split; [reflexivity|]. split; [lia|].
    rewrite Hm, Hcap, Hdrop.
    rewrite <- (drop_app_le _ (map toExperience ts))
      by (rewrite Hl1; lia).
    rewrite drop_drop, <- app_assoc. cbn [map app length].
    f_equal. rewrite length_drop, Hl1. lia.
Qed.

End ReplayFacts.

(** C5.  From a buffer within its capacity, after any sequence of
    insertions the buffer is still within its capacity and holds the
    most recent records in insertion order, the oldest dropped first;
    in particular [capacity + k] insertions into an empty buffer leave
    the sequence without its first [k] records. *)
Theorem replay_buffer_fifo (ag : Neural.agent) (ts : list Neural.transition) :
  (length (Neural.memory ag) <= Neural.memorySize ag)%nat ->
  (length (Neural.memory (Neural.storeAll ag ts)) <= Neural.memorySize ag)%nat
  /\ Neural.memory (Neural.storeAll ag ts)
     = drop (length (Neural.memory ag) + length ts - Neural.memorySize ag)
         (Neural.memory ag ++ map Neural.toExperience ts)
  /\ (forall k : nat,
        Neural.memory ag = [] ->
        length ts = (Neural.memorySize ag + k)%nat ->
        Neural.memory (Neural.storeAll ag ts)
        = drop k (map Neural.toExperience ts)
        /\ length (Neural.memory (Neural.storeAll ag ts))
           = Neural.memorySize ag).
Proof.
  intros Hlen.
  destruct (ReplayFacts.storeAll_memory ts ag Hlen) as (_ & Hb & Hm).
  split; [exact Hb|]. split; [exact Hm|].
  intros k Hempty Hk. rewrite Hm, Hempty. cbn [length app].
  replace (0 + length ts - Neural.memorySize ag)%nat with k by lia.
  split; [reflexivity|].
  rewrite length_drop, length_map. lia.
Qed.

(** [replay_buffer_fifo] on a buffer of capacity 4 fed the records
    1 to 6: records 3 to 6 remain *)
Lemma replay_buffer_fifo_witness :
  Neural.memory
    (Neural.storeAll (Examples.linearAgent 100 4 [] (1 # 10) 0)
       (map Examples.numbered [1; 2; 3; 4; 5; 6]%Z))
  = map Neural.toExperience (map Examples.numbered [3; 4; 5; 6]%Z).
Proof.
  pose proof (replay_buffer_fifo (Examples.linearAgent 100 4 [] (1 # 10) 0)
                (map Examples.numbered [1; 2; 3; 4; 5; 6]%Z)) as H.
  destruct H as (_ & _ & H); [cbn; lia|].
  destruct (H 2%nat) as [Hm _]; [reflexivity | reflexivity |].
  rewrite Hm. reflexivity.
Defined.

(** ** A valid move without the energy for it *)

(** C10.  A plain move that [getValidActions] lists is refused by
    [performAction] when the energy is under the cost of 1: the call
    returns [success = false] with the old position and leaves the
    agent, its position and its path as they were. *)
Theorem move_fails_without_energy (ag : Neural.agent) (m : Grid.maze)
  (d : Enhanced.dir) (acts : list Enhanced.action) :
  Neural.getValidActions ag m = Some acts ->
  Enhanced.Move d ∈ acts ->
  Enhanced.energy (Neural.agentState ag) < 1 ->
  Neural.performAction ag (Enhanced.Move d) m
  = Some (ag, {| Neural.success := false;
                 Neural.resPosition :=
                   Enhanced.position (Neural.agentState ag) |}).
Proof.
  intros Hacts Hin Hlow.
  apply (MoveFacts.getValidActions_move ag m d acts Hacts) in Hin.
  unfold Neural.performAction, Neural.aim in *.
  cbn [Neural.target] in *.
  destruct (Enhanced.position (Neural.agentState ag)) as [x y] eqn:Hpos.
  destruct (Neural.offset d) as [dx dy]. cbn [fst snd] in Hin.
  cbv zeta. rewrite Hin.
  apply leb_false in Hlow. rewrite Hlow. cbn [andb].
  destruct ag as [? ? s]. reflexivity.
Qed.

(** [move_fails_without_energy] for the agent of
    [Examples.linearAgent] with half a unit of energy: moving down is
    listed as valid and fails *)
Lemma move_fails_without_energy_witness :
  Enhanced.Move Enhanced.Down
  ∈ default [] (Neural.getValidActions
                  (Examples.linearAgent (1 # 2) 4 [] (1 # 10) 0) Examples.room)
  /\ Neural.success
       (default {| Neural.success := true; Neural.resPosition := (0, 0)%Z |}
          (snd <$> Neural.performAction
                     (Examples.linearAgent (1 # 2) 4 [] (1 # 10) 0)
                     (Enhanced.Move Enhanced.Down) Examples.room))
     = false.
Proof.
  pose (ag := Examples.linearAgent (1 # 2) 4 [] (1 # 10) 0).
  assert (exists acts, Neural.getValidActions ag Examples.room = Some acts
                       /\ Enhanced.Move Enhanced.Down ∈ acts)
    as (acts & Hacts & Hin).
  { eexists. split; [vm_compute; reflexivity|].
    repeat constructor. }
  split.
  - fold ag. rewrite Hacts. exact Hin.
  - fold ag.
    rewrite (move_fails_without_energy ag Examples.room Enhanced.Down acts
               Hacts Hin); [reflexivity|].
    vm_compute. reflexivity.
Defined.

(** ** The planner *)

Module PlannerFacts.
Import MCTS.

Lemma pickBest_choice (score : nat -> option Q) (acts : list nat) :
  forall (bestA : nat) (best : option Q),
    pickBest score acts bestA best = bestA
    \/ pickBest score acts bestA best ∈ acts.
Proof.
  induction acts as [|a acts IH]; intros bestA best; cbn [pickBest].
  - now left.
  - destruct (above (score a) best).
    + destruct (IH a (score a)) as [-> | H].
      * right. apply elem_of_cons. now left.
      * right. apply elem_of_cons. now right.
    + destruct (IH bestA best) as [-> | H].
      * now left.
      * right. apply elem_of_cons. now right.
Qed.

End PlannerFacts.

(** C7.  Whatever the maze, the callbacks, the random draws and the
    number of passes made within the budget, the action [mctsPlan]
    returns is one of the valid actions of the root state when there is
    one, and the default action 0 when there is none. *)
Theorem planner_returns_valid_action
  (m : Grid.maze) (validActionsFn : Grid.cell -> Grid.maze -> list nat)
  (stepFn : Grid.cell -> nat -> Grid.maze -> Grid.cell * Q * bool)
  (evaluateFn : Grid.cell -> Grid.maze -> Q) (maxDepth : nat) (c : Q)
  (sqrt log : Q -> Q) (rnd : nat -> Q) (passes : nat) (state : Grid.cell) :
  match validActionsFn state m with
  | [] =>
      MCTS.mctsPlan m validActionsFn stepFn evaluateFn maxDepth c sqrt log rnd
        passes state = 0%nat
  | acts =>
      MCTS.mctsPlan m validActionsFn stepFn evaluateFn maxDepth c sqrt log rnd
        passes state ∈ acts
  end.
Proof.
  unfold MCTS.mctsPlan.
  destruct (validActionsFn state m) as [|a0 acts]; [reflexivity|].
  match goal with
  | |- MCTS.pickBest ?score ?l ?b ?v ∈ _ =>
      destruct (PlannerFacts.pickBest_choice score l b v) as [-> | H]
  end.
  - apply elem_of_cons. now left.
  - exact H.
Qed.

(** ** The hybrid agent on a large maze *)

Module HybridFacts.
Import Grid Hybrid.

Lemma selectStrategy_large (ag : agent) (m : maze) :
  isLargeMaze ag = true -> selectStrategy ag m = Pathfinding.
Proof. intros H. unfold selectStrategy. now rewrite H. Qed.

(** outside the Q-learning strategy the update is a no-op *)
Lemma updateQValue_suppressed (ag : agent) (o : cell) (a : nat) (n : cell)
  (r : Q) (m : maze) :
  currentStrategy ag = Pathfinding -> updateQValue ag o a n r m = Some ag.
Proof. intros H. unfold updateQValue. now rewrite H. Qed.

Lemma trainStep_suppressed (ag : agent) (m : maze)
  (previous : option (cell * nat)) :
  currentStrategy ag = Pathfinding ->
  exists verdict, trainStep ag m previous = Some (ag, verdict).
Proof.
  intros H. unfold trainStep. destruct (negb (isTraining ag)); [eauto|].
  cbv zeta. destruct previous as [[p a]|]; [|eauto].
  rewrite H. cbn [strategy_eqb]. eauto.
Qed.

(** a request on a large maze is answered by [pathfindingMove], and the
    table is not touched *)
Lemma move_large (chooseAction : agent -> cell -> maze -> nat) (ag : agent)
  (m : maze) :
  isLargeMaze ag = true ->
  exists ag' r,
    move chooseAction ag m = Some (ag', r)
    /\ resStrategy r = Pathfinding
    /\ currentStrategy ag' = Pathfinding
    /\ isLargeMaze ag' = true
    /\ qTable ag' = qTable ag.
Proof.
  intros Hlarge. unfold move. rewrite (selectStrategy_large ag m Hlarge).
  cbn [currentStrategy with_currentStrategy].
  unfold pathfindingMove.
  set (ag0 := with_currentStrategy ag Pathfinding).
  match goal with
  | |- context [if ?c then ?a else ag0] => set (ag1 := if c then a else ag0)
  end.
  assert (currentStrategy ag1 = Pathfinding /\ isLargeMaze ag1 = true
          /\ qTable ag1 = qTable ag) as (Hs & Hl & Hq).
  { subst ag1. destruct (_ || _); cbn; auto. }
  destruct (match knownSolution ag1 with Some _ => _ | None => _ end);
    eexists _, _; (split; [reflexivity|]); cbn; auto.
Qed.

(** with a route in hand and a step count [k > 0] short of its end, a
    request advances to the next cell of that route without asking the
    oracle *)
Lemma pathfindingMove_replay (ag : agent) (m : maze) (route : list cell)
  (k : nat) (c : cell) :
  knownSolution ag = Some route ->
  solutionSteps ag = Z.of_nat (S k) ->
  route !! S (S k) = Some c ->
  let '(ag', r) := pathfindingMove ag m in
  position ag' = c /\ resPosition r = c /\ resIsValid r = true
  /\ knownSolution ag' = Some route
  /\ solutionSteps ag' = Z.of_nat (S (S k))
  /\ path ag' = path ag ++ [c]
  /\ moves ag' = (moves ag + 1)%Z.
Proof.
  intros Hsol Hsteps Hc. unfold pathfindingMove.
  rewrite Hsol, Hsteps. cbn [orb].
  replace (Z.of_nat (S k) =? 0)%Z with false by (symmetry; apply Z.eqb_neq; lia).
  rewrite Hsol, Hsteps.
  apply lookup_lt_Some in Hc as Hlen.
  replace (Z.of_nat (S k) <? Z.of_nat (length route) - 1)%Z with true
    by (symmetry; apply Z.ltb_lt; lia).
  unfold at_.
  replace (Z.of_nat (S k) + 1 <? 0)%Z with false
    by (symmetry; apply Z.ltb_ge; lia).
  replace (Z.to_nat (Z.of_nat (S k) + 1)) with (S (S k)) by lia.
  rewrite Hc. cbn. repeat split; try reflexivity.
  f_equal. lia.
Qed.

(** the same for [move] on a large maze *)
Lemma move_replay (chooseAction : agent -> cell -> maze -> nat) (ag : agent)
  (m : maze) (route : list cell) (k : nat) (c : cell) :
  isLargeMaze ag = true ->
  knownSolution ag = Some route ->
  solutionSteps ag = Z.of_nat (S k) ->
  route !! S (S k) = Some c ->
  exists ag' r,
    move chooseAction ag m = Some (ag', r)
    /\ resStrategy r = Pathfinding
    /\ position ag' = c
    /\ knownSolution ag' = Some route
    /\ solutionSteps ag' = Z.of_nat (S (S k))
    /\ isLargeMaze ag' = true.
Proof.
  intros Hlarge Hsol Hsteps Hc.
  destruct (move_large chooseAction ag m Hlarge)
    as (ag' & r & Hm & Hs & _ & Hl & _).
  exists ag', r. split; [exact Hm|]. split; [exact Hs|].
  unfold move in Hm. rewrite (selectStrategy_large ag m Hlarge) in Hm.
  cbn [currentStrategy with_currentStrategy] in Hm.
  pose proof (pathfindingMove_replay (with_currentStrategy ag Pathfinding) m
                route k c Hsol Hsteps Hc) as Hreplay.
  destruct (pathfindingMove (with_currentStrategy ag Pathfinding) m)
    as [ag2 r2].
  inversion Hm; subst. tauto.
Qed.

(** the first request of an episode on a large maze *)
Lemma move_first (chooseAction : agent -> cell -> maze -> nat) (ag : agent)
  (m : maze) (route : list cell) (second : cell) :
  isLargeMaze ag = true ->
  fastSolver ag m (1, 1)%Z = Some route ->
  route !! 1%nat = Some second ->
  exists ag1 r1,
    move chooseAction (reset ag) m = Some (ag1, r1)
    /\ resStrategy r1 = Pathfinding
    /\ resIsValid r1 = true
    /\ resPosition r1 = second
    /\ position ag1 = second
    /\ knownSolution ag1 = Some route
    /\ solutionSteps ag1 = 1%Z
    /\ qTable ag1 = qTable ag
    /\ currentStrategy ag1 = Pathfinding
    /\ isLargeMaze ag1 = true.
Proof.
  intros Hlarge Hroute Hsecond.
  assert (isLargeMaze (reset ag) = true) as Hl0 by exact Hlarge.
  unfold move. rewrite (selectStrategy_large _ m Hl0).
  cbn [currentStrategy with_currentStrategy].
  unfold pathfindingMove.
  cbn [knownSolution reset with_episode with_currentStrategy solutionSteps
       fastSolver position orb].
  rewrite Hroute.
  apply lookup_lt_Some in Hsecond as Hlen.
  replace (0 <? Z.of_nat (length route) - 1)%Z with true
    by (symmetry; apply Z.ltb_lt; lia).
  change (at_ route (0 + 1)) with (route !! 1%nat).
  rewrite Hsecond.
  eexists _, _. split; [reflexivity|].
  cbn. repeat split; try reflexivity. exact Hlarge.
Qed.

End HybridFacts.

(** C6.  On a maze of more than 1000 cells every request of the hybrid
    agent is answered by the pathfinding strategy and leaves the
    Q-table alone.  When the oracle has a route from the start with a
    second cell, the first request of an episode stores that route,
    reports strategy "pathfinding" and moves the agent to the second
    cell of the route; a next request moves on along the stored route
    without asking the oracle again; and afterwards [updateQValue] and
    [trainStep] change nothing. *)
Theorem hybrid_large_maze_pathfinding
  (chooseAction : Hybrid.agent -> Grid.cell -> Grid.maze -> nat)
  (ag : Hybrid.agent) (m : Grid.maze) (route : list Grid.cell)
  (second : Grid.cell) :
  Hybrid.isLargeMaze ag = true ->
  Hybrid.fastSolver ag m (1, 1)%Z = Some route ->
  route !! 1%nat = Some second ->
  (forall ag0 : Hybrid.agent,
      Hybrid.isLargeMaze ag0 = true ->
      Hybrid.selectStrategy ag0 m = Hybrid.Pathfinding
      /\ exists ag' r,
          Hybrid.move chooseAction ag0 m = Some (ag', r)
          /\ Hybrid.resStrategy r = Hybrid.Pathfinding
          /\ Hybrid.currentStrategy ag' = Hybrid.Pathfinding
          /\ Hybrid.qTable ag' = Hybrid.qTable ag0)
  /\ exists ag1 r1,
      Hybrid.move chooseAction (Hybrid.reset ag) m = Some (ag1, r1)
      /\ Hybrid.resStrategy r1 = Hybrid.Pathfinding
      /\ Hybrid.resIsValid r1 = true
      /\ Hybrid.resPosition r1 = second
      /\ Hybrid.position ag1 = second
      /\ Hybrid.knownSolution ag1 = Some route
      /\ Hybrid.qTable ag1 = Hybrid.qTable ag
      /\ (forall o a n r, Hybrid.updateQValue ag1 o a n r m = Some ag1)
      /\ (forall previous,
            exists verdict,
              Hybrid.trainStep ag1 m previous = Some (ag1, verdict))
      /\ (forall third,
            route !! 2%nat = Some third ->
            exists ag2 r2,
              Hybrid.move chooseAction ag1 m = Some (ag2, r2)
              /\ Hybrid.resStrategy r2 = Hybrid.Pathfinding
              /\ Hybrid.position ag2 = third
              /\ Hybrid.knownSolution ag2 = Some route).
Proof.
  intros Hlarge Hroute Hsecond. split.
  - intros ag0 H0. split; [now apply HybridFacts.selectStrategy_large|].
    destruct (HybridFacts.move_large chooseAction ag0 m H0)
      as (ag' & r & Hm & Hs & Hc & _ & Hq).
    eauto 10.
  - destruct (HybridFacts.move_first chooseAction ag m route second
                Hlarge Hroute Hsecond)
      as (ag1 & r1 & Hm & Hs & Hv & Hr & Hp & Hk & Hst & Hq & Hc & Hl).
    exists ag1, r1. do 7 (split; [assumption|]).
    split; [intros; now apply HybridFacts.updateQValue_suppressed|].
    split; [intros; now apply HybridFacts.trainStep_suppressed|].
    intros third Hthird.
    destruct (HybridFacts.move_replay chooseAction ag1 m route 0 third
                Hl Hk Hst Hthird)
      as (ag2 & r2 & Hm2 & Hs2 & Hp2 & Hk2 & _).
    eauto 10.
Qed.

(** [hybrid_large_maze_pathfinding] for the agent built on the 3x335
    corridor with the A* oracle: the first request lands on (1,2), the
    second cell of the oracle's route *)
Lemma hybrid_large_maze_pathfinding_witness :
  exists ag1 r1,
    Hybrid.move (fun _ _ _ => 0%nat) (Hybrid.reset Examples.hybridOnCorridor)
      Examples.corridor = Some (ag1, r1)
    /\ Hybrid.resStrategy r1 = Hybrid.Pathfinding
    /\ Hybrid.position ag1 = (1, 2)%Z.
Proof.
  pose (route := default [] (FastMazeSolver.oracle Examples.corridor (1, 1)%Z)).
  destruct (hybrid_large_maze_pathfinding (fun _ _ _ => 0%nat)
              Examples.hybridOnCorridor Examples.corridor route (1, 2)%Z)
    as (_ & ag1 & r1 & Hm & Hs & _ & _ & Hp & _).
  - reflexivity.
  - vm_compute. reflexivity.
  - vm_compute. reflexivity.
  - exists ag1, r1. auto.
Defined.

(** ** The auto-tune scheduler *)

Module SchedulerFacts.
Import Grid Scheduler.

Lemma clampDecay_bounds (s : scheduler) (d : Q) :
  minDecay s <= maxDecay s ->
  minDecay s <= clampDecay s d <= maxDecay s.
Proof.
  intros H. unfold clampDecay. split.
  - apply qmin_glb; [exact H | apply qmax_l].
  - apply qmin_l.
Qed.

Lemma clampDecay_le (s : scheduler) (d d0 : Q) :
  minDecay s <= d0 -> d <= d0 -> clampDecay s d <= d0.
Proof.
  intros Hm Hd. unfold clampDecay.
  eapply Qle_trans; [apply qmin_r|]. now apply qmax_lub.
Qed.

Lemma recordEpisode_configured (s : scheduler) (ep : episode) :
  configured s -> configured (recordEpisode s ep).
Proof. intros H. exact H. Qed.

Lemma recordEpisode_won (s : scheduler) (ep : episode) :
  (1 <= window s)%Z ->
  Forall won (history s) -> won ep ->
  Forall won (history (recordEpisode s ep))
  /\ (0 < length (history (recordEpisode s ep)))%nat.
Proof.
  intros Hwin Hh He. cbn [recordEpisode history].
  assert (Forall won (history s ++ [ep])) as Hall
    by (apply Forall_app; split; [exact Hh | now constructor]).
  assert (length (history s ++ [ep]) = S (length (history s))) as Hlen
    by (rewrite length_app; cbn; lia).
  destruct (window s <? _)%Z eqn:Hw.
  - apply Z.ltb_lt in Hw.
    destruct (history s ++ [ep]) as [|x l]; [cbn in Hlen; lia|].
    cbn [tail]. split; [now inversion Hall|].
    cbn [length] in Hw. lia.
  - split; [exact Hall | lia].
Qed.

(** a window of wins only has success rate 1 *)
Lemma success_all_won (s : scheduler) :
  Forall won (history s) -> (0 < length (history s))%nat -> success s == 1.
Proof.
  intros Hall Hpos. unfold success. cbv zeta.
  replace (length (history s) =? 0)%nat with false
    by (symmetry; apply Nat.eqb_neq; lia).
  assert (filter (fun x => win x = true) (history s) = history s) as ->.
  { induction Hall as [|x l Hx Hl IH]; [reflexivity|].
    rewrite filter_cons_True by exact Hx. f_equal.
    destruct l; [reflexivity|]. apply IH. cbn. lia. }
  unfold Qdiv. apply Qmult_inv_r. intros H0.
  assert (0 < Z.of_nat (length (history s)))%Z as Hz by lia.
  apply inject_Z_lt in Hz. change (inject_Z 0) with 0 in Hz.
  rewrite H0 in Hz. now apply Qlt_irrefl in Hz.
Qed.

(** one more won episode on a window of wins: decay and epsilon do not
    rise, and the conditions hold again *)
Lemma onEpisodeEnd_won (s : scheduler) (agent : tunable) (ep : episode) :
  configured s -> Forall won (history s) -> won ep ->
  0 <= epsilon agent -> epsilonMin agent <= epsilon agent ->
  9 # 10 <= epsilonDecay agent ->
  let '(s', agent') := onEpisodeEnd s agent ep in
  configured s' /\ Forall won (history s')
  /\ 0 <= epsilon agent' /\ epsilonMin agent' <= epsilon agent'
  /\ 9 # 10 <= epsilonDecay agent'
  /\ epsilonDecay agent' <= epsilonDecay agent
  /\ epsilon agent' <= epsilon agent.
Proof.
  intros Hcfg Hall Hep He Hmin Hd.
  assert (Hcfg' := Hcfg). destruct Hcfg' as (Hw & Hlo & Hhi).
  destruct (recordEpisode_won s ep) as [Hall' Hpos]; [lia | assumption.. |].
  pose proof (success_all_won (recordEpisode s ep) Hall' Hpos) as Hsucc.
  unfold onEpisodeEnd. cbv zeta.
  set (s1 := recordEpisode s ep) in *.
  assert (minDecay s1 = 9 # 10) as Hlo1 by exact Hlo.
  assert (maxDecay s1 = 9999 # 10000) as Hhi1 by exact Hhi.
  assert (Enhanced.leb (8 # 10) (success s1) = true) as ->
    by (apply leb_true; rewrite Hsucc; lra).
  assert (Enhanced.leb (success s1) (1 # 10) = false) as ->
    by (apply leb_false; rewrite Hsucc; lra).
  cbn [andb].
  assert (forall d, d <= epsilonDecay agent -> 9 # 10 <= clampDecay s1 d
                    /\ clampDecay s1 d <= epsilonDecay agent) as Hclamp.
  { intros d Hle. split.
    - rewrite <- Hlo1 at 1. apply clampDecay_bounds. rewrite Hlo1, Hhi1. lra.
    - apply clampDecay_le; [rewrite Hlo1; lra | exact Hle]. }
  pose proof (qmin_l) as Hql.
  destruct (Enhanced.leb _ _).
  - cbn [epsilon epsilonMin epsilonDecay].
    destruct (Hclamp (epsilonDecay agent * (97 # 100))) as [Hc1 Hc2]; [lra|].
    destruct (Hclamp (clampDecay s1 (epsilonDecay agent * (97 # 100))))
      as [Hc3 Hc4]; [exact Hc2|].
    pose proof (qmax_r (epsilonMin agent) (epsilon agent * (9 # 10))) as Hr.
    pose proof (qmax_lub (epsilonMin agent) (epsilon agent * (9 # 10))
                  (epsilon agent)) as Hu.
    assert (qmax (epsilonMin agent) (epsilon agent * (9 # 10))
            <= epsilon agent) as Hu' by (apply Hu; lra).
    repeat split; try assumption; try apply qmin_l; lra.
  - cbn [epsilon epsilonMin epsilonDecay].
    destruct (Hclamp (epsilonDecay agent)) as [Hc1 Hc2]; [lra|].
    repeat split; try assumption; try apply qmin_l; lra.
Qed.

Lemma run_won (eps : list episode) :
  forall (s : scheduler) (agent : tunable),
    configured s -> Forall won (history s) -> Forall won eps ->
    0 <= epsilon agent -> epsilonMin agent <= epsilon agent ->
    9 # 10 <= epsilonDecay agent ->
    epsilonDecay (run s agent eps).2 <= epsilonDecay agent
    /\ epsilon (run s agent eps).2 <= epsilon agent.
Proof.
  induction eps as [|ep eps IH]; intros s agent Hcfg Hall Heps He Hmin Hd.
  - cbn. lra.
  - inversion Heps as [|? ? Hep Hrest]; subst.
    cbn [run].
    pose proof (onEpisodeEnd_won s agent ep Hcfg Hall Hep He Hmin Hd) as Hstep.
    destruct (onEpisodeEnd s agent ep) as [s1 agent1].
    destruct Hstep as (Hcfg1 & Hall1 & He1 & Hmin1 & Hd1 & Hdle & Hele).
    destruct (IH s1 agent1 Hcfg1 Hall1 Hrest He1 Hmin1 Hd1) as [H1 H2].
    split; lra.
Qed.

Lemma onEpisodeEnd_floor (s : scheduler) (agent : tunable) (ep : episode) :
  epsilonMin (onEpisodeEnd s agent ep).2 <= epsilon (onEpisodeEnd s agent ep).2.
Proof.
  unfold onEpisodeEnd. cbv zeta.
  repeat match goal with
         | |- context [if ?b then _ else _] => destruct b
         end; cbn [snd epsilon epsilonMin]; apply qmin_l.
Qed.

End SchedulerFacts.

(** C9, as the code has it.  On a scheduler whose window holds no lost
    episode (a fresh scheduler for one), and an agent whose epsilon is
    not negative, whose floor is not above its epsilon and whose decay
    is at least 0.9, a run of won episodes, twenty or any other
    number, leaves the decay and epsilon at or under their values
    before the run.  After every call of [onEpisodeEnd], on any
    scheduler and agent, the agent's floor is not above its epsilon. *)
Theorem scheduler_winning_run (s : Scheduler.scheduler)
  (agent : Scheduler.tunable) (eps : list Scheduler.episode) :
  Scheduler.configured s ->
  Forall Scheduler.won (Scheduler.history s) ->
  Forall Scheduler.won eps ->
  0 <= Scheduler.epsilon agent ->
  Scheduler.epsilonMin agent <= Scheduler.epsilon agent ->
  9 # 10 <= Scheduler.epsilonDecay agent ->
  Scheduler.epsilonDecay (Scheduler.run s agent eps).2
  <= Scheduler.epsilonDecay agent
  /\ Scheduler.epsilon (Scheduler.run s agent eps).2
     <= Scheduler.epsilon agent
  /\ (forall s0 agent0 ep,
        Scheduler.epsilonMin (Scheduler.onEpisodeEnd s0 agent0 ep).2
        <= Scheduler.epsilon (Scheduler.onEpisodeEnd s0 agent0 ep).2).
Proof.
  intros Hcfg Hall Heps He Hmin Hd.
  destruct (SchedulerFacts.run_won eps s agent Hcfg Hall Heps He Hmin Hd)
    as [H1 H2].
  split; [exact H1|]. split; [exact H2|].
  exact SchedulerFacts.onEpisodeEnd_floor.
Qed.

(** [scheduler_winning_run] on a fresh scheduler and the agent of
    [Examples.tuned], for twenty won episodes *)
Lemma scheduler_winning_run_witness :
  Scheduler.epsilonDecay
    (Scheduler.run (Scheduler.create Enhanced.Classic 21) Examples.tuned
       (replicate 20 Examples.wonEpisode)).2
  <= 95 # 100
  /\ Scheduler.epsilon
       (Scheduler.run (Scheduler.create Enhanced.Classic 21) Examples.tuned
          (replicate 20 Examples.wonEpisode)).2
     <= 1 # 10.
Proof.
  destruct (scheduler_winning_run (Scheduler.create Enhanced.Classic 21)
              Examples.tuned (replicate 20 Examples.wonEpisode))
    as (H1 & H2 & _).
  - repeat split.
  - constructor.
  - apply Forall_replicate. reflexivity.
  - vm_compute. discriminate.
  - vm_compute. discriminate.
  - vm_compute. discriminate.
  - split; [exact H1 | exact H2].
Defined.

(** C9 as stated fails: after twenty lost episodes, a run of twenty
    won episodes takes the agent of [Examples.tuned] from epsilon 0.1
    to 0.177147; the first two wins still count as a losing window and
    raise epsilon. *)
Lemma winning_run_can_raise_epsilon :
  Scheduler.epsilon
    (Scheduler.run Examples.afterLosses Examples.tuned
       (replicate 20 Examples.wonEpisode)).2
  == 177147 # 1000000
  /\ ~ Scheduler.epsilon
        (Scheduler.run Examples.afterLosses Examples.tuned
           (replicate 20 Examples.wonEpisode)).2
      <= Scheduler.epsilon Examples.tuned.
Proof.
  split; [vm_compute; reflexivity|].
  vm_compute. intros H. apply H. reflexivity.
Qed.

(** ** The linear head *)

Module LinearFacts.
Import Grid Neural.

Lemma random_range (rnd : nat -> Q) (i : nat) :
  0 <= Rand.random rnd i /\ Rand.random rnd i < 1.
Proof.
  unfold Rand.random.
  pose proof (Qfloor_le (rnd i)) as Hlo.
  pose proof (Qlt_floor (rnd i)) as Hhi.
  rewrite inject_Z_plus in Hhi. change (inject_Z 1) with 1 in Hhi.
  split; lra.
Qed.

Lemma randomIndex_lt (rnd : nat -> Q) (i len : nat) :
  (0 < len)%nat -> (Rand.randomIndex rnd i len < len)%nat.
Proof.
  intros Hlen. unfold Rand.randomIndex.
  destruct (random_range rnd i) as [Hlo Hhi].
  set (r := Rand.random rnd i) in *.
  assert (0 < inject_Z (Z.of_nat len)) as Hpos
    by (change 0 with (inject_Z 0); apply inject_Z_lt; lia).
  assert (0 <= r * inject_Z (Z.of_nat len)) as Hy0 by nra.
  assert (r * inject_Z (Z.of_nat len) < inject_Z (Z.of_nat len)) as Hy1 by nra.
  pose proof (Qfloor_le (r * inject_Z (Z.of_nat len))) as Hfl.
  assert (0 <= Qfloor (r * inject_Z (Z.of_nat len)))%Z as Hf0.
  { change 0%Z with (Qfloor 0). now apply Qfloor_resp_le. }
  assert (Qfloor (r * inject_Z (Z.of_nat len)) < Z.of_nat len)%Z as Hf1.
  { rewrite Zlt_Qlt. lra. }
  lia.
Qed.

(** training touches the head only: the epsilon fields pass through *)
Lemma updateWeights_schedule (ag ag' : agent) (st : list Q) (a : Z) (err : Q) :
  updateWeights ag st a err = Some ag' ->
  epsilon ag' = epsilon ag /\ epsilonMin ag' = epsilonMin ag
  /\ epsilonDecay ag' = epsilonDecay ag.
Proof.
  unfold updateWeights. destruct (at_ _ _); [|discriminate].
  intros H. inversion H. auto.
Qed.

Lemma trainAll_schedule (rnd : nat -> Q) (batch : list experience) :
  forall (ag ag' : agent) (tot tot' : Q) (cur cur' : nat),
    trainAll rnd ag batch tot cur = Some (ag', tot', cur') ->
    epsilon ag' = epsilon ag /\ epsilonMin ag' = epsilonMin ag
    /\ epsilonDecay ag' = epsilonDecay ag.
Proof.
  induction batch as [|e batch IH]; intros ag ag' tot tot' cur cur' Hrun;
    cbn [trainAll] in Hrun.
  - inversion Hrun. auto.
  - destruct (trainOne rnd ag e cur) as [[[ag1 loss] cur1]|] eqn:Hone;
      [|discriminate].
    destruct (IH _ _ _ _ _ _ Hrun) as (H1 & H2 & H3).
    unfold trainOne in Hone.
    destruct (forwardPass rnd ag (expState e) (expAction e) cur) as [q c1].
    destruct (if expTerminal e then _ else _) as [tq c2].
    destruct (updateWeights ag (expState e) (expAction e) (tq - q))
      as [ag2|] eqn:Hup; [|discriminate].
    inversion Hone; subst.
    destruct (updateWeights_schedule _ _ _ _ _ Hup) as (E1 & E2 & E3).
    repeat split; congruence.
Qed.

End LinearFacts.

(** a training batch of the linear agent never raises epsilon, on
    agents whose epsilon is not negative and whose decay is at most 1 *)
Lemma linear_epsilon_monotone (rnd : nat -> Q) (ag ag' : Neural.agent)
  (cur cur' : nat) :
  Neural.trainOnBatch rnd ag cur = Some (ag', cur') ->
  0 <= Neural.epsilon ag -> Neural.epsilonDecay ag <= 1 ->
  Neural.epsilon ag' <= Neural.epsilon ag.
Proof.
  intros Hrun He Hd. unfold Neural.trainOnBatch in Hrun.
  destruct (_ <? _)%nat; [inversion Hrun; subst; lra|].
  destruct (Neural.sample _ _ _ _) as [batch|]; [|discriminate].
  destruct (Neural.trainAll _ _ _ _ _) as [[[ag1 tot] cur1]|] eqn:Hall;
    [|discriminate].
  destruct (LinearFacts.trainAll_schedule _ _ _ _ _ _ _ _ Hall)
    as (E1 & E2 & E3).
  inversion Hrun; subst. clear Hrun.
  cbn [Neural.epsilon Neural.with_schedule].
  destruct (Qlt_le_dec _ _); rewrite ?E1, ?E3; [nra | lra].
Qed.

(** ** The gradient update of the linear head *)

Module HeadFacts.
Import Grid Doubles LinearHead.

(** the two literals are the doubles nearest to 1/2 and to 5/100, and
    sums are rounded: 0.1 + 0.2 is not 0.3 *)
Lemma literals_nearest :
  half = div (ofZ 1) (ofZ 2)
  /\ twentieth = div (ofZ 5) (ofZ 100)
  /\ add (div (ofZ 1) (ofZ 10)) (div (ofZ 2) (ofZ 10))
     <> div (ofZ 3) (ofZ 10).
Proof. repeat split; vm_compute; congruence. Qed.












End HeadFacts.




(** ** The hybrid agent's update, where the bootstrap guard is present *)

Module HybridUpdateFacts.
Import Grid Hybrid.

Lemma getQValue_setQValue (t : gmap Z (gmap nat Q)) (s : cell) (a : nat)
  (v : Q) :
  getQValue (setQValue t s a v) s a = v.
Proof.
  unfold getQValue, setQValue. cbv zeta.
  now rewrite lookup_insert_eq, lookup_insert_eq.
Qed.

Lemma getQValue_setQValue_other (t : gmap Z (gmap nat Q)) (s s2 : cell)
  (a a2 : nat) (v : Q) :
  getStateKey s2.1 s2.2 <> getStateKey s.1 s.2 \/ a2 <> a ->
  getQValue (setQValue t s a v) s2 a2 = getQValue t s2 a2.
Proof.
  intros Hne. unfold getQValue, setQValue. cbv zeta.
  destruct (decide (getStateKey s2.1 s2.2 = getStateKey s.1 s.2)) as [Heq | Hk].
  - destruct Hne as [Hne | Ha]; [contradiction|].
    rewrite Heq, lookup_insert_eq, lookup_insert_ne by congruence.
    destruct (t !! getStateKey s.1 s.2); [reflexivity|].
    cbn. now rewrite lookup_empty.
  - now rewrite lookup_insert_ne by congruence.
Qed.

(** the key [(x << 16) | y] tells the cells of a maze apart as long as
    the column index fits in 16 bits and the row index in 15 *)
Lemma getStateKey_injective (x1 y1 x2 y2 : Z) :
  (0 <= x1 < 32768)%Z -> (0 <= y1 < 65536)%Z ->
  (0 <= x2 < 32768)%Z -> (0 <= y2 < 65536)%Z ->
  getStateKey x1 y1 = getStateKey x2 y2 -> x1 = x2 /\ y1 = y2.
Proof.
  intros Hx1 Hy1 Hx2 Hy2. unfold getStateKey.
  assert (forall x y, (0 <= x < 32768)%Z -> (0 <= y < 65536)%Z ->
            Z.lor (toInt32 (Z.shiftl (toInt32 x) 16)) (toInt32 y)
            = (x * 65536 + y)%Z) as Hkey.
  { intros x y Hx Hy.
    assert (toInt32 x = x) as -> by (unfold toInt32; rewrite Z.mod_small; lia).
    assert (toInt32 y = y) as -> by (unfold toInt32; rewrite Z.mod_small; lia).
    rewrite Z.shiftl_mul_pow2 by lia. change (2 ^ 16)%Z with 65536%Z.
    assert (toInt32 (x * 65536) = (x * 65536)%Z) as ->
      by (unfold toInt32; rewrite Z.mod_small; lia).
    assert (Z.land (x * 65536) y = 0%Z) as Hland.
    { apply Z.bits_inj'. intros n Hn. rewrite Z.land_spec, Z.bits_0.
      destruct (Z.lt_ge_cases n 16) as [Hlt | Hge].
      - replace (x * 65536)%Z with (x * 2 ^ 16)%Z by reflexivity.
        rewrite Z.mul_pow2_bits_low by lia. reflexivity.
      - destruct (Z.eq_dec y 0%Z) as [-> | Hy0];
          [rewrite Z.bits_0; apply andb_false_r|].
        rewrite (Z.bits_above_log2 y n); [apply andb_false_r | lia |].
        assert (Z.log2 y < 16)%Z by (apply Z.log2_lt_pow2; lia). lia. }
    rewrite <- (Z.lxor_lor _ _ Hland). symmetry.
    now apply Z.add_nocarry_lxor. }
  rewrite (Hkey x1 y1 Hx1 Hy1), (Hkey x2 y2 Hx2 Hy2). lia.
Qed.

(** what the loop of [updateQValue] ends with: at least the starting
    value and the value of every valid action, and equal to one of
    them *)
Lemma maxFuture_spec (ag : agent) (s : cell) (m : maze) (acts : list nat) :
  forall acc res,
    maxFuture ag s m acts acc = Some res ->
    (forall v, acc = Some v -> exists v', res = Some v' /\ v <= v')
    /\ (forall a,
          a ∈ acts -> isValidMove ag s a m = Some true ->
          exists v', res = Some v' /\ getQValue (qTable ag) s a <= v')
    /\ (res = acc
        \/ exists a,
            a ∈ acts /\ isValidMove ag s a m = Some true
            /\ res = Some (getQValue (qTable ag) s a)).
Proof.
  induction acts as [|a acts IH]; intros acc res Hrun; cbn [maxFuture] in Hrun.
  - inversion Hrun; subst. split; [|split].
    + intros v ->. exists v. split; [reflexivity | lra].
    + intros a Ha. inversion Ha.
    + now left.
  - destruct (isValidMove ag s a m) as [[|]|] eqn:Hvalid; [| |discriminate].
    + destruct (IH _ _ Hrun) as (H1 & H2 & H3).
      set (q := getQValue (qTable ag) s a) in *.
      split; [|split].
      * intros v ->.
        destruct (H1 _ eq_refl) as (v' & -> & Hle).
        exists v'. split; [reflexivity|].
        pose proof (qmax_l v q). lra.
      * intros a0 Ha0 Hv0. apply elem_of_cons in Ha0 as [-> | Ha0].
        -- destruct (H1 _ eq_refl) as (v' & -> & Hle).
           exists v'. split; [reflexivity|].
           destruct acc as [best|]; [|exact Hle].
           pose proof (qmax_r best q). fold q. lra.
        -- now apply H2.
      * destruct H3 as [-> | (a0 & Ha0 & Hv0 & ->)].
        -- destruct acc as [best|].
           ++ unfold qmax. destruct (Qlt_le_dec best q).
              ** right. exists a. split; [apply elem_of_cons; now left|].
                 split; [exact Hvalid | reflexivity].
              ** now left.
           ++ right. exists a. split; [apply elem_of_cons; now left|].
              split; [exact Hvalid | reflexivity].
        -- right. exists a0. split; [apply elem_of_cons; now right|].
           split; [exact Hv0 | reflexivity].
    + destruct (IH _ _ Hrun) as (H1 & H2 & H3).
      split; [exact H1|]. split.
      * intros a0 Ha0 Hv0. apply elem_of_cons in Ha0 as [-> | Ha0];
          [congruence | now apply H2].
      * destruct H3 as [-> | (a0 & Ha0 & Hv0 & ->)]; [now left|].
        right. exists a0. split; [apply elem_of_cons; now right|].
        split; [exact Hv0 | reflexivity].
Qed.

Lemma maxFuture_returns (ag : agent) (s : cell) (m : maze) (acts : list nat) :
  forall acc res,
    maxFuture ag s m acts acc = Some res ->
    forall a, a ∈ acts -> is_Some (isValidMove ag s a m).
Proof.
  induction acts as [|a0 acts IH]; intros acc res Hrun a Ha;
    [inversion Ha|].
  cbn [maxFuture] in Hrun.
  destruct (isValidMove ag s a0 m) as [[|]|] eqn:Hv; [| |discriminate];
    (apply elem_of_cons in Ha as [-> | Ha];
     [rewrite Hv; eauto | eapply IH; eauto]).
Qed.

End HybridUpdateFacts.

(** X6.  The update of the hybrid agent while it learns: the new value is
    [Q + lr * (r + gamma * best - Q)], where [best] is the greatest
    value of the actions valid in the next state and 0 when there is
    none; every other entry reads as before *)
Lemma hybrid_update_value (ag : Hybrid.agent) (old : Grid.cell) (a : nat)
  (new : Grid.cell) (r : Q) (m : Grid.maze) (best : option Q) :
  Hybrid.currentStrategy ag = Hybrid.Qlearning ->
  Hybrid.maxFuture ag new m [0; 1; 2; 3]%nat None = Some best ->
  exists ag',
    Hybrid.updateQValue ag old a new r m = Some ag'
    /\ Hybrid.getQValue (Hybrid.qTable ag') old a
       = Hybrid.getQValue (Hybrid.qTable ag) old a
         + Hybrid.learningRate ag
           * (r + Hybrid.gamma ag * default 0 best
              - Hybrid.getQValue (Hybrid.qTable ag) old a)
    /\ (forall s2 a2,
          Hybrid.getStateKey s2.1 s2.2 <> Hybrid.getStateKey old.1 old.2
          \/ a2 <> a ->
          Hybrid.getQValue (Hybrid.qTable ag') s2 a2
          = Hybrid.getQValue (Hybrid.qTable ag) s2 a2)
    /\ (best = None
        <-> forall a', a' ∈ [0; 1; 2; 3]%nat ->
                       Hybrid.isValidMove ag new a' m = Some false)
    /\ (forall v,
          best = Some v ->
          (exists a', a' ∈ [0; 1; 2; 3]%nat
                      /\ Hybrid.isValidMove ag new a' m = Some true
                      /\ v = Hybrid.getQValue (Hybrid.qTable ag) new a')
          /\ forall a', a' ∈ [0; 1; 2; 3]%nat ->
                        Hybrid.isValidMove ag new a' m = Some true ->
                        Hybrid.getQValue (Hybrid.qTable ag) new a' <= v).
Proof.
  intros Hstrat Hmax.
  destruct (HybridUpdateFacts.maxFuture_spec ag new m _ _ _ Hmax)
    as (_ & Hge & Hone).
  unfold Hybrid.updateQValue. rewrite Hstrat, Hmax. cbn [Hybrid.strategy_eqb negb].
  eexists. split; [reflexivity|].
  cbn [Hybrid.qTable Hybrid.with_qTable].
  split; [apply HybridUpdateFacts.getQValue_setQValue|].
  split; [intros s2 a2 Hne;
          now apply HybridUpdateFacts.getQValue_setQValue_other|].
  split.
  - split.
    + intros -> a' Ha'.
      destruct (HybridUpdateFacts.maxFuture_returns ag new m _ _ _ Hmax a' Ha')
        as [[|] Hv].
      * destruct (Hge a' Ha' Hv) as (v' & Heq & _). discriminate.
      * exact Hv.
    + intros Hnone. destruct Hone as [-> | (a' & Ha' & Hv & _)];
        [reflexivity|].
      rewrite (Hnone a' Ha') in Hv. discriminate.
  - intros v ->. split.
    + destruct Hone as [Heq | (a' & Ha' & Hv & Heq)]; [discriminate|].
      exists a'. inversion Heq. auto.
    + intros a' Ha' Hv. destruct (Hge a' Ha' Hv) as (v' & Heq & Hle).
      inversion Heq. now subst.
Qed.

(** ** The tabular agent's update, where some action is valid *)

Module TabularUpdateFacts.
Import JsNum Grid QLearning.

(** a missing row reads as a row of zeros *)
Lemma peek_row (t : gmap (Z * Z) (list num)) (s : cell) (a : nat) :
  peek t s a
  = default NaN (default (replicate 4 (Fin 0)) (t !! (s.1, s.2)) !! a).
Proof.
  unfold peek, getQValue, getStateKey. cbn [fst snd].
  destruct (t !! (s.1, s.2)) as [row|] eqn:Hrow.
  - now rewrite Hrow.
  - now rewrite lookup_insert_eq.
Qed.

(** the row the table holds for a state once it was read *)
Lemma read_row (t : gmap (Z * Z) (list num)) (s : cell) (a : nat)
  (k : Z * Z) :
  default (replicate 4 (Fin 0)) ((getQValue t s a).2 !! k)
  = default (replicate 4 (Fin 0)) (t !! k).
Proof.
  unfold getQValue, getStateKey. cbn [fst snd].
  destruct (t !! (s.1, s.2)) as [row|] eqn:Hrow; [reflexivity|].
  destruct (decide (k = (s.1, s.2))) as [-> | Hne].
  - now rewrite lookup_insert_eq, Hrow.
  - now rewrite lookup_insert_ne by congruence.
Qed.

(** reading creates rows of zeros, which read as the missing rows did *)
Lemma peek_after_read (t : gmap (Z * Z) (list num)) (s s2 : cell)
  (a a2 : nat) :
  peek (getQValue t s a).2 s2 a2 = peek t s2 a2.
Proof. now rewrite !peek_row, read_row. Qed.

Lemma arraySet_read {A : Type} (hole : A) (arr : list A) (i : nat) (v : A) :
  arraySet hole arr i v !! i = Some v.
Proof.
  unfold arraySet. destruct (i <? length arr)%nat eqn:Hi.
  - apply Nat.ltb_lt in Hi. now apply list_lookup_insert_eq.
  - apply Nat.ltb_ge in Hi.
    rewrite lookup_app_r by lia. rewrite lookup_app_r; rewrite length_replicate;
      [|lia].
    now replace (i - length arr - (i - length arr))%nat with 0%nat by lia.
Qed.

Lemma arraySet_read_other {A : Type} (hole : A) (arr : list A) (i j : nat)
  (v : A) :
  j <> i ->
  default hole (arraySet hole arr i v !! j) = default hole (arr !! j).
Proof.
  intros Hne. unfold arraySet. destruct (i <? length arr)%nat eqn:Hi.
  - now rewrite list_lookup_insert_ne by congruence.
  - apply Nat.ltb_ge in Hi.
    destruct (Nat.lt_ge_cases j (length arr)) as [Hj | Hj].
    + now rewrite lookup_app_l by lia.
    + rewrite (lookup_ge_None_2 arr j) by lia. rewrite lookup_app_r by lia.
      destruct (Nat.lt_ge_cases j i) as [Hji | Hji].
      * rewrite lookup_app_l by (rewrite length_replicate; lia).
        rewrite lookup_replicate_2 by lia. reflexivity.
      * rewrite lookup_ge_None_2; [reflexivity|].
        rewrite length_app, length_replicate. cbn. lia.
Qed.

Lemma setQValue_row (t : gmap (Z * Z) (list num)) (s : cell) (a : nat)
  (v : num) (k : Z * Z) :
  setQValue t s a v !! k
  = if decide (k = (s.1, s.2))
    then Some (arraySet NaN
                 (default (replicate 4 (Fin 0)) (t !! (s.1, s.2))) a v)
    else t !! k.
Proof.
  unfold setQValue, getStateKey. cbv zeta.
  destruct (decide (k = (s.1, s.2))) as [-> | Hne].
  - rewrite lookup_insert_eq.
    destruct (t !! (s.1, s.2)) as [row|] eqn:Hrow.
    + now rewrite Hrow.
    + now rewrite lookup_insert_eq.
  - rewrite lookup_insert_ne by congruence.
    destruct (t !! (s.1, s.2)); [reflexivity|].
    now rewrite lookup_insert_ne by congruence.
Qed.

Lemma peek_setQValue (t : gmap (Z * Z) (list num)) (s : cell) (a : nat)
  (v : num) :
  peek (setQValue t s a v) s a = v.
Proof.
  rewrite peek_row, setQValue_row.
  destruct (decide _) as [_ | Hne]; [|contradiction].
  cbn -[arraySet]. now rewrite arraySet_read.
Qed.

Lemma peek_setQValue_other (t : gmap (Z * Z) (list num)) (s s2 : cell)
  (a a2 : nat) (v : num) :
  s2 <> s \/ a2 <> a ->
  peek (setQValue t s a v) s2 a2 = peek t s2 a2.
Proof.
  intros Hne. rewrite !peek_row, setQValue_row.
  destruct (decide _) as [Heq | Hk]; [|reflexivity].
  destruct Hne as [Hne | Ha];
    [exfalso; apply Hne; destruct s, s2; cbn in Heq; congruence|].
  rewrite Heq. cbn -[arraySet]. now apply arraySet_read_other.
Qed.

(** the four terms of the maximum: for each action its value if it is
    valid in the next state, [-Infinity] otherwise; reading them leaves
    every value of the table as it was *)
Lemma futureQs_spec (ag : agent) (new : cell) (m : maze) (acts : list nat) :
  forall t qs t2,
    futureQs ag new m acts t = Some (qs, t2) ->
    (forall s2 a2, peek t2 s2 a2 = peek t s2 a2)
    /\ Forall2
         (fun a q =>
            (isValidMove ag new a m = Some true /\ q = peek t new a)
            \/ (isValidMove ag new a m = Some false /\ q = NegInf))
         acts qs.
Proof.
  induction acts as [|a acts IH]; intros t qs t2 Hrun; cbn [futureQs] in Hrun.
  - inversion Hrun; subst. split; [reflexivity | constructor].
  - destruct (isValidMove ag new a m) as [ok|] eqn:Hv; [|discriminate].
    destruct (if ok then getQValue t new a else (NegInf, t)) as [v t1] eqn:Hread.
    destruct (futureQs ag new m acts t1) as [[vs t3]|] eqn:Hrest;
      [|discriminate].
    inversion Hrun; subst; clear Hrun.
    destruct (IH _ _ _ Hrest) as [Hsame Hall].
    assert (forall s2 a2, peek t1 s2 a2 = peek t s2 a2) as Hsame1.
    { intros s2 a2. destruct ok.
      - replace t1 with (getQValue t new a).2 by now rewrite Hread.
        apply peek_after_read.
      - now inversion Hread. }
    split; [intros s2 a2; now rewrite Hsame, Hsame1|].
    constructor.
    + destruct ok; [left | right]; (split; [exact Hv|]).
      * unfold peek. now rewrite Hread.
      * now inversion Hread.
    + eapply Forall2_impl; [exact Hall|].
      intros a' q [[Hv' ->] | [Hv' ->]]; [left | right];
        (split; [exact Hv'|]); [apply Hsame1 | reflexivity].
Qed.

(** [Math.max] of finite values and [-Infinity]: [-Infinity] when all
    are, otherwise the greatest finite one *)
Lemma maxOf_from (l : list num) :
  Forall (fun q => q = NegInf \/ exists x, q = Fin x) l ->
  forall acc,
    (acc = NegInf \/ exists x, acc = Fin x) ->
    (fold_left max2 l acc = acc \/ fold_left max2 l acc ∈ l)
    /\ (fold_left max2 l acc = NegInf \/ exists x, fold_left max2 l acc = Fin x)
    /\ gt acc (fold_left max2 l acc) = false
    /\ Forall (fun q => gt q (fold_left max2 l acc) = false) l.
Proof.
  induction 1 as [|q l Hq Hl IH]; intros acc Hacc; cbn [fold_left].
  - repeat split; auto.
    destruct Hacc as [-> | [x ->]]; cbn; [reflexivity|].
    destruct (Qlt_le_dec x x); [lra | reflexivity].
  - assert (max2 acc q = acc \/ max2 acc q = q) as Hpick.
    { destruct Hacc as [-> | [x ->]], Hq as [-> | [y ->]]; cbn; auto.
      destruct (Qlt_le_dec x y); auto. }
    assert (max2 acc q = NegInf \/ exists x, max2 acc q = Fin x) as Hfin
      by (destruct Hpick as [-> | ->]; assumption).
    assert (gt acc (max2 acc q) = false /\ gt q (max2 acc q) = false)
      as [Hacc_le Hq_le].
    { destruct Hacc as [-> | [x ->]], Hq as [-> | [y ->]]; cbn; auto.
      - destruct (Qlt_le_dec y y); [lra | auto].
      - destruct (Qlt_le_dec x x); [lra | auto].
      - destruct (Qlt_le_dec x y); cbn.
        + destruct (Qlt_le_dec y x), (Qlt_le_dec y y); auto; lra.
        + destruct (Qlt_le_dec x x), (Qlt_le_dec x y); auto; lra. }
    destruct (IH (max2 acc q) Hfin) as (Hone & Hres & Hge & Hall).
    assert (forall a b c,
              (a = NegInf \/ exists x, a = Fin x) ->
              (b = NegInf \/ exists x, b = Fin x) ->
              (c = NegInf \/ exists x, c = Fin x) ->
              gt a b = false -> gt b c = false -> gt a c = false) as Htrans.
    { intros a b c [-> | [x ->]] [-> | [y ->]] [-> | [z ->]]; cbn; auto;
        try discriminate.
      destruct (Qlt_le_dec y x), (Qlt_le_dec z y), (Qlt_le_dec z x);
        auto; lra. }
    split; [|split; [exact Hres|split]].
    + destruct Hone as [Heq | Hin].
      * rewrite Heq. destruct Hpick as [-> | ->]; [now left|].
        right. apply elem_of_cons. now left.
      * right. apply elem_of_cons. now right.
    + exact (Htrans acc (max2 acc q) _ Hacc Hfin Hres Hacc_le Hge).
    + constructor; [|exact Hall].
      exact (Htrans q (max2 acc q) _ Hq Hfin Hres Hq_le Hge).
Qed.

(** on a table of finite values the maximum of the four terms is
    [-Infinity] exactly when no action is valid in the next state, and
    otherwise the greatest value of a valid action *)
Lemma bootstrap_cases (ag : agent) (new : cell) (m : maze)
  (t : gmap (Z * Z) (list num)) (acts : list nat) (qs : list num) :
  Forall2
    (fun a q =>
       (isValidMove ag new a m = Some true /\ q = peek t new a)
       \/ (isValidMove ag new a m = Some false /\ q = NegInf))
    acts qs ->
  (forall a, a ∈ acts -> exists x, peek t new a = Fin x) ->
  (maxOf qs = NegInf
   /\ forall a, a ∈ acts -> isValidMove ag new a m = Some false)
  \/ (exists a v,
        a ∈ acts /\ isValidMove ag new a m = Some true
        /\ peek t new a = Fin v /\ maxOf qs = Fin v
        /\ forall a' x,
            a' ∈ acts -> isValidMove ag new a' m = Some true ->
            peek t new a' = Fin x -> x <= v).
Proof.
  intros Hrel Hfinite.
  assert (Forall (fun q => q = NegInf \/ exists x, q = Fin x) qs) as Hqs.
  { apply Forall_forall. intros q Hq.
    apply list_elem_of_lookup in Hq as [i Hi].
    destruct (Forall2_lookup_r _ _ _ _ _ Hrel Hi) as (a & Ha & Hcase).
    destruct Hcase as [[_ ->] | [_ ->]]; [right | now left].
    apply Hfinite. apply list_elem_of_lookup. eauto. }
  destruct (maxOf_from qs Hqs NegInf (or_introl eq_refl))
    as (Hone & Hres & _ & Hall).
  fold (maxOf qs) in *.
  assert (forall a, a ∈ acts ->
            exists q, q ∈ qs
                      /\ ((isValidMove ag new a m = Some true
                           /\ q = peek t new a)
                          \/ (isValidMove ag new a m = Some false
                              /\ q = NegInf))) as Hleft.
  { intros a Ha. apply list_elem_of_lookup in Ha as [i Hi].
    destruct (Forall2_lookup_l _ _ _ _ _ Hrel Hi) as (q & Hq & Hcase).
    exists q. split; [apply list_elem_of_lookup; eauto | exact Hcase]. }
  destruct Hres as [Hneg | [v Hv]].
  - left. split; [exact Hneg|].
    intros a Ha. destruct (Hleft a Ha) as (q & Hq & [[Hvalid ->] | [Hinv _]]);
      [|exact Hinv].
    destruct (Hfinite a Ha) as [x Hx].
    rewrite Forall_forall in Hall. specialize (Hall _ Hq).
    rewrite Hneg, Hx in Hall. discriminate.
  - right.
    destruct Hone as [Heq | Hin]; [congruence|].
    apply list_elem_of_lookup in Hin as [i Hi].
    destruct (Forall2_lookup_r _ _ _ _ _ Hrel Hi) as (a & Ha & Hcase).
    destruct Hcase as [[Hvalid Hq] | [_ Hq]]; [|congruence].
    exists a, v. split; [apply list_elem_of_lookup; eauto|].
    split; [exact Hvalid|]. split; [congruence|]. split; [exact Hv|].
    intros a' x Ha' Hvalid' Hx.
    destruct (Hleft a' Ha') as (q & Hq' & [[_ ->] | [Hinv _]]); [|congruence].
    rewrite Forall_forall in Hall. specialize (Hall _ Hq').
    rewrite Hv, Hx in Hall. cbn in Hall.
    destruct (Qlt_le_dec v x); [discriminate | assumption].
Qed.

End TabularUpdateFacts.

(** X7.  The update of the tabular agent: the value stored is
    [Q + lr * (r + gamma * max - Q)] with [max] the [Math.max] of the
    four terms, and every other entry reads as before.  With finite
    values and a valid action in the next state the maximum is finite
    and the stored value is the rational the formula gives. *)
Lemma tabular_update_value (ag : QLearning.agent) (old : Grid.cell) (a : nat)
  (new : Grid.cell) (r : JsNum.num) (m : Grid.maze) (qs : list JsNum.num)
  (t2 : gmap (Z * Z) (list JsNum.num)) :
  QLearning.futureQs ag new m [0; 1; 2; 3]%nat
    (QLearning.getQValue (QLearning.qTable ag) old a).2 = Some (qs, t2) ->
  exists ag',
    QLearning.updateQValue ag old a new r m = Some ag'
    /\ QLearning.peek (QLearning.qTable ag') old a
       = JsNum.add (QLearning.peek (QLearning.qTable ag) old a)
           (JsNum.mul (JsNum.Fin (QLearning.learningRate ag))
              (JsNum.sub
                 (JsNum.add r
                    (JsNum.mul (JsNum.Fin (QLearning.gamma ag))
                       (JsNum.maxOf qs)))
                 (QLearning.peek (QLearning.qTable ag) old a)))
    /\ (forall s2 a2,
          s2 <> old \/ a2 <> a ->
          QLearning.peek (QLearning.qTable ag') s2 a2
          = QLearning.peek (QLearning.qTable ag) s2 a2)
    /\ Forall2
         (fun a' q =>
            (QLearning.isValidMove ag new a' m = Some true
             /\ q = QLearning.peek (QLearning.qTable ag) new a')
            \/ (QLearning.isValidMove ag new a' m = Some false
                /\ q = JsNum.NegInf))
         [0; 1; 2; 3]%nat qs
    /\ (forall q rr v,
          QLearning.peek (QLearning.qTable ag) old a = JsNum.Fin q ->
          r = JsNum.Fin rr ->
          JsNum.maxOf qs = JsNum.Fin v ->
          QLearning.peek (QLearning.qTable ag') old a
          = JsNum.Fin
              (q + QLearning.learningRate ag
                   * (rr + QLearning.gamma ag * v - q))).
Proof.
  intros Hfut.
  destruct (TabularUpdateFacts.futureQs_spec ag new m _ _ _ _ Hfut)
    as [Hsame Hall].
  unfold QLearning.updateQValue.
  destruct (QLearning.getQValue (QLearning.qTable ag) old a) as [cur t1] eqn:Hcur.
  cbn [snd] in Hfut. rewrite Hfut.
  assert (cur = QLearning.peek (QLearning.qTable ag) old a) as Hc
    by (unfold QLearning.peek; now rewrite Hcur).
  assert (forall s2 a2, QLearning.peek t1 s2 a2
                        = QLearning.peek (QLearning.qTable ag) s2 a2) as Hsame1.
  { intros s2 a2.
    replace t1 with (QLearning.getQValue (QLearning.qTable ag) old a).2
      by now rewrite Hcur.
    apply TabularUpdateFacts.peek_after_read. }
  eexists. split; [reflexivity|].
  cbn [QLearning.qTable QLearning.with_qTable].
  rewrite TabularUpdateFacts.peek_setQValue, <- Hc.
  split; [reflexivity|]. split; [|split].
  - intros s2 a2 Hne.
    rewrite TabularUpdateFacts.peek_setQValue_other by exact Hne.
    cbn [snd] in Hsame. now rewrite Hsame, Hsame1.
  - eapply Forall2_impl; [exact Hall|].
    intros a' q [[Hv ->] | [Hv ->]]; [left | right]; auto.
  - intros q rr v Hq -> Hv. rewrite Hv, Hq. reflexivity.
Qed.

(** ** The definitions at work *)

Module Checks.

(** the oracle on the ring maze goes around the top and the right *)
Example oracle_on_ring :
  FastMazeSolver.oracle Examples.ring (1, 1)%Z
  = Some [(1, 1); (1, 2); (1, 3); (2, 3); (3, 3)]%Z.
Proof. vm_compute. reflexivity. Qed.

(** and finds no route out of a walled-in start *)
Example oracle_walled_in :
  FastMazeSolver.solveMazeAStar (FastMazeSolver.enoughFuel Examples.walledStart)
    Examples.walledStart (1, 1)%Z = Some None.
Proof. vm_compute. reflexivity. Qed.

(** the cells the moving parts occupy *)
Example moving_wall_cells :
  map (Dynamic.getMovingWallCells Examples.movingParts)
      (Dynamic.movingWalls Examples.movingParts)
  = [[(2, 2); (3, 2); (4, 2)]]%Z.
Proof. reflexivity. Qed.

Example rotating_section_cells :
  map (Dynamic.getRotatingSectionCells Examples.movingParts)
      (Dynamic.rotatingSections Examples.movingParts)
  = [[(3, 3); (3, 7); (7, 3); (7, 7)]]%Z.
Proof. reflexivity. Qed.

Example blocked_cells :
  Dynamic.isBlocked Examples.movingParts 3 2 = true
  /\ Dynamic.isBlocked Examples.movingParts 2 3 = false
  /\ Dynamic.isBlocked Examples.movingParts 7 7 = true
  /\ Dynamic.isBlocked Examples.movingParts 7 5 = false.
Proof. repeat split. Qed.

(** the valid actions of the tabular agent at the start of the ring:
    right and down *)
Example valid_actions_on_ring :
  QLearning.validActionsFromState Examples.tabular5 (1, 1)%Z Examples.ring
  = Some [1; 2]%nat.
Proof. reflexivity. Qed.

(** the planner on the ring maze, thirty passes, with the identity
    standing in for the square root and the logarithm: it answers
    action 2, down *)
Example planner_on_ring :
  MCTS.mctsPlan Examples.ring Examples.plannerMoves
    (QLearning.simStep Examples.tabular5) Examples.plannerValue 25 (12 # 10)
    (fun x => x) (fun x => x) Examples.draws 30 (1, 1)%Z
  = 2%nat.
Proof. vm_compute. reflexivity. Qed.

(** twenty wins on a fresh scheduler take the agent of
    [Examples.tuned] to its floor *)
Example twenty_wins :
  (Scheduler.run (Scheduler.create Enhanced.Classic 21) Examples.tuned
     (replicate 20 Examples.wonEpisode)).2
  = {| Scheduler.epsilon := 5 # 100; Scheduler.epsilonMin := 5 # 100;
       Scheduler.epsilonDecay := 9 # 10 |}.
Proof. vm_compute. reflexivity. Qed.

(** the names of the fifteen actions are told apart *)
Example action_indices :
  map Neural.indexOf Neural.actions
  = [0; 1; 2; 3; 4; 5; 6; 7; 8; 9; 10; 11; 12; 13; 14]%Z.
Proof. reflexivity. Qed.

(** an agent built on more than 1000 cells is a large-maze agent and
    starts in the pathfinding strategy *)
Lemma create_large (solver : Grid.maze -> Grid.cell -> option (list Grid.cell))
  (w h : Z) (o : Hybrid.options) :
  (1000 < w * h)%Z ->
  Hybrid.isLargeMaze (Hybrid.create solver w h o) = true
  /\ Hybrid.currentStrategy (Hybrid.create solver w h o) = Hybrid.Pathfinding
  /\ Hybrid.fastSolver (Hybrid.create solver w h o) = solver.
Proof.
  intros Hsize. cbn.
  replace (1000 <? w * h)%Z with true by (symmetry; apply Z.ltb_lt; lia).
  auto.
Qed.

End Checks.

(** ** The path oracle *)

Module SearchFacts.
Import Grid FastMazeSolver.

Lemma last_default_cons (a c : cell) (l : list cell) :
  default a (last (c :: l)) = default c (last l).
Proof. rewrite last_cons. now destruct (last l). Qed.

Lemma walk_app m a l b :
  walk m a (l ++ [b])
  = walk m a l && (adjacent (default a (last l)) b && isValidMove m b.1 b.2).
Proof.
  revert a. induction l as [|c l IH]; intros a.
  - cbn. now rewrite andb_true_r.
  - cbn [walk app]. rewrite IH, last_default_cons.
    now rewrite <- !andb_assoc.
Qed.

(** the path a well-formed node stands for is a route to its cell *)
Lemma wellFormed_route (m : maze) (start goal : cell) :
  forall n, wellFormed m start goal n ->
    route m start (nodePos n) (reconstructPath n) = true.
Proof.
  fix IH 1. intros [p g h f [q|]] H; cbn [wellFormed] in H.
  - destruct H as (Hq & Hadj & Hvalid & _).
    specialize (IH q Hq). cbn [reconstructPath nodePos].
    unfold route in *.
    destruct (reconstructPath q) as [|a rest] eqn:E; [discriminate|].
    cbn [app]. apply andb_true_iff in IH as [IH Hlast].
    apply andb_true_iff in IH as [Hhead Hwalk].
    rewrite Hhead, walk_app, Hwalk. cbn [andb].
    apply bool_decide_eq_true in Hlast.
    change (a :: rest ++ [p]) with ((a :: rest) ++ [p]).
    rewrite last_snoc, bool_decide_eq_true_2 by reflexivity.
    rewrite andb_true_r.
    rewrite <- (last_default_cons a a rest), Hlast.
    cbn [default from_option id].
    now rewrite Hadj, Hvalid.
  - destruct H as (-> & _). cbn. now rewrite !bool_decide_eq_true_2.
Qed.

Lemma insertByF_Forall (P : node -> Prop) n l :
  P n -> Forall P l -> Forall P (insertByF n l).
Proof.
  intros Hn Hl. induction Hl as [|x l Hx Hl IH]; cbn.
  - now constructor.
  - destruct (nodeF n <=? nodeF x)%Z; repeat constructor; auto.
Qed.

Lemma sortByF_Forall (P : node -> Prop) l :
  Forall P l -> Forall P (sortByF l).
Proof.
  unfold sortByF. induction 1; cbn; [constructor|].
  now apply insertByF_Forall.
Qed.

Lemma gridCells_length m :
  length (gridCells m) = (length m * length (default [] (head m)))%nat.
Proof.
  unfold gridCells. now rewrite length_map, length_prod, !length_seq.
Qed.

Lemma gridCells_elem m p : inGrid m p = true -> p ∈ gridCells m.
Proof.
  unfold inGrid, gridCells. intros H.
  repeat (apply andb_true_iff in H as [H ?]).
  apply list_elem_of_fmap. exists (Z.to_nat p.1, Z.to_nat p.2). split.
  - destruct p as [x y]; cbn in *. f_equal; lia.
  - apply list_elem_of_In, in_prod_iff. rewrite !in_seq. cbn. lia.
Qed.

Lemma filter_closing (c : cell) (closed : gset (Z * Z)) (l : list cell) :
  c ∈ l -> c ∉ closed ->
  (length (filter (fun x => x ∉ {[c]} ∪ closed) l)
   < length (filter (fun x => x ∉ closed) l))%nat.
Proof.
  intros Hin Hc.
  assert (forall l', length (filter (fun x => x ∉ {[c]} ∪ closed) l')
                     <= length (filter (fun x => x ∉ closed) l'))%nat as Hle.
  { induction l' as [|x l' IH]; [reflexivity|].
    rewrite !filter_cons.
    destruct (decide (x ∉ {[c]} ∪ closed)) as [H1|H1];
      destruct (decide (x ∉ closed)) as [H2|H2]; cbn; try lia.
    exfalso. apply H1. set_solver. }
  induction l as [|x l IH]; [now apply elem_of_nil in Hin|].
  rewrite !filter_cons. apply elem_of_cons in Hin as [<- | Hin].
  - rewrite decide_False by set_solver. rewrite decide_True by exact Hc.
    cbn. specialize (Hle l). lia.
  - specialize (IH Hin).
    destruct (decide (x ∉ {[c]} ∪ closed)) as [H1|H1];
      destruct (decide (x ∉ closed)) as [H2|H2]; cbn; try lia.
    exfalso. apply H1. set_solver.
Qed.

Lemma insertByF_length n l : length (insertByF n l) = S (length l).
Proof.
  induction l as [|x l IH]; cbn; [reflexivity|].
  destruct (nodeF n <=? nodeF x)%Z; cbn; [reflexivity|]. now rewrite IH.
Qed.

Lemma sortByF_length l : length (sortByF l) = length l.
Proof.
  unfold sortByF. induction l as [|x l IH]; cbn; [reflexivity|].
  now rewrite insertByF_length, IH.
Qed.

Lemma expand_length m goal closed current :
  forall dirs openSet seen,
    (length (expand m goal closed current dirs openSet seen).1
     <= length openSet + length dirs)%nat.
Proof.
  induction dirs as [|[dx dy] rest IH]; intros openSet seen; cbn [expand].
  - cbn. lia.
  - destruct (_ && negb _); [|specialize (IH openSet seen); cbn; lia].
    destruct (match seen !! _ with Some _ => _ | None => _ end);
      [|specialize (IH openSet seen); cbn; lia].
    match goal with |- context [expand _ _ _ _ _ ?o ?s] =>
      specialize (IH o s) end.
    rewrite length_app in IH. cbn in *. lia.
Qed.

Lemma expand_inGrid m goal closed current :
  forall dirs openSet seen,
    Forall (fun n => inGrid m (nodePos n) = true) openSet ->
    Forall (fun n => inGrid m (nodePos n) = true)
      (expand m goal closed current dirs openSet seen).1.
Proof.
  induction dirs as [|[dx dy] rest IH]; intros openSet seen Ho; cbn [expand].
  - exact Ho.
  - destruct (_ && negb _) eqn:Hok; [|now apply IH].
    destruct (match seen !! _ with Some _ => _ | None => _ end);
      [|now apply IH].
    apply IH. apply Forall_app. split; [exact Ho|]. repeat constructor.
    cbn [nodePos]. unfold inGrid. cbn [fst snd].
    apply andb_true_iff in Hok as [Hok _].
    apply andb_true_iff in Hok as [Hok _]. exact Hok.
Qed.

Lemma search_returns m goal :
  forall fuel openSet closed seen,
    Forall (fun n => inGrid m (nodePos n) = true) openSet ->
    (length openSet + 4 * unclosed m closed < fuel)%nat ->
    search fuel m goal openSet closed seen <> None.
Proof.
  induction fuel as [|k IH]; intros openSet closed seen Ho Hfuel; [lia|].
  cbn [search].
  pose proof (sortByF_length openSet) as Hlen.
  apply (sortByF_Forall _ _) in Ho.
  destruct (sortByF openSet) as [|current rest]; [discriminate|].
  apply Forall_cons in Ho as [Hc Hrest]. cbn [length] in Hlen.
  destruct (bool_decide (nodePos current ∈ closed)) eqn:Hcl.
  - apply IH; [exact Hrest|lia].
  - destruct (_ && _); [discriminate|].
    destruct (expand _ _ _ _ _ _ _) as [open1 seen1] eqn:E.
    apply bool_decide_eq_false in Hcl.
    pose proof (expand_length m goal ({[nodePos current]} ∪ closed) current
                  actions rest seen) as Hgrow.
    pose proof (expand_inGrid m goal ({[nodePos current]} ∪ closed) current
                  actions rest seen Hrest) as Hin.
    rewrite E in Hgrow, Hin. cbn [fst] in Hgrow, Hin.
    pose proof (filter_closing (nodePos current) closed (gridCells m)
                  (gridCells_elem m _ Hc) Hcl) as Hdrop.
    apply IH; [exact Hin|]. unfold unclosed in *. cbn [length actions] in Hgrow.
    lia.
Qed.

Lemma unclosed_le m closed :
  (unclosed m closed <= length m * length (default [] (head m)))%nat.
Proof. unfold unclosed. rewrite <- gridCells_length. apply length_filter. Qed.

Lemma insertByF_Exists (P : node -> Prop) n l :
  Exists P (insertByF n l) <-> P n \/ Exists P l.
Proof.
  induction l as [|x l IH]; cbn.
  - rewrite Exists_cons. tauto.
  - destruct (nodeF n <=? nodeF x)%Z; rewrite !Exists_cons; [tauto|].
    rewrite IH. tauto.
Qed.

Lemma sortByF_Exists (P : node -> Prop) l :
  Exists P (sortByF l) <-> Exists P l.
Proof.
  unfold sortByF. induction l as [|x l IH]; cbn; [tauto|].
  rewrite insertByF_Exists, IH, Exists_cons. tauto.
Qed.

Lemma adjacent_offset (a b : cell) :
  adjacent a b = true ->
  exists d, d ∈ actions /\ b = ((a.1 + d.1)%Z, (a.2 + d.2)%Z).
Proof.
  unfold adjacent. intros H. apply existsb_exists in H as (d & Hd & H).
  exists d. split; [now apply list_elem_of_In|].
  apply andb_true_iff in H as [H1 H2]. apply Z.eqb_eq in H1, H2.
  destruct b; cbn in *; congruence.
Qed.

Lemma wellFormed_f m start goal n :
  wellFormed m start goal n -> nodeF n = (nodeG n + heuristic (nodePos n) goal)%Z.
Proof. destruct n as [p g h f [q|]]; cbn; tauto. Qed.

Lemma wellFormed_steps m start goal :
  forall n, wellFormed m start goal n ->
            Z.of_nat (length (reconstructPath n)) = (nodeG n + 1)%Z.
Proof.
  fix IH 1. intros [p g h f [q|]] H; cbn [wellFormed] in H.
  - destruct H as (Hq & _ & _ & -> & _). specialize (IH q Hq).
    cbn [reconstructPath nodeG]. rewrite length_app. cbn [length]. lia.
  - destruct H as (_ & -> & _). reflexivity.
Qed.

Lemma adjacent_heuristic (a b goal : cell) :
  adjacent a b = true -> (heuristic a goal <= heuristic b goal + 1)%Z.
Proof.
  intros H. apply adjacent_offset in H as (d & Hd & ->).
  unfold heuristic, manhattan, actions in *. cbn [fst snd].
  repeat (apply elem_of_cons in Hd as [->|Hd]; [cbn [fst snd]; lia|]).
  now apply elem_of_nil in Hd.
Qed.

Lemma walk_heuristic (m : maze) (goal : cell) :
  forall (rest : list cell) (a p : cell),
    walk m a rest = true -> last (a :: rest) = Some p ->
    (heuristic a goal <= heuristic p goal + Z.of_nat (length rest))%Z.
Proof.
  induction rest as [|b rest IH]; intros a p Hw Hl.
  - cbn in Hl. injection Hl as ->. cbn. lia.
  - cbn [walk] in Hw. apply andb_true_iff in Hw as [Hw Hrest].
    apply andb_true_iff in Hw as [Hadj _].
    rewrite last_cons_cons in Hl. specialize (IH b p Hrest Hl).
    pose proof (adjacent_heuristic a b goal Hadj). cbn [length]. lia.
Qed.

Lemma route_snoc (m : maze) (start a b : cell) (pre : list cell) :
  route m start a pre = true -> adjacent a b = true ->
  isValidMove m b.1 b.2 = true ->
  route m start b (pre ++ [b]) = true.
Proof.
  unfold route. intros H Hadj Hvalid.
  destruct pre as [|x rest]; [discriminate|].
  apply andb_true_iff in H as [H Hlast].
  apply andb_true_iff in H as [Hhead Hwalk].
  apply bool_decide_eq_true in Hlast. cbn [app].
  rewrite Hhead, walk_app, Hwalk. cbn [andb].
  change (x :: rest ++ [b]) with ((x :: rest) ++ [b]).
  rewrite last_snoc, bool_decide_eq_true_2 by reflexivity.
  rewrite andb_true_r.
  rewrite <- (last_default_cons x x rest), Hlast. cbn [default from_option id].
  now rewrite Hadj, Hvalid.
Qed.

Lemma bounded_le closed openSet v b b' :
  (b <= b')%Z -> bounded closed openSet v b -> bounded closed openSet v b'.
Proof.
  intros Hle [H|H]; [now left|right].
  eapply Exists_impl; [exact H|]. cbn. intros n [? ?]. split; [assumption|lia].
Qed.

Lemma bounded_app closed openSet extra v b :
  bounded closed openSet v b -> bounded closed (openSet ++ extra) v b.
Proof.
  intros [H|H]; [now left|right]. apply Exists_app. now left.
Qed.

Lemma frontier_bound m start goal openSet closed :
  Forall (wellFormed m start goal) openSet ->
  (forall (c v : cell) (r : list cell),
     c ∈ closed -> adjacent c v = true -> isValidMove m v.1 v.2 = true ->
     route m start c r = true ->
     bounded closed openSet v (Z.of_nat (length r))) ->
  forall (rest pre : list cell) (a p : cell),
    route m start a pre = true ->
    bounded closed openSet a (Z.of_nat (length pre) - 1) ->
    walk m a rest = true -> last (a :: rest) = Some p -> p ∉ closed ->
    Exists (fun n => (nodeF n <= Z.of_nat (length pre) - 1
                                 + Z.of_nat (length rest)
                                 + heuristic p goal)%Z) openSet.
Proof.
  intros Hwf Hclosed.
  assert (forall (rest : list cell) (a p : cell) (j : Z),
            Exists (fun n => nodePos n = a /\ (nodeG n <= j)%Z) openSet ->
            walk m a rest = true -> last (a :: rest) = Some p ->
            Exists (fun n => (nodeF n <= j + Z.of_nat (length rest)
                                         + heuristic p goal)%Z) openSet)
    as Hnode.
  { intros rest a p j Hex Hw Hl.
    apply Exists_exists in Hex as (n & Hn & Hpos & Hg).
    apply Exists_exists. exists n. split; [exact Hn|].
    rewrite Forall_forall in Hwf.
    rewrite (wellFormed_f m start goal n (Hwf n Hn)), Hpos.
    pose proof (walk_heuristic m goal rest a p Hw Hl). lia. }
  induction rest as [|b rest IH]; intros pre a p Hroute Hb Hw Hl Hp.
  - destruct Hb as [Hb|Hb]; [|now apply (Hnode [] a p)].
    cbn in Hl. injection Hl as ->. contradiction.
  - destruct Hb as [Hb|Hb]; [|now apply (Hnode (b :: rest) a p)].
    cbn [walk] in Hw. apply andb_true_iff in Hw as [Hw Hrest].
    apply andb_true_iff in Hw as [Hadj Hvalid].
    rewrite last_cons_cons in Hl.
    pose proof (route_snoc m start a b pre Hroute Hadj Hvalid) as Hroute'.
    pose proof (Hclosed a b pre Hb Hadj Hvalid Hroute) as Hb'.
    specialize (IH (pre ++ [b]) b p Hroute').
    rewrite length_app in IH. cbn [length] in IH.
    eapply Exists_impl; [apply IH; auto|].
    + eapply bounded_le; [|exact Hb']. lia.
    + cbn. intros n Hn. cbn [length]. lia.
Qed.

Lemma insertByF_sorted n l :
  StronglySorted (fun a b => (nodeF a <= nodeF b)%Z) l ->
  StronglySorted (fun a b => (nodeF a <= nodeF b)%Z) (insertByF n l).
Proof.
  induction 1 as [|x l Hs IH Hx]; cbn.
  - repeat constructor.
  - destruct (nodeF n <=? nodeF x)%Z eqn:E.
    + apply Z.leb_le in E. constructor; [now constructor|].
      constructor; [exact E|]. eapply Forall_impl; [exact Hx|].
      cbn. intros. lia.
    + apply Z.leb_gt in E. constructor; [exact IH|].
      apply insertByF_Forall; [lia|exact Hx].
Qed.

Lemma sortByF_sorted l :
  StronglySorted (fun a b => (nodeF a <= nodeF b)%Z) (sortByF l).
Proof.
  unfold sortByF. induction l as [|x l IH]; cbn; [constructor|].
  now apply insertByF_sorted.
Qed.

Lemma sortByF_Forall_back (P : node -> Prop) l :
  Forall P (sortByF l) -> Forall P l.
Proof.
  intros H. apply Forall_forall. intros n Hn.
  rewrite Forall_forall in H. apply H.
  assert (Exists (eq n) (sortByF l)) as Hex.
  { apply sortByF_Exists. apply Exists_exists. eauto. }
  apply Exists_exists in Hex as (n' & Hin & ->). exact Hin.
Qed.

Lemma bounded_sort closed openSet v b :
  bounded closed openSet v b <-> bounded closed (sortByF openSet) v b.
Proof. unfold bounded. now rewrite sortByF_Exists. Qed.

Lemma expand_bounded m start goal closed current :
  wellFormed m start goal current ->
  forall dirs openSet seen,
    Forall (fun d => d ∈ actions) dirs ->
    Forall (wellFormed m start goal) openSet ->
    (forall v g0, seen !! v = Some g0 -> bounded closed openSet v g0) ->
    Forall (wellFormed m start goal)
      (expand m goal closed current dirs openSet seen).1
    /\ (forall v b, bounded closed openSet v b ->
          bounded closed (expand m goal closed current dirs openSet seen).1 v b)
    /\ (forall v g0,
          (expand m goal closed current dirs openSet seen).2 !! v = Some g0 ->
          bounded closed (expand m goal closed current dirs openSet seen).1 v g0)
    /\ (forall d, d ∈ dirs ->
          isValidMove m ((nodePos current).1 + d.1) ((nodePos current).2 + d.2)
          = true ->
          bounded closed (expand m goal closed current dirs openSet seen).1
            (((nodePos current).1 + d.1)%Z, ((nodePos current).2 + d.2)%Z)
            (nodeG current + 1)).
Proof.
  intros Hcur.
  induction dirs as [|[dx dy] rest IH]; intros openSet seen Hdirs Hwf Hseen.
  - cbn [expand fst snd]. repeat split; auto.
    intros d Hd. now apply elem_of_nil in Hd.
  - apply Forall_cons in Hdirs as [Hd0 Hdirs]. cbn [expand].
    set (v0 := (((nodePos current).1 + dx)%Z, ((nodePos current).2 + dy)%Z)).
    set (fresh := Node v0 (nodeG current + 1) (heuristic v0 goal)
                    (nodeG current + 1 + heuristic v0 goal) (Some current)).
    assert (bounded closed (openSet ++ [fresh]) v0 (nodeG current + 1))
      as Hfresh.
    { right. apply Exists_app. right. constructor. split; [reflexivity|].
      cbn. lia. }
    destruct (_ && negb _) eqn:Hok.
    + assert (Forall (wellFormed m start goal) (openSet ++ [fresh])) as Hwf'.
      { apply Forall_app. split; [exact Hwf|]. repeat constructor; auto.
        - cbn [nodePos]. unfold adjacent. apply existsb_exists.
          exists (dx, dy). split; [now apply list_elem_of_In|].
          cbn. now rewrite !Z.eqb_refl.
        - apply andb_true_iff in Hok as [Hok _]. exact Hok. }
      assert (forall v g1,
                <[v0 := (nodeG current + 1)%Z]> seen !! v = Some g1 ->
                bounded closed (openSet ++ [fresh]) v g1) as Hseen'.
      { intros v g1 Hv. destruct (decide (v = v0)) as [->|Hne].
        - rewrite lookup_insert_eq in Hv. injection Hv as <-. exact Hfresh.
        - rewrite lookup_insert_ne in Hv by congruence.
          apply bounded_app. eauto. }
      destruct (seen !! v0) as [g0|] eqn:Hs.
      * destruct (nodeG current + 1 <? g0)%Z eqn:Hlt.
        -- destruct (IH (openSet ++ [fresh])
                       (<[v0 := (nodeG current + 1)%Z]> seen) Hdirs Hwf' Hseen')
             as (Hw & Hmono & Hs' & Hn).
           repeat split.
           ++ exact Hw.
           ++ intros v b Hv. apply Hmono. now apply bounded_app.
           ++ exact Hs'.
           ++ intros d Hd Hvalid. apply elem_of_cons in Hd as [->|Hd];
                [|now apply Hn].
              apply Hmono. exact Hfresh.
        -- destruct (IH openSet seen Hdirs Hwf Hseen) as (Hw & Hmono & Hs' & Hn).
           repeat split; auto.
           intros d Hd Hvalid. apply elem_of_cons in Hd as [->|Hd];
             [|now apply Hn].
           apply Hmono. apply Z.ltb_ge in Hlt.
           eapply bounded_le; [exact Hlt|]. eauto.
      * destruct (IH (openSet ++ [fresh])
                    (<[v0 := (nodeG current + 1)%Z]> seen) Hdirs Hwf' Hseen')
          as (Hw & Hmono & Hs' & Hn).
        repeat split.
        -- exact Hw.
        -- intros v b Hv. apply Hmono. now apply bounded_app.
        -- exact Hs'.
        -- intros d Hd Hvalid. apply elem_of_cons in Hd as [->|Hd];
             [|now apply Hn].
           apply Hmono. exact Hfresh.
    + destruct (IH openSet seen Hdirs Hwf Hseen) as (Hw & Hmono & Hs' & Hn).
      repeat split; auto.
      intros d Hd Hvalid. apply elem_of_cons in Hd as [->|Hd];
        [|now apply Hn].
      apply Hmono. left. subst v0. cbn [fst snd] in Hvalid.
      assert (isValidMove m ((nodePos current).1 + dx)
                ((nodePos current).2 + dy)
              && negb (bool_decide
                         ((((nodePos current).1 + dx)%Z,
                           ((nodePos current).2 + dy)%Z) ∈ closed))
              = false) as Hok' by exact Hok.
      rewrite Hvalid in Hok'. cbn [andb] in Hok'.
      apply negb_false_iff, bool_decide_eq_true in Hok'. exact Hok'.
Qed.

Lemma popped_is_cheapest m start goal current rest closed :
  StronglySorted (fun a b => (nodeF a <= nodeF b)%Z) (current :: rest) ->
  Forall (wellFormed m start goal) (current :: rest) ->
  bounded closed (current :: rest) start 0 ->
  (forall (c v : cell) (r : list cell),
     c ∈ closed -> adjacent c v = true -> isValidMove m v.1 v.2 = true ->
     route m start c r = true ->
     bounded closed (current :: rest) v (Z.of_nat (length r))) ->
  nodePos current ∉ closed ->
  forall r, route m start (nodePos current) r = true ->
            (nodeG current + 1 <= Z.of_nat (length r))%Z.
Proof.
  intros Hsorted Hwf Hstart Hclosed Hcur r Hr.
  unfold route in Hr. destruct r as [|a tl]; [discriminate|].
  apply andb_true_iff in Hr as [Hr Hlast].
  apply andb_true_iff in Hr as [Hhead Hwalk].
  apply bool_decide_eq_true in Hhead, Hlast. subst a.
  pose proof (frontier_bound m start goal (current :: rest) closed Hwf
                Hclosed tl [start] start (nodePos current)) as Hex.
  cbn [length] in Hex.
  apply Exists_exists in Hex as (n & Hn & Hf); auto.
  - apply Forall_cons in Hwf as [Hwc _].
    assert (nodeF current <= nodeF n)%Z as Hmin.
    { apply StronglySorted_inv in Hsorted as [_ Hall].
      apply elem_of_cons in Hn as [->|Hn]; [lia|].
      rewrite Forall_forall in Hall. apply Hall. exact Hn. }
    rewrite (wellFormed_f m start goal current Hwc) in Hmin. cbn [length]. lia.
  - cbn. now rewrite !bool_decide_eq_true_2.
Qed.

(** a set of closed cells that holds the start and every valid
    neighbour of its cells holds every cell a route leads to *)
Lemma closed_region (m : maze) (start : cell) (closed : gset (Z * Z)) :
  (forall (c v : cell) (r : list cell),
     c ∈ closed -> adjacent c v = true -> isValidMove m v.1 v.2 = true ->
     route m start c r = true -> v ∈ closed) ->
  forall (rest pre : list cell) (a z : cell),
    route m start a pre = true -> a ∈ closed -> walk m a rest = true ->
    last (a :: rest) = Some z -> z ∈ closed.
Proof.
  intros Hclosed. induction rest as [|b rest IH]; intros pre a z Hr Ha Hw Hz.
  - cbn in Hz. congruence.
  - cbn [walk] in Hw. apply andb_true_iff in Hw as [Hw Hrest].
    apply andb_true_iff in Hw as [Hadj Hvalid].
    rewrite last_cons_cons in Hz.
    apply (IH (pre ++ [b]) b z); auto.
    + now apply (route_snoc m start a).
    + now apply (Hclosed a b pre).
Qed.

(** the loop of the search, whatever the turns it is given: a path it
    answers is a route to the goal and no route is shorter; it answers
    [null] only when there is no route *)
Lemma search_correct (m : maze) (start goal : cell) :
  forall fuel openSet closed seen,
    invariant m start goal openSet closed seen -> goal ∉ closed ->
    match search fuel m goal openSet closed seen with
    | Some (Some path) =>
        route m start goal path = true
        /\ forall other, route m start goal other = true ->
                         (length path <= length other)%nat
    | Some None => forall other, route m start goal other = false
    | None => True
    end.
Proof.
  induction fuel as [|k IH];
    intros openSet closed seen (Hstart & Hwf & Hclosed & Hseen) Hgoal;
    [exact I|].
  cbn [search].
  pose proof (sortByF_sorted openSet) as Hsorted.
  apply (sortByF_Forall _ _) in Hwf.
  apply (proj1 (bounded_sort _ _ _ _)) in Hstart.
  assert (forall (c v : cell) (r : list cell),
            c ∈ closed -> adjacent c v = true ->
            isValidMove m v.1 v.2 = true -> route m start c r = true ->
            bounded closed (sortByF openSet) v (Z.of_nat (length r)))
    as Hclosed'.
  { intros c v r Hc Ha Hv Hr. apply (proj1 (bounded_sort _ _ _ _)).
    exact (Hclosed c v r Hc Ha Hv Hr). }
  assert (forall v g0, seen !! v = Some g0 ->
                       bounded closed (sortByF openSet) v g0) as Hseen'.
  { intros v g0 Hv. apply (proj1 (bounded_sort _ _ _ _)).
    exact (Hseen v g0 Hv). }
  clear Hclosed Hseen.
  destruct (sortByF openSet) as [|current rest].
  - assert (forall v b, bounded closed [] v b -> v ∈ closed) as Hin.
    { intros v b [H|H]; [exact H|]. now apply Exists_nil in H. }
    intros other. destruct (route m start goal other) eqn:Hroute;
      [|reflexivity].
    exfalso. apply Hgoal. unfold route in Hroute.
    destruct other as [|a tl]; [discriminate|].
    apply andb_true_iff in Hroute as [Hroute Hlast].
    apply andb_true_iff in Hroute as [Hhead Hwalk].
    apply bool_decide_eq_true in Hhead, Hlast. subst a.
    apply (closed_region m start closed) with (rest := tl) (pre := [start])
                                              (a := start);
      [|cbn; now rewrite !bool_decide_eq_true_2|exact (Hin _ _ Hstart)
       |exact Hwalk|exact Hlast].
    intros c v r Hc Ha Hv Hr. exact (Hin _ _ (Hclosed' c v r Hc Ha Hv Hr)).
  - destruct (bool_decide (nodePos current ∈ closed)) eqn:Hcl.
    + apply bool_decide_eq_true in Hcl.
      assert (forall v b, bounded closed (current :: rest) v b ->
                          bounded closed rest v b) as Hdrop.
      { intros v b [H|H]; [now left|].
        apply Exists_cons in H as [[H _]|H]; [left; congruence|now right]. }
      apply IH; [|exact Hgoal]. repeat split; eauto.
      now apply Forall_cons in Hwf as [_ Hwf].
    + apply bool_decide_eq_false in Hcl.
      pose proof (popped_is_cheapest m start goal current rest closed Hsorted
                    Hwf Hstart Hclosed' Hcl) as Hbest.
      apply Forall_cons in Hwf as [Hwc Hwf].
      destruct (_ && _) eqn:Hg.
      * apply andb_true_iff in Hg as [H1 H2]. apply Z.eqb_eq in H1, H2.
        assert (nodePos current = goal) as Hpos
          by (destruct goal, (nodePos current); cbn in *; congruence).
        split.
        -- rewrite <- Hpos. exact (wellFormed_route m start goal current Hwc).
        -- intros other Hother. rewrite <- Hpos in Hother.
           specialize (Hbest other Hother).
           pose proof (wellFormed_steps m start goal current Hwc). lia.
      * destruct (expand _ _ _ _ _ _ _) as [open1 seen1] eqn:E.
        assert (forall v b, bounded closed (current :: rest) v b ->
                  bounded ({[nodePos current]} ∪ closed) rest v b) as Hpop.
        { intros v b [H|H]; [left; apply elem_of_union; now right|].
          apply Exists_cons in H as [[H _]|H]; [|now right].
          left. apply elem_of_union. left. now apply elem_of_singleton. }
        destruct (expand_bounded m start goal ({[nodePos current]} ∪ closed)
                    current Hwc actions rest seen) as (Hw & Hmono & Hs' & Hn).
        { apply Forall_forall. auto. }
        { exact Hwf. }
        { intros v g0 Hv. eauto. }
        rewrite E in Hw, Hmono, Hs', Hn. cbn [fst snd] in Hw, Hmono, Hs', Hn.
        apply IH.
        -- repeat split.
           ++ eauto.
           ++ exact Hw.
           ++ intros c v r Hc Ha Hv Hr.
              apply elem_of_union in Hc as [Hc|Hc].
              ** apply elem_of_singleton in Hc. subst c.
                 specialize (Hbest r Hr).
                 apply adjacent_offset in Ha as (d & Hd & ->).
                 eapply bounded_le; [exact Hbest|]. now apply Hn.
              ** eauto.
           ++ exact Hs'.
        -- intros H. apply elem_of_union in H as [H|H]; [|contradiction].
           apply elem_of_singleton in H. rewrite H, !Z.eqb_refl in Hg.
           discriminate.
Qed.

(** the search as [solveMazeAStar] starts it *)
Lemma solveMazeAStar_correct (fuel : nat) (m : maze) (start : cell) :
  match solveMazeAStar fuel m start with
  | Some (Some path) =>
      route m start (defaultGoal m) path = true
      /\ forall other, route m start (defaultGoal m) other = true ->
                       (length path <= length other)%nat
  | Some None => forall other, route m start (defaultGoal m) other = false
  | None => True
  end.
Proof.
  unfold solveMazeAStar. apply search_correct; [|apply not_elem_of_empty].
  split; [|split; [|split]].
  - right. constructor. split; [reflexivity|]. cbn. lia.
  - repeat constructor.
  - intros c v r Hc. now apply elem_of_empty in Hc.
  - intros v g0 Hv. now rewrite lookup_empty in Hv.
Qed.

End SearchFacts.

(** X1.  A path [solveMazeAStar] answers is a route: it begins on the
    start, ends on the goal, and every step goes to a neighbouring cell
    that is inside the grid and open; and no route from the start to
    the goal has fewer cells. *)
Theorem astar_returns_shortest_route (fuel : nat) (m : Grid.maze)
  (start : Grid.cell) (path : list Grid.cell) :
  m <> [] ->
  FastMazeSolver.solveMazeAStar fuel m start = Some (Some path) ->
  FastMazeSolver.route m start (FastMazeSolver.defaultGoal m) path = true
  /\ forall other,
       FastMazeSolver.route m start (FastMazeSolver.defaultGoal m) other
       = true ->
       (length path <= length other)%nat.
Proof.
  intros _ Hs. pose proof (SearchFacts.solveMazeAStar_correct fuel m start) as H.
  now rewrite Hs in H.
Qed.

(** [astar_returns_shortest_route] on the ring maze: the route along
    the top and the right, five cells long *)
Lemma astar_returns_shortest_route_witness :
  FastMazeSolver.route Examples.ring (1, 1)%Z (3, 3)%Z
    [(1, 1); (1, 2); (1, 3); (2, 3); (3, 3)]%Z = true
  /\ forall other,
       FastMazeSolver.route Examples.ring (1, 1)%Z (3, 3)%Z other = true ->
       (5 <= length other)%nat.
Proof.
  apply (astar_returns_shortest_route
           (FastMazeSolver.enoughFuel Examples.ring) Examples.ring (1, 1)%Z
           [(1, 1); (1, 2); (1, 3); (2, 3); (3, 3)]%Z).
  - discriminate.
  - vm_compute. reflexivity.
Defined.

(** X2.  [solveMazeAStar] answers [null] only when no route leads from
    the start to the goal. *)
Theorem astar_null_means_no_route (fuel : nat) (m : Grid.maze)
  (start : Grid.cell) :
  m <> [] ->
  FastMazeSolver.solveMazeAStar fuel m start = Some None ->
  forall path,
    FastMazeSolver.route m start (FastMazeSolver.defaultGoal m) path = false.
Proof.
  intros _ Hs. pose proof (SearchFacts.solveMazeAStar_correct fuel m start) as H.
  now rewrite Hs in H.
Qed.

(** [astar_null_means_no_route] on the maze with a walled-in start *)
Lemma astar_null_means_no_route_witness :
  FastMazeSolver.solveMazeAStar
    (FastMazeSolver.enoughFuel Examples.walledStart) Examples.walledStart
    (1, 1)%Z = Some None
  /\ forall path,
       FastMazeSolver.route Examples.walledStart (1, 1)%Z (3, 3)%Z path
       = false.
Proof.
  split; [vm_compute; reflexivity|].
  apply (astar_null_means_no_route
           (FastMazeSolver.enoughFuel Examples.walledStart)
           Examples.walledStart (1, 1)%Z).
  - discriminate.
  - vm_compute. reflexivity.
Defined.

(** X3.  From a start inside the grid the loop of [solveMazeAStar] ends
    within five turns a cell and two more: the search always answers,
    with a path or with [null]. *)
Theorem astar_terminates (m : Grid.maze) (start : Grid.cell) :
  FastMazeSolver.inGrid m start = true ->
  exists answer,
    FastMazeSolver.solveMazeAStar (FastMazeSolver.enoughFuel m) m start
    = Some answer.
Proof.
  intros Hstart.
  destruct (FastMazeSolver.solveMazeAStar (FastMazeSolver.enoughFuel m) m
              start) as [answer|] eqn:E; [now exists answer|].
  exfalso. revert E. unfold FastMazeSolver.solveMazeAStar.
  apply SearchFacts.search_returns.
  - repeat constructor. exact Hstart.
  - pose proof (SearchFacts.unclosed_le m ∅) as H.
    unfold FastMazeSolver.enoughFuel. cbn [length]. lia.
Qed.

(** [astar_terminates] on the corridor of 1005 cells *)
Lemma astar_terminates_witness :
  exists answer,
    FastMazeSolver.solveMazeAStar
      (FastMazeSolver.enoughFuel Examples.corridor) Examples.corridor
      (1, 1)%Z = Some answer.
Proof.
  apply (astar_terminates Examples.corridor (1, 1)%Z).
  vm_compute. reflexivity.
Defined.

(** ** The hybrid agent along a stored route *)

Module RouteFacts.
Import Grid Hybrid.

(** the first request of an episode puts the agent on the route *)
Lemma first_request (chooseAction : agent -> cell -> maze -> nat) (ag : agent)
  (m : maze) (route : list cell) (second : cell) :
  isLargeMaze ag = true ->
  fastSolver ag m (1, 1)%Z = Some route ->
  route !! 1%nat = Some second ->
  exists ag1 r,
    move chooseAction (reset ag) m = Some (ag1, r)
    /\ onRoute ag ag1 route 1
    /\ resIsValid r = true /\ resStrategy r = Pathfinding
    /\ resPosition r = position ag1.
Proof.
  intros Hlarge Hroute Hsecond.
  assert (isLargeMaze (reset ag) = true) as Hl0 by exact Hlarge.
  unfold move. rewrite (HybridFacts.selectStrategy_large _ m Hl0).
  cbn [currentStrategy with_currentStrategy].
  unfold pathfindingMove.
  cbn [knownSolution reset with_episode with_currentStrategy solutionSteps
       fastSolver position orb].
  rewrite Hroute.
  apply lookup_lt_Some in Hsecond as Hlen.
  replace (0 <? Z.of_nat (length route) - 1)%Z with true
    by (symmetry; apply Z.ltb_lt; lia).
  change (at_ route (0 + 1)) with (route !! 1%nat).
  rewrite Hsecond.
  eexists _, _. split; [reflexivity|].
  unfold onRoute. cbn. repeat split; try reflexivity; try assumption.
  f_equal. destruct route as [|a [|b rest]]; try discriminate.
  injection Hsecond as <-. reflexivity.
Qed.

(** a later request moves the agent one cell on *)
Lemma next_request (chooseAction : agent -> cell -> maze -> nat)
  (ag0 ag : agent) (m : maze) (route : list cell) (k : nat) :
  onRoute ag0 ag route (S k) -> (S (S k) < length route)%nat ->
  exists ag1 r,
    move chooseAction ag m = Some (ag1, r)
    /\ onRoute ag0 ag1 route (S (S k))
    /\ resIsValid r = true /\ resStrategy r = Pathfinding
    /\ resPosition r = position ag1.
Proof.
  intros (Hlarge & Hsol & Hsteps & Hpos & Hpath & Hmoves & Hq) Hlen.
  destruct (lookup_lt_is_Some_2 route (S (S k)) Hlen) as [c Hc].
  destruct (HybridFacts.move_large chooseAction ag m Hlarge)
    as (ag1 & r & Hm & Hs & _ & Hl & Hq1).
  exists ag1, r. split; [exact Hm|].
  unfold move in Hm. rewrite (HybridFacts.selectStrategy_large ag m Hlarge) in Hm.
  cbn [currentStrategy with_currentStrategy] in Hm.
  pose proof (HybridFacts.pathfindingMove_replay
                (with_currentStrategy ag Pathfinding) m route k c Hsol Hsteps Hc)
    as Hreplay.
  destruct (pathfindingMove (with_currentStrategy ag Pathfinding) m)
    as [ag2 r2].
  inversion Hm; subst ag2 r2. clear Hm.
  destruct Hreplay as (Hp & Hrp & Hv & Hks & Hst & Hpa & Hmv).
  cbn [path moves with_currentStrategy] in Hpa, Hmv.
  unfold onRoute. repeat split; try assumption; try congruence.
  - rewrite Hpa, Hpath.
    rewrite (take_S_r (drop 1 route) (S k) c)
      by (rewrite lookup_drop; exact Hc).
    now rewrite app_assoc.
  - rewrite Hmv, Hmoves. lia.
Qed.

(** the request after the last cell of the route is refused and moves
    nothing *)
Lemma last_request (chooseAction : agent -> cell -> maze -> nat)
  (ag0 ag : agent) (m : maze) (route : list cell) (k : nat) :
  onRoute ag0 ag route (S k) -> length route = S (S k) ->
  exists ag1 r,
    move chooseAction ag m = Some (ag1, r)
    /\ onRoute ag0 ag1 route (S k)
    /\ resIsValid r = false /\ resStrategy r = Pathfinding
    /\ resPosition r = position ag.
Proof.
  intros (Hlarge & Hsol & Hsteps & Hpos & Hpath & Hmoves & Hq) Hlen.
  unfold move. rewrite (HybridFacts.selectStrategy_large ag m Hlarge).
  cbn [currentStrategy with_currentStrategy].
  unfold pathfindingMove.
  cbn [knownSolution with_currentStrategy solutionSteps].
  rewrite Hsol, Hsteps. cbn [orb].
  replace (Z.of_nat (S k) =? 0)%Z with false by (symmetry; apply Z.eqb_neq; lia).
  cbn [knownSolution with_currentStrategy solutionSteps].
  rewrite Hsol, Hsteps, Hlen.
  replace (Z.of_nat (S k) <? Z.of_nat (S (S k)) - 1)%Z with false
    by (symmetry; apply Z.ltb_ge; lia).
  eexists _, _. split; [reflexivity|].
  unfold onRoute. cbn. repeat split; assumption.
Qed.

(** the requests along the route, one after the other *)
Lemma requests_along (chooseAction : agent -> cell -> maze -> nat)
  (ag0 : agent) (m : maze) (route : list cell) :
  forall (n k : nat) (ag : agent),
    onRoute ag0 ag route (S k) -> (S k + n < length route)%nat ->
    exists ag1 rs,
      moveTimes chooseAction n ag m = Some (ag1, rs)
      /\ onRoute ag0 ag1 route (S k + n)
      /\ length rs = n
      /\ Forall (fun r => resIsValid r = true /\ resStrategy r = Pathfinding)
           rs.
Proof.
  induction n as [|n IH]; intros k ag Hon Hlen.
  - exists ag, []. cbn [moveTimes]. rewrite Nat.add_0_r.
    split; [reflexivity|]. split; [exact Hon|]. split; [reflexivity|].
    constructor.
  - destruct (next_request chooseAction ag0 ag m route k Hon)
      as (ag1 & r & Hm & Hon1 & Hv & Hs & _); [lia|].
    destruct (IH (S k) ag1 Hon1) as (ag2 & rs & Hms & Hon2 & Hl & Hall);
      [lia|].
    exists ag2, (r :: rs). cbn [moveTimes]. rewrite Hm, Hms.
    replace (S k + S n)%nat with (S (S k) + n)%nat by lia.
    split; [reflexivity|]. split; [exact Hon2|].
    split; [cbn; now rewrite Hl|]. constructor; auto.
Qed.

End RouteFacts.

(** X4.  On a large maze, when the oracle has a route of at least two
    cells from the start, the requests of an episode walk that route:
    after [k] requests, for every [k] from 1 short of the route's
    length, the agent stands on the [k]-th cell of the route (counting
    from 0), [path] holds the start followed by the cells walked,
    [moves] is [k], every request was answered as valid by the
    pathfinding strategy, and the Q-table is as it was.  The request
    after the last cell of the route is refused ([isValid] false) and
    moves nothing. *)
Theorem pathfinding_walks_route
  (chooseAction : Hybrid.agent -> Grid.cell -> Grid.maze -> nat)
  (ag : Hybrid.agent) (m : Grid.maze) (route : list Grid.cell) (k : nat) :
  Hybrid.isLargeMaze ag = true ->
  Hybrid.fastSolver ag m (1, 1)%Z = Some route ->
  (1 <= k < length route)%nat ->
  exists ag1 rs,
    Hybrid.moveTimes chooseAction k (Hybrid.reset ag) m = Some (ag1, rs)
    /\ route !! k = Some (Hybrid.position ag1)
    /\ Hybrid.path ag1 = [(1, 1)%Z] ++ take k (drop 1 route)
    /\ Hybrid.moves ag1 = Z.of_nat k
    /\ Hybrid.qTable ag1 = Hybrid.qTable ag
    /\ length rs = k
    /\ Forall (fun r => Hybrid.resIsValid r = true
                        /\ Hybrid.resStrategy r = Hybrid.Pathfinding) rs
    /\ (S k = length route ->
        exists ag2 r,
          Hybrid.move chooseAction ag1 m = Some (ag2, r)
          /\ Hybrid.resIsValid r = false
          /\ Hybrid.resPosition r = Hybrid.position ag1
          /\ Hybrid.position ag2 = Hybrid.position ag1
          /\ Hybrid.path ag2 = Hybrid.path ag1
          /\ Hybrid.moves ag2 = Hybrid.moves ag1).
Proof.
  intros Hlarge Hroute [Hk Hlen].
  destruct k as [|k]; [lia|].
  destruct (lookup_lt_is_Some_2 route 1) as [second Hsecond]; [lia|].
  destruct (RouteFacts.first_request chooseAction ag m route second Hlarge
              Hroute Hsecond) as (ag1 & r1 & Hm1 & Hon1 & Hv1 & Hs1 & _).
  destruct (RouteFacts.requests_along chooseAction ag m route k 0 ag1 Hon1)
    as (ag2 & rs & Hms & Hon2 & Hl & Hall); [lia|].
  exists ag2, (r1 :: rs). cbn [Hybrid.moveTimes]. rewrite Hm1, Hms.
  cbn [plus] in Hon2.
  pose proof Hon2 as (_ & _ & _ & Hpos & Hpath & Hmoves & Hq).
  repeat split; auto.
  - cbn. now rewrite Hl.
  - intros Hend.
    destruct (RouteFacts.last_request chooseAction ag ag2 m route k Hon2)
      as (ag3 & r & Hm & Hon3 & Hv & _ & Hp); [lia|].
    exists ag3, r. split; [exact Hm|].
    destruct Hon3 as (_ & _ & _ & Hpos3 & Hpath3 & Hmoves3 & _).
    repeat split; try assumption; try congruence.
Qed.

(** [pathfinding_walks_route] on the corridor of 1005 cells: after 332
    requests the agent stands on the goal, and the next request is
    refused *)
Lemma pathfinding_walks_route_witness :
  exists ag1 rs,
    Hybrid.moveTimes (fun _ _ _ => 0%nat) 332
      (Hybrid.reset Examples.hybridOnCorridor) Examples.corridor
    = Some (ag1, rs)
    /\ Hybrid.position ag1 = (1, 333)%Z
    /\ Hybrid.moves ag1 = 332%Z
    /\ exists ag2 r,
         Hybrid.move (fun _ _ _ => 0%nat) ag1 Examples.corridor = Some (ag2, r)
         /\ Hybrid.resIsValid r = false.
Proof.
  assert (exists route,
            Hybrid.fastSolver Examples.hybridOnCorridor Examples.corridor
              (1, 1)%Z = Some route
            /\ length route = 333%nat
            /\ route !! 332%nat = Some (1, 333)%Z) as (route & Hr & Hlen & Hlast).
  { eexists. split; [vm_compute; reflexivity|]. split; reflexivity. }
  destruct (pathfinding_walks_route (fun _ _ _ => 0%nat)
              Examples.hybridOnCorridor Examples.corridor route 332)
    as (ag1 & rs & Hms & Hpos & _ & Hmoves & _ & _ & _ & Hend).
  - vm_compute. reflexivity.
  - exact Hr.
  - rewrite Hlen. lia.
  - exists ag1, rs. split; [exact Hms|]. split; [congruence|].
    split; [exact Hmoves|].
    destruct Hend as (ag2 & r & Hm & Hv & _); [now rewrite Hlen|].
    exists ag2, r. auto.
Defined.

(** ** Epsilon over a run of episodes *)

Module ScheduleFacts.
Import Grid.

Lemma tabular_run (wins : list bool) :
  forall ag : QLearning.agent,
    0 <= QLearning.epsilonDecay ag <= 1 ->
    0 <= QLearning.epsilonMin ag ->
    QLearning.epsilonMin ag * QLearning.epsilonDecay ag <= QLearning.epsilon ag ->
    let ag' := QLearning.finishGames ag wins in
    QLearning.epsilon ag' <= QLearning.epsilon ag
    /\ QLearning.epsilonMin ag * QLearning.epsilonDecay ag
       <= QLearning.epsilon ag'
    /\ QLearning.epsilonMin ag' = QLearning.epsilonMin ag
    /\ QLearning.epsilonDecay ag' = QLearning.epsilonDecay ag
    /\ QLearning.epsilonStart ag' = QLearning.epsilonStart ag.
Proof.
  induction wins as [|w wins IH]; intros ag Hd Hm He.
  - cbn. repeat split; try reflexivity; lra.
  - cbn [QLearning.finishGames fold_left].
    pose proof (tabular_epsilon_floor ag w Hd Hm He) as Hfloor.
    assert (0 <= QLearning.epsilon ag) as Hpos by nra.
    pose proof (tabular_epsilon_monotone ag w Hpos (proj2 Hd)) as Hmono.
    specialize (IH (QLearning.finishGame ag w) Hd Hm Hfloor).
    cbv zeta in IH. destruct IH as (H1 & H2 & H3 & H4 & H5).
    unfold QLearning.finishGames in *.
    repeat split; try assumption. lra.
Qed.

Lemma hybrid_rate_floor (ag : Hybrid.agent) (isWin : bool) (rate : Q) :
  rate = (if Hybrid.isLargeMaze ag then 99 # 100 else Hybrid.epsilonDecay ag) ->
  0 <= rate <= 1 ->
  0 <= Hybrid.epsilonMin ag ->
  Hybrid.epsilonMin ag * rate <= Hybrid.epsilon ag ->
  Hybrid.epsilonMin ag * rate <= Hybrid.epsilon (Hybrid.finishGame ag isWin)
  /\ Hybrid.epsilon (Hybrid.finishGame ag isWin) <= Hybrid.epsilon ag.
Proof.
  intros -> Hd Hm He. cbn [Hybrid.finishGame Hybrid.epsilon].
  destruct (Qlt_le_dec _ _); split; try lra; nra.
Qed.

Lemma hybrid_run (wins : list bool) :
  forall (ag : Hybrid.agent) (rate : Q),
    rate = (if Hybrid.isLargeMaze ag then 99 # 100
            else Hybrid.epsilonDecay ag) ->
    0 <= rate <= 1 ->
    0 <= Hybrid.epsilonMin ag ->
    Hybrid.epsilonMin ag * rate <= Hybrid.epsilon ag ->
    let ag' := Hybrid.finishGames ag wins in
    Hybrid.epsilon ag' <= Hybrid.epsilon ag
    /\ Hybrid.epsilonMin ag * rate <= Hybrid.epsilon ag'
    /\ Hybrid.epsilonMin ag' = Hybrid.epsilonMin ag
    /\ Hybrid.epsilonDecay ag' = Hybrid.epsilonDecay ag
    /\ Hybrid.epsilonStart ag' = Hybrid.epsilonStart ag.
Proof.
  induction wins as [|w wins IH]; intros ag rate Hr Hd Hm He.
  - cbn. repeat split; try reflexivity; lra.
  - cbn [Hybrid.finishGames fold_left].
    destruct (hybrid_rate_floor ag w rate Hr Hd Hm He) as [Hfloor Hmono].
    specialize (IH (Hybrid.finishGame ag w) rate Hr Hd Hm Hfloor).
    cbv zeta in IH. destruct IH as (H1 & H2 & H3 & H4 & H5).
    unfold Hybrid.finishGames in *.
    repeat split; try assumption. lra.
Qed.

End ScheduleFacts.

(** X5.  Over any run of episodes that starts from a freshly built
    tabular or hybrid agent with a floor that is not negative, epsilon
    at the end of the run is at most its starting value and at least
    the floor times the decay applied at an episode end (the decay of
    the agent, 0.99 for a hybrid agent on a large maze); the floor, the
    decay and the remembered start value are as the constructor set
    them. *)
Theorem epsilon_over_a_run :
  (forall (w h : Z) (o : QLearning.options) (wins : list bool),
     let ag := QLearning.create w h o in
     let ag' := QLearning.finishGames ag wins in
     0 <= QLearning.epsilonMin ag ->
     QLearning.epsilon ag' <= QLearning.epsilon ag
     /\ QLearning.epsilonMin ag * QLearning.epsilonDecay ag
        <= QLearning.epsilon ag'
     /\ QLearning.epsilonMin ag' = QLearning.epsilonMin ag
     /\ QLearning.epsilonDecay ag' = QLearning.epsilonDecay ag
     /\ QLearning.epsilonStart ag' = QLearning.epsilon ag)
  /\ (forall (solver : Grid.maze -> Grid.cell -> option (list Grid.cell))
        (w h : Z) (o : Hybrid.options) (wins : list bool),
        let ag := Hybrid.create solver w h o in
        let ag' := Hybrid.finishGames ag wins in
        let rate := if Hybrid.isLargeMaze ag then 99 # 100
                    else Hybrid.epsilonDecay ag in
        0 <= Hybrid.epsilonMin ag ->
        Hybrid.epsilon ag' <= Hybrid.epsilon ag
        /\ Hybrid.epsilonMin ag * rate <= Hybrid.epsilon ag'
        /\ Hybrid.epsilonMin ag' = Hybrid.epsilonMin ag
        /\ Hybrid.epsilonDecay ag' = Hybrid.epsilonDecay ag
        /\ Hybrid.epsilonStart ag' = Hybrid.epsilon ag).
Proof.
  split.
  - intros w h o wins ag ag' Hm.
    destruct (tabular_create_invariant w h o) as [[Hlo Hhi] Hle].
    fold ag in Hlo, Hhi, Hle.
    destruct (ScheduleFacts.tabular_run wins ag) as (H1 & H2 & H3 & H4 & H5);
      [lra|exact Hm|nra|].
    fold ag' in H1, H2, H3, H4, H5. repeat split; assumption.
  - intros solver w h o wins ag ag' rate Hm.
    assert (9 # 10 <= Hybrid.epsilonDecay ag <= 9999 # 10000
            /\ Hybrid.epsilonMin ag <= Hybrid.epsilon ag) as [[Hlo Hhi] Hle].
    { subst ag. cbn. repeat split.
      - apply qmin_glb; [lra | apply qmax_l].
      - apply qmin_l.
      - apply qmin_l. }
    assert (0 <= rate <= 1) as Hrate
      by (subst rate; destruct (Hybrid.isLargeMaze ag); lra).
    destruct (ScheduleFacts.hybrid_run wins ag rate eq_refl Hrate Hm)
      as (H1 & H2 & H3 & H4 & H5); [nra|].
    fold ag' in H1, H2, H3, H4, H5. repeat split; assumption.
Qed.

(** [epsilon_over_a_run] on the agent of the 21x21 maze with epsilon
    0.6, decay 0.975 and floor 0.05, over 99 episodes won: epsilon ends
    between 0.04875 and 0.6 *)
Lemma epsilon_over_a_run_witness :
  QLearning.epsilon (QLearning.finishGames Examples.tabular21
                       (replicate 99 true)) <= 6 # 10
  /\ (5 # 100) * (975 # 1000)
     <= QLearning.epsilon (QLearning.finishGames Examples.tabular21
                             (replicate 99 true)).
Proof.
  destruct epsilon_over_a_run as [H _].
  destruct (H 21%Z 21%Z
              {| QLearning.optEpsilon := Some (6 # 10);
                 QLearning.optEpsilonDecay := Some (975 # 1000);
                 QLearning.optEpsilonMin := Some (5 # 100);
                 QLearning.optGamma := None;
                 QLearning.optLearningRate := None |}
              (replicate 99 true)) as (H1 & H2 & _).
  - vm_compute. discriminate.
  - split; [exact H1 | exact H2].
Defined.

(** ** The two tables *)

(** [hybrid_update_value] on a fresh hybrid agent of the ring maze,
    for the step right from the start at reward -1: the value stored
    is -0.1 *)
Lemma hybrid_update_value_witness :
  exists ag',
    Hybrid.updateQValue Examples.hybridOnRing (1, 1)%Z 1 (1, 2)%Z (-1)
      Examples.ring = Some ag'
    /\ Hybrid.getQValue (Hybrid.qTable ag') (1, 1)%Z 1 == - (1 # 10).
Proof.
  destruct (hybrid_update_value Examples.hybridOnRing (1, 1)%Z 1 (1, 2)%Z
              (-1) Examples.ring (Some 0))
    as (ag' & Hup & Hval & _).
  - reflexivity.
  - vm_compute. reflexivity.
  - exists ag'. split; [exact Hup|]. rewrite Hval. vm_compute. reflexivity.
Defined.

(** [tabular_update_value] on a fresh tabular agent of the ring maze,
    for the step right from the start at reward -1: the value stored
    is -0.1 *)
Lemma tabular_update_value_witness :
  exists ag',
    QLearning.updateQValue Examples.tabular5 (1, 1)%Z 1 (1, 2)%Z
      (JsNum.Fin (-1)) Examples.ring = Some ag'
    /\ exists q, QLearning.peek (QLearning.qTable ag') (1, 1)%Z 1 = JsNum.Fin q
                 /\ q == - (1 # 10).
Proof.
  destruct (tabular_update_value Examples.tabular5 (1, 1)%Z 1 (1, 2)%Z
              (JsNum.Fin (-1)) Examples.ring
              [JsNum.NegInf; JsNum.Fin 0; JsNum.NegInf; JsNum.Fin 0]
              (<[(1, 2)%Z := replicate 4 (JsNum.Fin 0)]>
                 (<[(1, 1)%Z := replicate 4 (JsNum.Fin 0)]> ∅)))
    as (ag' & Hup & _ & _ & _ & Hfin).
  - vm_compute. reflexivity.
  - exists ag'. split; [exact Hup|]. eexists. split.
    + apply (Hfin 0 (-1) 0); reflexivity.
    + vm_compute. reflexivity.
Defined.

(** X8.  The table of the hybrid agent keeps its entries apart: after
    [setQValue(s, a, v)], [getQValue(s, a)] is [v], and every other
    entry of a cell with a row index below 2^15 and a column index
    below 2^16 reads as before; an entry never written reads 0. *)
Theorem hybrid_table_round_trip (t : gmap Z (gmap nat Q)) (s s2 : Grid.cell)
  (a a2 : nat) (v : Q) :
  (0 <= s.1 < 32768)%Z -> (0 <= s.2 < 65536)%Z ->
  (0 <= s2.1 < 32768)%Z -> (0 <= s2.2 < 65536)%Z ->
  Hybrid.getQValue (Hybrid.setQValue t s a v) s a = v
  /\ (s2 <> s \/ a2 <> a ->
      Hybrid.getQValue (Hybrid.setQValue t s a v) s2 a2
      = Hybrid.getQValue t s2 a2)
  /\ Hybrid.getQValue ∅ s a = 0.
Proof.
  intros H1 H2 H3 H4. split; [apply HybridUpdateFacts.getQValue_setQValue|].
  split; [|reflexivity].
  intros Hne. apply HybridUpdateFacts.getQValue_setQValue_other.
  destruct Hne as [Hne|Hne]; [left|now right].
  intros Hkey.
  destruct (HybridUpdateFacts.getStateKey_injective _ _ _ _ H3 H4 H1 H2 Hkey).
  apply Hne. destruct s, s2; cbn in *; congruence.
Qed.

(** [hybrid_table_round_trip] on the cells (1,1) and (1,2) *)
Lemma hybrid_table_round_trip_witness :
  Hybrid.getQValue (Hybrid.setQValue ∅ (1, 1)%Z 2 (3 # 4)) (1, 1)%Z 2 = 3 # 4
  /\ Hybrid.getQValue (Hybrid.setQValue ∅ (1, 1)%Z 2 (3 # 4)) (1, 2)%Z 2 = 0.
Proof.
  destruct (hybrid_table_round_trip ∅ (1, 1)%Z (1, 2)%Z 2 2 (3 # 4))
    as (Hset & Hother & _); cbn; try lia.
  split; [exact Hset|]. rewrite Hother; [reflexivity|].
  left. discriminate.
Defined.

(** ** The scheduler's window and clamps *)

Module WindowFacts.
Import Grid Scheduler.

Lemma onEpisodeEnd_scheduler (s : scheduler) (agent : tunable) (ep : episode) :
  (onEpisodeEnd s agent ep).1 = recordEpisode s ep.
Proof.
  unfold onEpisodeEnd. cbv zeta.
  destruct (_ && _); destruct (_ && _); reflexivity.
Qed.

Lemma onEpisodeEnd_clamps (s : scheduler) (agent : tunable) (ep : episode) :
  configured s -> 1 # 100 <= targetEnd s ->
  let agent' := (onEpisodeEnd s agent ep).2 in
  9 # 10 <= epsilonDecay agent' <= 9999 # 10000
  /\ epsilonMin agent' <= epsilon agent'
  /\ epsilonMin agent' <= targetEnd s.
Proof.
  intros (Hw & Hmin & Hmax) Ht. unfold onEpisodeEnd. cbv zeta.
  set (s1 := recordEpisode s ep).
  assert (minDecay s1 = 9 # 10 /\ maxDecay s1 = 9999 # 10000
          /\ targetEnd s1 = targetEnd s) as (Hmin1 & Hmax1 & Ht1)
    by (subst s1; cbn; auto).
  assert (forall d, 9 # 10 <= clampDecay s1 d <= 9999 # 10000) as Hclamp.
  { intros d. pose proof (SchedulerFacts.clampDecay_bounds s1 d) as H.
    rewrite Hmin1, Hmax1 in H. apply H. lra. }
  assert (forall e, qmin e (qmax (1 # 100) (targetEnd s1)) <= targetEnd s)
    as Hfloor.
  { intros e. eapply Qle_trans; [apply qmin_r|].
    rewrite Ht1. apply qmax_lub; lra. }
  destruct (_ && _); destruct (_ && _); cbn [snd epsilon epsilonMin epsilonDecay];
    (split; [apply Hclamp|]); (split; [apply qmin_l|apply Hfloor]).
Qed.

Lemma recordEpisode_window (s : scheduler) (ep : episode) :
  window s = 20%Z -> (length (history s) <= 20)%nat ->
  history (recordEpisode s ep)
  = drop (S (length (history s)) - 20) (history s ++ [ep])
  /\ (length (history (recordEpisode s ep)) <= 20)%nat.
Proof.
  intros Hw Hlen. cbn [recordEpisode history]. rewrite Hw, length_app.
  cbn [length]. rewrite Nat.add_1_r.
  destruct (20 <? Z.of_nat (S (length (history s))))%Z eqn:Hfull.
  - apply Z.ltb_lt in Hfull.
    replace (S (length (history s)) - 20)%nat with 1%nat by lia.
    rewrite ReplayFacts.tail_drop. split; [reflexivity|].
    rewrite length_drop, length_app. cbn. lia.
  - apply Z.ltb_ge in Hfull.
    replace (S (length (history s)) - 20)%nat with 0%nat by lia.
    rewrite drop_0. split; [reflexivity|]. rewrite length_app. cbn. lia.
Qed.

Lemma run_window (eps : list episode) :
  forall (s : scheduler) (agent : tunable),
    configured s -> (length (history s) <= 20)%nat ->
    history (run s agent eps).1
    = drop (length (history s) + length eps - 20) (history s ++ eps)
    /\ targetEnd (run s agent eps).1 = targetEnd s.
Proof.
  induction eps as [|ep eps IH]; intros s agent Hcfg Hlen.
  - cbn [run fst length]. rewrite app_nil_r, Nat.add_0_r.
    replace (length (history s) - 20)%nat with 0%nat by lia.
    now rewrite drop_0.
  - cbn [run].
    pose proof (onEpisodeEnd_scheduler s agent ep) as Hs.
    destruct (onEpisodeEnd s agent ep) as [s1 agent1]. cbn [fst] in Hs.
    subst s1.
    destruct (recordEpisode_window s ep (proj1 Hcfg) Hlen) as [Hh Hl].
    destruct (IH (recordEpisode s ep) agent1
                (SchedulerFacts.recordEpisode_configured s ep Hcfg) Hl)
      as [Hrun Ht].
    split; [|exact Ht].
    rewrite Hrun, Hh, length_drop, length_app. cbn [length].
    rewrite <- (drop_app_le _ eps) by (rewrite length_app; cbn; lia).
    rewrite drop_drop, <- app_assoc. cbn [app]. f_equal. lia.
Qed.

Lemma run_clamps (eps : list episode) :
  forall (s : scheduler) (agent : tunable),
    configured s -> 1 # 100 <= targetEnd s -> eps <> [] ->
    let agent' := (run s agent eps).2 in
    9 # 10 <= epsilonDecay agent' <= 9999 # 10000
    /\ epsilonMin agent' <= epsilon agent'
    /\ epsilonMin agent' <= targetEnd s.
Proof.
  induction eps as [|ep eps IH]; intros s agent Hcfg Ht Hne; [congruence|].
  cbn [run].
  pose proof (onEpisodeEnd_clamps s agent ep Hcfg Ht) as Hone.
  pose proof (onEpisodeEnd_scheduler s agent ep) as Hs.
  destruct (onEpisodeEnd s agent ep) as [s1 agent1].
  cbn [fst snd] in Hone, Hs. subst s1.
  destruct eps as [|ep2 eps]; [exact Hone|].
  apply (IH (recordEpisode s ep) agent1);
    [exact (SchedulerFacts.recordEpisode_configured s ep Hcfg)|exact Ht
     |discriminate].
Qed.

End WindowFacts.

(** X9.  The scheduler keeps a sliding window: after any run of
    episodes fed to [onEpisodeEnd] from a new scheduler, [history]
    holds the last 20 episodes of the run in order.  After each call
    the agent's decay lies in [0.9, 0.9999] and its epsilonMin is at
    most its epsilon and at most the mode's target.  The defaults the
    scheduler seeds have their end at or under their start, the start
    at most 0.95, the decay inside the clamp and the end no lower than
    the mode's target. *)
Theorem scheduler_window_and_clamps (mode : Enhanced.gameMode) (size : Z)
  (agent : Scheduler.tunable) (eps : list Scheduler.episode) :
  let r := Scheduler.run (Scheduler.create mode size) agent eps in
  Scheduler.history r.1 = drop (length eps - 20) eps
  /\ (eps <> [] ->
      9 # 10 <= Scheduler.epsilonDecay r.2 <= 9999 # 10000
      /\ Scheduler.epsilonMin r.2 <= Scheduler.epsilon r.2
      /\ Scheduler.epsilonMin r.2 <= Scheduler.getTargetEnd mode)
  /\ (let '(start, end_, decay) :=
        Scheduler.applyInitialDefaults (Scheduler.create mode size) in
      end_ <= start /\ start <= 95 # 100
      /\ 9 # 10 <= decay <= 9999 # 10000
      /\ Scheduler.getTargetEnd mode <= end_).
Proof.
  cbv zeta.
  assert (Scheduler.configured (Scheduler.create mode size)) as Hcfg
    by (repeat split).
  split; [|split].
  - destruct (WindowFacts.run_window eps (Scheduler.create mode size) agent
                Hcfg) as [H _]; [cbn; lia|].
    exact H.
  - intros Hne.
    apply (WindowFacts.run_clamps eps (Scheduler.create mode size) agent Hcfg);
      [|exact Hne].
    cbn. destruct mode; cbn; lra.
  - unfold Scheduler.applyInitialDefaults. cbn [Scheduler.create
      Scheduler.schedMode Scheduler.mazeSize].
    destruct mode; try destruct (size <=? 21)%Z; cbn; lra.
Qed.

(** ** The tabular agent's choice and move *)

Module ChoiceFacts.
Import JsNum Grid QLearning QPolicy.

(** on a maze that has a row for every row index of the agent,
    [isValidMove] answers for each of the four actions *)
Lemma isValidMove_returns (ag : agent) (st : cell) (a : nat) (m : maze) :
  (height ag <= Z.of_nat (length m))%Z -> (a < 4)%nat ->
  exists b, isValidMove ag st a m = Some b.
Proof.
  intros Hrows Ha. unfold isValidMove.
  destruct (actions !! a) as [[dx dy]|] eqn:Hact.
  - cbv zeta. destruct (_ && _) eqn:Hb; [|eauto].
    apply MoveFacts.inBounds_true in Hb. unfold cellIsZero, at_.
    replace (st.1 + dx <? 0)%Z with false by (symmetry; apply Z.ltb_ge; lia).
    destruct (lookup_lt_is_Some_2 m (Z.to_nat (st.1 + dx))) as [row ->];
      [lia|eauto].
  - apply lookup_ge_None in Hact. cbn in Hact. lia.
Qed.

Lemma validFrom_spec (ag : agent) (st : cell) (m : maze) :
  forall acts l,
    validFrom ag st m acts = Some l ->
    forall a, a ∈ l <-> a ∈ acts /\ isValidMove ag st a m = Some true.
Proof.
  induction acts as [|a0 acts IH]; intros l Hl a; cbn [validFrom] in Hl.
  - inversion Hl. split; [intros H; inversion H|intros [H _]; inversion H].
  - destruct (isValidMove ag st a0 m) as [ok|] eqn:Hok; [|discriminate].
    destruct (validFrom ag st m acts) as [arr|]; [|discriminate].
    inversion Hl; subst l. specialize (IH arr eq_refl a).
    destruct ok; rewrite ?elem_of_cons, IH, ?elem_of_cons.
    + split; [intros [->|[? ?]]; auto|intros [[->|?] ?]; auto].
    + split; [intros [? ?]; auto|intros [[->|?] ?]; auto; congruence].
Qed.

Lemma validFrom_returns (ag : agent) (st : cell) (m : maze) :
  (height ag <= Z.of_nat (length m))%Z ->
  forall acts, Forall (fun a => (a < 4)%nat) acts ->
               exists l, validFrom ag st m acts = Some l.
Proof.
  intros Hrows. induction acts as [|a acts IH]; intros Hall; cbn [validFrom].
  - eauto.
  - apply Forall_cons in Hall as [Ha Hall].
    destruct (isValidMove_returns ag st a m Hrows Ha) as [b ->].
    destruct (IH Hall) as [l ->]. eauto.
Qed.

Lemma getQValue_peek (t : gmap (Z * Z) (list num)) (s : cell) (a : nat) :
  (getQValue t s a).1 = peek t s a.
Proof. reflexivity. Qed.

(** the exploiting loop answers the starting action or one of the
    list, and changes no value of the table; on finite values it
    answers an action of the greatest value *)
Lemma greedy_spec (st : cell) :
  forall (acts : list nat) (t : gmap (Z * Z) (list num)) (bestA : nat)
         (bestV : num),
    let r := greedy st acts t bestA bestV in
    (r.1 = bestA \/ r.1 ∈ acts)
    /\ (forall s b, peek r.2 s b = peek t s b)
    /\ ((forall b, b ∈ acts -> exists q, peek t st b = Fin q) ->
        bestV = NegInf \/ (exists v, bestV = Fin v /\ peek t st bestA = Fin v) ->
        acts <> [] \/ bestV <> NegInf ->
        exists va,
          peek t st r.1 = Fin va
          /\ (forall b, b ∈ acts ->
                        exists vb, peek t st b = Fin vb /\ vb <= va)
          /\ (forall v, bestV = Fin v -> v <= va)).
Proof.
  induction acts as [|a acts IH]; intros t bestA bestV; cbv zeta.
  - cbn [greedy fst snd]. split; [now left|]. split; [reflexivity|].
    intros _ [->|(v & -> & Hv)] [Hne|Hne]; try congruence.
    exists v. split; [exact Hv|]. split.
    + intros b Hb. inversion Hb.
    + intros v' Heq. inversion Heq. lra.
  - cbn [greedy].
    destruct (getQValue t st a) as [qValue t1] eqn:Hget.
    assert (qValue = peek t st a) as Hq
      by (rewrite <- getQValue_peek, Hget; reflexivity).
    assert (forall s b, peek t1 s b = peek t s b) as Hsame.
    { intros s b. replace t1 with (getQValue t st a).2 by now rewrite Hget.
      apply TabularUpdateFacts.peek_after_read. }
    destruct (gt qValue bestV) eqn:Hgt.
    + specialize (IH t1 a qValue). cbv zeta in IH.
      destruct IH as (Hin & Hval & Hopt).
      split; [|split].
      * right. apply elem_of_cons. destruct Hin as [->|Hin]; auto.
      * intros s b. now rewrite Hval, Hsame.
      * intros Hfin Hbest _.
        destruct (Hfin a) as [qa Hqa]; [apply elem_of_cons; now left|].
        destruct Hopt as (va & Hva & Hall & Hge).
        -- intros b Hb. rewrite Hsame. apply Hfin. apply elem_of_cons. now right.
        -- right. exists qa. rewrite Hsame. split; congruence.
        -- right. rewrite Hq, Hqa. discriminate.
        -- rewrite Hsame in Hva. exists va. split; [exact Hva|].
           assert (qa <= va) as Hqa_le by (apply Hge; congruence).
           split.
           ++ intros b Hb. apply elem_of_cons in Hb as [->|Hb].
              ** exists qa. auto.
              ** destruct (Hall b Hb) as (vb & Hvb & Hle).
                 rewrite Hsame in Hvb. eauto.
           ++ intros v Hv. subst bestV. rewrite Hq, Hqa in Hgt. cbn in Hgt.
              destruct (Qlt_le_dec v qa); [lra|discriminate].
    + specialize (IH t1 bestA bestV). cbv zeta in IH.
      destruct IH as (Hin & Hval & Hopt).
      split; [|split].
      * destruct Hin as [->|Hin]; [now left|right].
        apply elem_of_cons. now right.
      * intros s b. now rewrite Hval, Hsame.
      * intros Hfin Hbest _.
        destruct (Hfin a) as [qa Hqa]; [apply elem_of_cons; now left|].
        assert (exists v, bestV = Fin v /\ peek t st bestA = Fin v /\ qa <= v)
          as (v & Hv & Hpv & Hle).
        { destruct Hbest as [->|(v & -> & Hpv)].
          - rewrite Hq, Hqa in Hgt. discriminate.
          - exists v. rewrite Hq, Hqa in Hgt. cbn in Hgt.
            destruct (Qlt_le_dec v qa); [discriminate|auto]. }
        destruct Hopt as (va & Hva & Hall & Hge).
        -- intros b Hb. rewrite Hsame. apply Hfin. apply elem_of_cons. now right.
        -- right. exists v. rewrite Hsame. auto.
        -- right. congruence.
        -- rewrite Hsame in Hva. exists va. split; [exact Hva|].
           pose proof (Hge v Hv) as Hvle.
           split.
           ++ intros b Hb. apply elem_of_cons in Hb as [->|Hb].
              ** exists qa. split; [exact Hqa|lra].
              ** destruct (Hall b Hb) as (vb & Hvb & Hle').
                 rewrite Hsame in Hvb. eauto.
           ++ exact Hge.
Qed.

(** four actions, each below 4 *)
Lemma four_actions : Forall (fun a => (a < 4)%nat) [0; 1; 2; 3]%nat.
Proof. repeat constructor. Qed.

Section Choice.
Variable useMCTS : bool.
Variable passes : nat.
Variable mctsDepth : nat.
Variable sqrt : Q -> Q.
Variable log : Q -> Q.

Lemma chooseAction_spec (rnd : nat -> Q) (ag : agent) (state : cell)
  (m : maze) :
  (height ag <= Z.of_nat (length m))%Z ->
  exists a ag' acts,
    chooseAction useMCTS passes mctsDepth sqrt log rnd ag state m
    = Some (a, ag')
    /\ validActionsFromState ag state m = Some acts
    /\ (acts = [] -> a = 0%nat)
    /\ (acts <> [] -> a ∈ acts)
    /\ (forall s b, peek (qTable ag') s b = peek (qTable ag) s b)
    /\ with_qTable ag' (qTable ag) = ag
    /\ (useMCTS = false -> isTraining ag = false ->
        (forall b, b ∈ acts -> exists q, peek (qTable ag) state b = Fin q) ->
        forall b, b ∈ acts ->
          exists qa qb,
            peek (qTable ag) state a = Fin qa
            /\ peek (qTable ag) state b = Fin qb /\ qb <= qa).
Proof.
  intros Hrows.
  destruct (validFrom_returns ag state m Hrows _ four_actions) as [acts Hacts].
  assert (with_qTable ag (qTable ag) = ag) as Hself by now destruct ag.
  unfold chooseAction. fold (validActionsFromState ag state m) in Hacts.
  destruct useMCTS.
  - exists (MCTS.mctsPlan m
              (fun s m' => default [] (validActionsFromState ag s m'))
              (simStep ag) (fun s _ => inject_Z (- manhattanToGoal ag s))
              mctsDepth (12 # 10) sqrt log rnd passes state), ag, acts.
    split; [reflexivity|]. split; [exact Hacts|].
    unfold MCTS.mctsPlan. rewrite Hacts. cbn [default from_option id].
    split; [intros ->; reflexivity|]. split; [|split; [reflexivity|]].
    + destruct acts as [|a0 acts]; [congruence|]. intros _.
      match goal with
      | |- MCTS.pickBest ?score ?l ?b ?v ∈ _ =>
          destruct (PlannerFacts.pickBest_choice score l b v) as [-> | H]
      end; [apply elem_of_cons; now left|exact H].
    + split; [exact Hself|]. discriminate.
  - rewrite Hacts. destruct acts as [|a0 acts].
    + exists 0%nat, ag, []. repeat split; auto.
      * congruence.
      * intros _ _ _ b Hb. inversion Hb.
    + destruct (_ && isTraining ag) eqn:Hexplore.
      * eexists _, ag, (a0 :: acts). split; [reflexivity|].
        split; [reflexivity|]. split; [discriminate|]. split.
        -- intros _. apply list_elem_of_In, nth_In.
           apply LinearFacts.randomIndex_lt. cbn. lia.
        -- split; [reflexivity|]. split; [exact Hself|].
           intros _ Htrain. rewrite Htrain, andb_false_r in Hexplore.
           discriminate.
      * pose proof (greedy_spec state (a0 :: acts) (qTable ag) a0 NegInf)
          as Hg. cbv zeta in Hg.
        destruct (greedy state (a0 :: acts) (qTable ag) a0 NegInf)
          as [a t] eqn:Hgreedy. cbn [fst snd] in Hg.
        destruct Hg as (Hin & Hval & Hopt).
        exists a, (with_qTable ag t), (a0 :: acts).
        split; [reflexivity|]. split; [reflexivity|].
        split; [discriminate|]. split.
        -- intros _. destruct Hin as [->|Hin]; [apply elem_of_cons; now left|].
           exact Hin.
        -- split; [exact Hval|]. split; [now destruct ag|].
           intros _ _ Hfin b Hb.
           destruct Hopt as (va & Hva & Hall & _);
             [exact Hfin|now left|left; discriminate|].
           destruct (Hall b Hb) as (vb & Hvb & Hle). eauto.
Qed.

End Choice.

End ChoiceFacts.

(** X10.  On a maze that has a row for each of the agent's row
    indices, [chooseAction] of the tabular agent answers an action
    valid at the state whenever one exists, whether it plans, explores
    or exploits, and 0 when none is valid; it changes no value of the
    table.  When it neither plans nor trains and the values of the
    valid actions are finite, the action it answers has the greatest
    value among the valid ones. *)
Theorem tabular_choice_is_valid (useMCTS : bool) (passes mctsDepth : nat)
  (sqrt log : Q -> Q) (rnd : nat -> Q) (ag : QLearning.agent)
  (state : Grid.cell) (m : Grid.maze) :
  (QLearning.height ag <= Z.of_nat (length m))%Z ->
  exists a ag' acts,
    QPolicy.chooseAction useMCTS passes mctsDepth sqrt log rnd ag state m
    = Some (a, ag')
    /\ QLearning.validActionsFromState ag state m = Some acts
    /\ (forall b, b ∈ acts
                  <-> (b < 4)%nat
                      /\ QLearning.isValidMove ag state b m = Some true)
    /\ (acts = [] -> a = 0%nat)
    /\ (acts <> [] -> a ∈ acts)
    /\ (forall s b, QLearning.peek (QLearning.qTable ag') s b
                    = QLearning.peek (QLearning.qTable ag) s b)
    /\ (useMCTS = false -> QLearning.isTraining ag = false ->
        (forall b, b ∈ acts ->
                   exists q, QLearning.peek (QLearning.qTable ag) state b
                             = JsNum.Fin q) ->
        forall b, b ∈ acts ->
          exists qa qb,
            QLearning.peek (QLearning.qTable ag) state a = JsNum.Fin qa
            /\ QLearning.peek (QLearning.qTable ag) state b = JsNum.Fin qb
            /\ qb <= qa).
Proof.
  intros Hrows.
  destruct (ChoiceFacts.chooseAction_spec useMCTS passes mctsDepth sqrt log
              rnd ag state m Hrows)
    as (a & ag' & acts & Hc & Hacts & Hnil & Hin & Hval & _ & Hopt).
  exists a, ag', acts. repeat split; auto.
  - apply (ChoiceFacts.validFrom_spec ag state m _ _ Hacts) in H as [H _].
    repeat (apply elem_of_cons in H as [->|H]; [lia|]). inversion H.
  - now apply (ChoiceFacts.validFrom_spec ag state m _ _ Hacts) in H as [_ H].
  - intros [Hb Hv]. apply (ChoiceFacts.validFrom_spec ag state m _ _ Hacts).
    split; [|exact Hv].
    destruct b as [|[|[|[|b]]]]; try lia;
      repeat (first [apply list_elem_of_here | apply list_elem_of_further]).
Qed.

(** [tabular_choice_is_valid] at the start of the ring maze, where
    right and down are valid, for an agent that exploits *)
Lemma tabular_choice_is_valid_witness :
  exists a ag',
    QPolicy.chooseAction false 0 25 (fun x => x) (fun x => x) Examples.draws
      Examples.tabular5 (1, 1)%Z Examples.ring = Some (a, ag')
    /\ a ∈ [1; 2]%nat.
Proof.
  destruct (tabular_choice_is_valid false 0 25 (fun x => x) (fun x => x)
              Examples.draws Examples.tabular5 (1, 1)%Z Examples.ring)
    as (a & ag' & acts & Hc & Hacts & _ & _ & Hin & _).
  - vm_compute. discriminate.
  - exists a, ag'. split; [exact Hc|].
    assert (acts = [1; 2]%nat) as ->
      by (vm_compute in Hacts; congruence).
    apply Hin. discriminate.
Defined.

(** X11.  On a maze that has a row for each of the agent's row
    indices, [move] of the tabular agent steps whenever a step is
    possible: a move reported valid takes the agent to the neighbouring
    cell of the chosen action, which is in bounds and open, appends
    that cell to [path] and adds one to [moves]; a move is reported
    invalid only when no action is valid at the agent's position, and
    then position, path and moves are as before.  No value of the
    table changes. *)
Theorem tabular_move_steps (useMCTS : bool) (passes mctsDepth : nat)
  (sqrt log : Q -> Q) (rnd : nat -> Q) (ag : QLearning.agent)
  (m : Grid.maze) :
  (QLearning.height ag <= Z.of_nat (length m))%Z ->
  exists ag' r,
    QPolicy.move useMCTS passes mctsDepth sqrt log rnd ag m = Some (ag', r)
    /\ (forall s b, QLearning.peek (QLearning.qTable ag') s b
                    = QLearning.peek (QLearning.qTable ag) s b)
    /\ QPolicy.resMoves r = QLearning.moves ag'
    /\ QPolicy.resPosition r = QLearning.position ag'
    /\ (QPolicy.resIsValid r = true ->
        QLearning.isValidMove ag (QLearning.position ag) (QPolicy.resAction r)
          m = Some true
        /\ (exists d,
              Grid.actions !! QPolicy.resAction r = Some d
              /\ QLearning.position ag'
                 = ((QLearning.position ag).1 + d.1,
                    (QLearning.position ag).2 + d.2)%Z)
        /\ QLearning.path ag' = QLearning.path ag ++ [QLearning.position ag']
        /\ QLearning.moves ag' = (QLearning.moves ag + 1)%Z)
    /\ (QPolicy.resIsValid r = false ->
        QLearning.validActionsFromState ag (QLearning.position ag) m = Some []
        /\ QLearning.position ag' = QLearning.position ag
        /\ QLearning.path ag' = QLearning.path ag
        /\ QLearning.moves ag' = QLearning.moves ag).
Proof.
  intros Hrows.
  destruct (ChoiceFacts.chooseAction_spec useMCTS passes mctsDepth sqrt log
              rnd ag (QLearning.position ag) m Hrows)
    as (a & ag1 & acts & Hc & Hacts & Hnil & Hin & Hval & Hself & _).
  assert (QLearning.position ag1 = QLearning.position ag
          /\ QLearning.path ag1 = QLearning.path ag
          /\ QLearning.moves ag1 = QLearning.moves ag
          /\ QLearning.height ag1 = QLearning.height ag
          /\ QLearning.width ag1 = QLearning.width ag)
    as (Hpos & Hpath & Hmoves & Hh & Hw)
    by (rewrite <- Hself; repeat split; reflexivity).
  assert (forall b, QLearning.isValidMove ag1 (QLearning.position ag1) b m
                    = QLearning.isValidMove ag (QLearning.position ag) b m)
    as Hsame
    by (intros b; unfold QLearning.isValidMove; now rewrite Hpos, Hh, Hw).
  unfold QPolicy.move. rewrite Hc.
  destruct acts as [|a0 acts].
  - rewrite (Hnil eq_refl). cbn [Grid.actions lookup list_lookup].
    rewrite Hsame.
    assert (QLearning.isValidMove ag (QLearning.position ag) 0 m = Some false)
      as Hinvalid.
    { destruct (ChoiceFacts.isValidMove_returns ag (QLearning.position ag) 0 m
                  Hrows) as [[|] Hb]; [lia| |exact Hb].
      assert (0%nat ∈ ([] : list nat)) as Habs
        by (apply (ChoiceFacts.validFrom_spec ag _ m _ _ Hacts); split;
            [apply elem_of_cons; now left|exact Hb]).
      inversion Habs. }
    rewrite Hinvalid. exists ag1. eexists. split; [reflexivity|].
    cbn [QPolicy.resIsValid QPolicy.resMoves QPolicy.resPosition].
    repeat split; auto; discriminate.
  - assert (a ∈ a0 :: acts) as Ha by (apply Hin; discriminate).
    apply (ChoiceFacts.validFrom_spec ag _ m _ _ Hacts) in Ha as [Ha4 Hvalid].
    destruct (Grid.actions !! a) as [[dx dy]|] eqn:Hact.
    + rewrite Hsame, Hvalid. eexists _, _. split; [reflexivity|].
      cbn [QPolicy.resIsValid QPolicy.resMoves QPolicy.resPosition
           QPolicy.resAction QLearning.qTable QLearning.moves QLearning.path
           QLearning.position QPolicy.with_place].
      split; [exact Hval|]. split; [reflexivity|]. split; [reflexivity|].
      split; [|discriminate].
      intros _. split; [exact Hvalid|]. rewrite Hpos, Hpath, Hmoves.
      split; [exists (dx, dy); split; [exact Hact|reflexivity]|].
      split; reflexivity.
    + apply lookup_ge_None in Hact. cbn in Hact.
      repeat (apply elem_of_cons in Ha4 as [->|Ha4]; [lia|]). inversion Ha4.
Qed.

(** [tabular_move_steps] at the start of the ring maze *)
Lemma tabular_move_steps_witness :
  exists ag' r,
    QPolicy.move false 0 25 (fun x => x) (fun x => x) Examples.draws
      Examples.tabular5 Examples.ring = Some (ag', r)
    /\ QPolicy.resIsValid r = true
    /\ QLearning.moves ag' = 1%Z.
Proof.
  destruct (tabular_move_steps false 0 25 (fun x => x) (fun x => x)
              Examples.draws Examples.tabular5 Examples.ring)
    as (ag' & r & Hm & _ & _ & _ & Hvalid & Hinvalid).
  - vm_compute. discriminate.
  - exists ag', r. split; [exact Hm|].
    destruct (QPolicy.resIsValid r) eqn:Hv.
    + split; [reflexivity|]. now destruct (Hvalid eq_refl) as (_ & _ & _ & ->).
    + destruct (Hinvalid eq_refl) as (Habs & _). vm_compute in Habs.
      discriminate.
Defined.

(** ** The tabular agent's statistics *)

Module StatsFacts.
Import Grid QLearning QPolicy.







End StatsFacts.


(** ** What the planner's answer was tried for *)

Module SearchTreeFacts.
Import Grid MCTS.




Section Plan.
Variable maze_ : maze.
Variable validActionsFn : cell -> maze -> list nat.
Variable stepFn : cell -> nat -> maze -> cell * Q * bool.
Variable evaluateFn : cell -> maze -> Q.
Variable maxDepth : nat.
Variable c : Q.
Variable sqrt : Q -> Q.
Variable log : Q -> Q.
Variable rnd : nat -> Q.






End Plan.

End SearchTreeFacts.



(** ** The moving parts over time *)

Module WallFacts.
Import Grid Enhanced Dynamic DynamicSteps.

Lemma randomBelow_range (rnd : nat -> Q) (i : nat) (k : Z) :
  (0 < k)%Z -> (0 <= Rand.randomBelow rnd i k < k)%Z.
Proof.
  intros Hk. unfold Rand.randomBelow.
  destruct (LinearFacts.random_range rnd i) as [Hlo Hhi].
  assert (0 < inject_Z k) as Hkq
    by (change 0 with (inject_Z 0); now apply inject_Z_lt).
  split.
  - change 0%Z with (Qfloor 0). apply Qfloor_resp_le. nra.
  - apply Z.lt_nge. intros Hge.
    apply inject_Z_le in Hge.
    pose proof (Qfloor_le (Rand.random rnd i * inject_Z k)). nra.
Qed.

Lemma newWalls_anchored (rnd : nat -> Q) (w h : Z) :
  (5 <= w)%Z -> (5 <= h)%Z ->
  forall n cur, Forall (anchored w h) (newWalls rnd w h n cur).
Proof.
  intros Hw Hh. induction n as [|n IH]; intros cur; cbn [newWalls];
    constructor; [|apply IH].
  unfold anchored. cbn [wallPosition wallDirection fst snd].
  pose proof (randomBelow_range rnd cur (h - 4)).
  pose proof (randomBelow_range rnd (cur + 1) (w - 4)).
  pose proof (randomBelow_range rnd (cur + 2) 4).
  lia.
Qed.

(** a step keeps a wall anchored, moves its anchor by one cell at
    most, and raises no error *)
Lemma stepWall_anchored (w h now : Z) (p : cell) (wall : movingWall)
  (ev : gameEvents) :
  anchored w h wall ->
  exists wall' ev',
    stepWall w h now p wall ev = Some (wall', ev')
    /\ anchored w h wall'
    /\ (manhattan (wallPosition wall') (wallPosition wall) <= 1)%Z
    /\ wallLength wall' = wallLength wall.
Proof.
  destruct wall as [[x y] dir speed lastMove len].
  unfold anchored, stepWall, manhattan.
  cbn [wallPosition wallDirection wallSpeed wallLastMove wallLength fst snd].
  intros (Hx & Hy & Hd).
  destruct (speed <=? now - lastMove)%Z;
    [|eexists _, _; split; [reflexivity|]; cbn [wallPosition wallDirection
        wallLength fst snd]; repeat split; lia].
  assert (dir = 0 \/ dir = 1 \/ dir = 2 \/ dir = 3)%Z
    as [-> | [-> | [-> | ->]]] by lia;
    [change (at_ wallOffsets 0) with (Some (0, 1)%Z)
    |change (at_ wallOffsets 1) with (Some (1, 0)%Z)
    |change (at_ wallOffsets 2) with (Some (0, -1)%Z)
    |change (at_ wallOffsets 3) with (Some (-1, 0)%Z)];
    cbv beta iota;
    (destruct (_ || _) eqn:Hout;
     [|apply orb_false_iff in Hout as [Hout H4];
       apply orb_false_iff in Hout as [Hout H3];
       apply orb_false_iff in Hout as [H1 H2];
       apply Z.leb_gt in H1, H2, H3, H4]);
    eexists _, _; (split; [reflexivity|]);
    cbn [wallPosition wallDirection wallLength fst snd];
    repeat split; try lia; try (cbn; lia); vm_compute; congruence.
Qed.

Lemma stepWalls_anchored (w h now : Z) (p : cell) :
  forall (walls : list movingWall) (ev : gameEvents),
    Forall (anchored w h) walls ->
    exists walls' ev',
      stepWalls w h now p walls ev = Some (walls', ev')
      /\ Forall (anchored w h) walls'
      /\ Forall2 (fun a b =>
                    (manhattan (wallPosition b) (wallPosition a) <= 1)%Z
                    /\ wallLength b = wallLength a) walls walls'.
Proof.
  induction walls as [|wall walls IH]; intros ev Hall; cbn [stepWalls].
  - exists [], ev. repeat split; constructor.
  - apply Forall_cons in Hall as [Hwall Hall].
    destruct (stepWall_anchored w h now p wall ev Hwall)
      as (wall1 & ev1 & -> & Ha & Hm & Hl).
    destruct (IH ev1 Hall) as (walls1 & ev2 & -> & Has & Hms).
    exists (wall1 :: walls1), ev2. split; [reflexivity|].
    split; constructor; auto.
Qed.

Lemma stepSections_length (now : Z) :
  forall (ss : list rotatingSection) (ev : gameEvents),
    length (stepSections now ss ev).1 = length ss.
Proof.
  induction ss as [|s ss IH]; intros ev; cbn [stepSections];
    [reflexivity|].
  destruct (stepSection now s ev) as [s1 ev1].
  specialize (IH ev1). destruct (stepSections now ss ev1) as [rest1 ev2].
  cbn [fst length] in *. now rewrite IH.
Qed.

(** one tick of the clock *)
Lemma update_anchored (d : elements) (p : cell) :
  Forall (anchored (width d) (height d)) (movingWalls d) ->
  exists d' ev,
    update d p = Some (d', ev)
    /\ width d' = width d /\ height d' = height d
    /\ time d' = (time d + 1)%Z
    /\ temporaryWalls d' = temporaryWalls d
    /\ length (rotatingSections d') = length (rotatingSections d)
    /\ Forall (anchored (width d) (height d)) (movingWalls d')
    /\ Forall2 (fun a b =>
                  (manhattan (wallPosition b) (wallPosition a) <= 1)%Z
                  /\ wallLength b = wallLength a)
         (movingWalls d) (movingWalls d').
Proof.
  intros Hall. unfold update. cbv zeta.
  destruct (stepWalls_anchored (width d) (height d) (time d + 1) p
              (movingWalls d) noEvents Hall) as (walls & ev1 & -> & Ha & Hm).
  pose proof (stepSections_length (time d + 1) (rotatingSections d) ev1)
    as Hlen.
  destruct (stepSections (time d + 1) (rotatingSections d) ev1)
    as [sections ev2].
  eexists _, _. split; [reflexivity|]. cbn. repeat split; auto.
Qed.

Lemma updates_anchored (positions : list cell) :
  forall d : elements,
    Forall (anchored (width d) (height d)) (movingWalls d) ->
    exists d',
      updates d positions = Some d'
      /\ width d' = width d /\ height d' = height d
      /\ time d' = (time d + Z.of_nat (length positions))%Z
      /\ temporaryWalls d' = temporaryWalls d
      /\ length (rotatingSections d') = length (rotatingSections d)
      /\ Forall (anchored (width d) (height d)) (movingWalls d').
Proof.
  induction positions as [|p positions IH]; intros d Hall; cbn [updates].
  - exists d. repeat split; auto. cbn. lia.
  - destruct (update_anchored d p Hall)
      as (d1 & ev & -> & Hw & Hh & Ht & Htw & Hrs & Ha & _).
    rewrite <- Hw, <- Hh in Ha.
    destruct (IH d1 Ha) as (d2 & -> & Hw2 & Hh2 & Ht2 & Htw2 & Hrs2 & Ha2).
    exists d2. split; [reflexivity|].
    rewrite Hw, Hh in Ha2. repeat split; try congruence.
    rewrite Ht2, Ht. cbn [length]. lia.
Qed.

(** the cells of an anchored wall keep clear of the first row and
    column and do not reach the goal *)
Lemma anchored_cells (d : elements) (wall : movingWall) (c : cell) :
  anchored (width d) (height d) wall ->
  c ∈ getMovingWallCells d wall ->
  (2 <= c.1)%Z /\ (2 <= c.2)%Z
  /\ c <> ((height d - 2)%Z, (width d - 2)%Z).
Proof.
  intros (Hx & Hy & _). unfold getMovingWallCells.
  destruct (wallPosition wall) as [x y]. cbn [fst snd] in Hx, Hy.
  intros Hc. apply list_elem_of_omap in Hc as (i & Hi & Hf).
  assert (0 <= i)%Z as Hi0.
  { unfold upto in Hi. apply list_elem_of_fmap in Hi as (k & -> & _). lia. }
  cbv zeta in Hf. destruct (inner d _ _); [|discriminate].
  inversion Hf; subst c. cbn [fst snd].
  destruct (Z.rem (wallDirection wall) 2 =? 1)%Z eqn:H1;
    destruct (Z.rem (wallDirection wall) 2 =? 0)%Z eqn:H0;
    try (apply Z.eqb_eq in H1; apply Z.eqb_eq in H0; lia);
    (split; [lia|split; [lia|]]); intros Heq; inversion Heq; lia.
Qed.

Lemma walls_spare (d : elements) (x y : Z) :
  Forall (anchored (width d) (height d)) (movingWalls d) ->
  (x < 2)%Z \/ (y < 2)%Z \/ (x, y) = ((height d - 2)%Z, (width d - 2)%Z) ->
  existsb (fun w => someAt (getMovingWallCells d w) x y) (movingWalls d)
  = false.
Proof.
  intros Hall Hxy.
  destruct (existsb _ _) eqn:Hex; [|reflexivity]. exfalso.
  apply existsb_exists in Hex as (wall & Hin & Hsome).
  unfold someAt in Hsome. apply existsb_exists in Hsome as (c & Hc & Heq).
  apply andb_true_iff in Heq as [E1 E2]. apply Z.eqb_eq in E1, E2.
  rewrite Forall_forall in Hall.
  destruct (anchored_cells d wall c) as (H1 & H2 & Hgoal);
    [apply Hall; now apply list_elem_of_In|now apply list_elem_of_In|].
  destruct Hxy as [Hx|[Hy|Hg]]; [lia|lia|].
  apply Hgoal. destruct c; cbn in *. congruence.
Qed.

End WallFacts.

(** X14.  In a dynamic maze of at least 5 by 5 cells the moving walls
    stay where they belong: whatever the draws at set-up and however
    many times [update] is called, no call raises an error, the clock
    counts the calls, and every wall keeps its anchor two cells or more
    from each border, so that no cell of a moving wall lies in the
    first row or column or on the goal.  In a maze with a side below
    15, which has no rotating section, neither the start cell (1,1) nor
    the goal is ever blocked. *)
Theorem moving_walls_stay_inside (rnd : nat -> Q) (w h : Z) (cur : nat)
  (positions : list Grid.cell) :
  (5 <= w)%Z -> (5 <= h)%Z ->
  exists d,
    DynamicSteps.updates (DynamicSteps.createDynamic rnd w h cur) positions
    = Some d
    /\ Dynamic.time d = Z.of_nat (length positions)
    /\ Forall (DynamicSteps.anchored w h) (Dynamic.movingWalls d)
    /\ (forall wall c,
          wall ∈ Dynamic.movingWalls d ->
          c ∈ Dynamic.getMovingWallCells d wall ->
          (2 <= c.1)%Z /\ (2 <= c.2)%Z /\ c <> ((h - 2)%Z, (w - 2)%Z))
    /\ ((Z.min w h < 15)%Z ->
        Dynamic.isBlocked d 1 1 = false
        /\ Dynamic.isBlocked d (h - 2) (w - 2) = false).
Proof.
  intros Hw Hh.
  destruct (WallFacts.updates_anchored positions
              (DynamicSteps.createDynamic rnd w h cur))
    as (d & Hup & Hdw & Hdh & Ht & Htw & Hrs & Ha).
  { apply WallFacts.newWalls_anchored; assumption. }
  cbn [DynamicSteps.createDynamic Dynamic.width Dynamic.height Dynamic.time
       Dynamic.temporaryWalls Dynamic.rotatingSections] in Hdw, Hdh, Ht, Htw,
    Hrs, Ha.
  exists d. split; [exact Hup|]. split; [lia|]. split; [exact Ha|].
  rewrite <- Hdw, <- Hdh in Ha |- *. split.
  - intros wall c Hwall Hc. rewrite Forall_forall in Ha.
    exact (WallFacts.anchored_cells d wall c (Ha wall Hwall) Hc).
  - intros Hsmall.
    assert (Dynamic.rotatingSections d = []) as Hnone.
    { apply nil_length_inv. rewrite Hrs.
      replace (Z.min w h / 15)%Z with 0%Z; [reflexivity|].
      symmetry. apply Z.div_small. lia. }
    unfold Dynamic.isBlocked. rewrite Hnone, Htw. cbn [existsb].
    rewrite !WallFacts.walls_spare by (auto; left; lia).
    split; reflexivity.
Qed.

(** [moving_walls_stay_inside] on a 9x9 maze, after three updates *)
Lemma moving_walls_stay_inside_witness :
  exists d,
    DynamicSteps.updates (DynamicSteps.createDynamic Examples.draws 9 9 0)
      [(1, 1); (1, 2); (2, 2)]%Z = Some d
    /\ Dynamic.time d = 3%Z
    /\ Dynamic.isBlocked d 1 1 = false
    /\ Dynamic.isBlocked d 7 7 = false.
Proof.
  destruct (moving_walls_stay_inside Examples.draws 9 9 0
              [(1, 1); (1, 2); (2, 2)]%Z)
    as (d & Hup & Ht & _ & _ & Hfree); [lia|lia|].
  exists d. split; [exact Hup|]. split; [exact Ht|].
  apply Hfree. reflexivity.
Defined.

(** ** Competitors and item positions *)

Module PlacementFacts.
Import Grid Enhanced Dynamic DynamicSteps.


End PlacementFacts.

(** X15.  A competitor moved by [moveAgentTowardsGoal] never retreats:
    when the call returns, the competitor either stays where it was or
    stands on an open cell of the maze next to its old place and one
    step nearer the goal; standing on the goal, it stays and no random
    number is drawn. *)
Theorem competitor_never_retreats (rnd : nat -> Q) (d : Dynamic.elements)
  (pos : Grid.cell) (m : Grid.maze) (cur : nat) (pos' : Grid.cell)
  (cur' : nat) :
  DynamicSteps.moveAgentTowardsGoal rnd d pos m cur = Some (pos', cur') ->
  (pos' = pos
   \/ (Grid.manhattan pos' pos = 1%Z
       /\ Grid.manhattan pos'
            ((Dynamic.height d - 2)%Z, (Dynamic.width d - 2)%Z)
          = (Grid.manhattan pos
               ((Dynamic.height d - 2)%Z, (Dynamic.width d - 2)%Z) - 1)%Z
       /\ Grid.cellIsZero m pos'.1 pos'.2 = Some true))
  /\ (pos = ((Dynamic.height d - 2)%Z, (Dynamic.width d - 2)%Z) ->
      pos' = pos /\ cur' = cur).
Proof.
  destruct pos as [x y]. unfold DynamicSteps.moveAgentTowardsGoal.
  cbv zeta. cbn [fst snd].
  set (directions := _ ++ _ ++ _ ++ _).
  assert (Forall (fun dir =>
                    Grid.manhattan ((x + dir.1)%Z, (y + dir.2)%Z) (x, y)
                    = 1%Z
                    /\ Grid.manhattan ((x + dir.1)%Z, (y + dir.2)%Z)
                         ((Dynamic.height d - 2)%Z, (Dynamic.width d - 2)%Z)
                       = (Grid.manhattan (x, y)
                            ((Dynamic.height d - 2)%Z,
                             (Dynamic.width d - 2)%Z) - 1)%Z)
            directions) as Hdirs.
  { subst directions. unfold Grid.manhattan. cbn [fst snd].
    repeat apply Forall_app_2;
      match goal with
      | |- Forall _ (if ?b then _ else _) =>
          destruct b eqn:Hb; constructor; [|constructor]
      end;
      cbn [fst snd]; lia. }
  assert ((x, y) = ((Dynamic.height d - 2)%Z, (Dynamic.width d - 2)%Z) ->
          directions = []) as Hgoal.
  { intros Heq. inversion Heq; subst. subst directions.
    rewrite !Z.ltb_irrefl. reflexivity. }
  destruct directions as [|dir0 rest] eqn:Hd.
  - intros Hret. inversion Hret; subst. split; [now left|]. auto.
  - set (k := Rand.randomIndex rnd cur (length (dir0 :: rest))).
    assert (k < length (dir0 :: rest))%nat as Hk.
    { apply LinearFacts.randomIndex_lt. cbn. lia. }
    destruct (nth_lookup_or_length (dir0 :: rest) k (0, 0)%Z) as [Hnth|];
      [|lia].
    rewrite Forall_forall in Hdirs.
    assert (nth k (dir0 :: rest) (0, 0)%Z ∈ dir0 :: rest) as Hin.
    { eapply list_elem_of_lookup_2. exact Hnth. }
    apply Hdirs in Hin. 
    destruct (nth k (dir0 :: rest) (0, 0)%Z) as [dx dy].
    cbn [fst snd] in Hin. destruct Hin as [Hstep Hnear].
    intros Hret. split; [|intros Heq; apply Hgoal in Heq; discriminate].
    destruct (_ && _ && _ && _).
    + destruct (Grid.cellIsZero m (x + dx) (y + dy)) as [[|]|] eqn:Hcell;
        inversion Hret; subst; [right|now left].
      cbn [fst snd]. auto.
    + inversion Hret; subst. now left.
Qed.

(** [competitor_never_retreats] in the open room, from the start cell *)
Lemma competitor_never_retreats_witness :
  exists pos' cur',
    DynamicSteps.moveAgentTowardsGoal Examples.draws
      (DynamicSteps.createDynamic Examples.draws 11 11 0) (1, 1)%Z
      Examples.room 0 = Some (pos', cur')
    /\ Grid.manhattan pos' (9, 9)%Z = 15%Z.
Proof.
  destruct (DynamicSteps.moveAgentTowardsGoal Examples.draws
              (DynamicSteps.createDynamic Examples.draws 11 11 0) (1, 1)%Z
              Examples.room 0) as [[pos' cur']|] eqn:Hmove;
    [|vm_compute in Hmove; discriminate].
  exists pos', cur'. split; [reflexivity|].
  destruct (competitor_never_retreats _ _ _ _ _ _ _ Hmove) as [[->|Hnear] _].
  - vm_compute in Hmove. discriminate.
  - destruct Hnear as (_ & Hn & _). exact Hn.
Defined.



(** ** getBestAction and the exploiting choice *)

Module BestFacts.
Import JsNum Grid QLearning QPolicy.

(** the loop of [getBestAction] is the exploiting loop run over the
    valid actions *)
Lemma bestFrom_greedy (ag : agent) (st : cell) (m : maze) :
  forall (acts : list nat) (t : gmap (Z * Z) (list num)) (b : nat) (v : num)
         (l : list nat),
    validFrom ag st m acts = Some l ->
    bestFrom ag st m acts t b v = Some (greedy st l t b v).
Proof.
  induction acts as [|a acts IH]; intros t b v l Hl;
    cbn [validFrom bestFrom] in *.
  - inversion Hl. reflexivity.
  - destruct (isValidMove ag st a m) as [[|]|]; [| |discriminate];
      destruct (validFrom ag st m acts) as [arr|]; try discriminate;
      inversion Hl; subst l.
    + cbn [greedy]. destruct (getQValue t st a) as [qValue t1].
      destruct (gt qValue v); now apply IH.
    + now apply IH.
Qed.

(** on a finite first value both starting points give the same loop *)
Lemma greedy_start (st : cell) (a0 : nat) (acts : list nat)
  (t : gmap (Z * Z) (list num)) (b b' : nat) (q : Q) :
  peek t st a0 = Fin q ->
  greedy st (a0 :: acts) t b NegInf = greedy st (a0 :: acts) t b' NegInf.
Proof.
  intros Hq. cbn [greedy].
  pose proof (ChoiceFacts.getQValue_peek t st a0) as Hp.
  destruct (getQValue t st a0) as [qValue t1]. cbn [fst] in Hp.
  rewrite Hp, Hq. reflexivity.
Qed.

End BestFacts.

(** X17.  [getBestAction] and the exploiting branch of [chooseAction]
    agree: on a maze that has a row for each of the agent's row
    indices, for an agent that neither plans nor trains and whose
    table holds a finite value for the first valid action of the
    state, [getBestAction(state, maze)] returns the action and leaves
    the table that [chooseAction(state, maze)] does; with no valid
    action both answer 0. *)
Theorem best_action_matches_exploit (passes mctsDepth : nat)
  (sqrt log : Q -> Q) (rnd : nat -> Q) (ag : QLearning.agent)
  (state : Grid.cell) (m : Grid.maze) :
  (QLearning.height ag <= Z.of_nat (length m))%Z ->
  QLearning.isTraining ag = false ->
  (forall a acts,
      QLearning.validActionsFromState ag state m = Some (a :: acts) ->
      exists q, QLearning.peek (QLearning.qTable ag) state a = JsNum.Fin q) ->
  exists a ag',
    QPolicy.getBestAction ag state m = Some (a, ag')
    /\ QPolicy.chooseAction false passes mctsDepth sqrt log rnd ag state m
       = Some (a, ag')
    /\ (QLearning.validActionsFromState ag state m = Some [] -> a = 0%nat).
Proof.
  intros Hrows Htrain Hfin.
  destruct (ChoiceFacts.validFrom_returns ag state m Hrows _
              ChoiceFacts.four_actions) as [acts Hacts].
  unfold QPolicy.getBestAction, QPolicy.chooseAction.
  rewrite (BestFacts.bestFrom_greedy ag state m _ _ _ _ _ Hacts).
  unfold QLearning.validActionsFromState in *. rewrite Hacts.
  rewrite Htrain, andb_false_r.
  destruct acts as [|a0 acts].
  - cbn [QPolicy.greedy]. exists 0%nat, ag.
    split; [now destruct ag|]. split; reflexivity.
  - destruct (Hfin a0 acts Hacts) as [q Hq].
    rewrite (BestFacts.greedy_start state a0 acts _ 0%nat a0 q Hq).
    destruct (QPolicy.greedy state (a0 :: acts) (QLearning.qTable ag) a0
                JsNum.NegInf) as [a t].
    exists a, (QLearning.with_qTable ag t).
    split; [reflexivity|]. split; [reflexivity|]. discriminate.
Qed.

(** [best_action_matches_exploit] at the start of the ring maze *)
Lemma best_action_matches_exploit_witness :
  exists a ag',
    QPolicy.getBestAction Examples.tabular5 (1, 1)%Z Examples.ring
    = Some (a, ag')
    /\ QPolicy.chooseAction false 0 25 (fun x => x) (fun x => x)
         Examples.draws Examples.tabular5 (1, 1)%Z Examples.ring
       = Some (a, ag').
Proof.
  destruct (best_action_matches_exploit 0 25 (fun x => x) (fun x => x)
              Examples.draws Examples.tabular5 (1, 1)%Z Examples.ring)
    as (a & ag' & Hbest & Hchoice & _).
  - vm_compute. discriminate.
  - reflexivity.
  - intros a acts Hacts. vm_compute in Hacts.
    inversion Hacts; subst. exists 0. reflexivity.
  - exists a, ag'. split; assumption.
Defined.

(** ** The hybrid agent never walks through a wall *)

Module TrailFacts.
Import Grid Hybrid Trail.

Lemma steps_app (m : maze) (a : cell) (l : list cell) (b : cell) :
  steps m a (l ++ [b])
  = steps m a l && (FastMazeSolver.adjacent (default a (last l)) b && open m b).
Proof.
  revert a. induction l as [|c l IH]; intros a.
  - cbn. now rewrite andb_true_r.
  - cbn [steps app]. rewrite IH, SearchFacts.last_default_cons.
    now rewrite <- !andb_assoc.
Qed.

Lemma valid_open (m : maze) (c : cell) :
  FastMazeSolver.isValidMove m c.1 c.2 = true -> open m c = true.
Proof.
  unfold FastMazeSolver.isValidMove, open. intros H.
  now apply andb_true_iff in H as [_ H].
Qed.

(** two cells in a row of a walk *)
Lemma walk_lookup (m : maze) :
  forall (rest : list cell) (a : cell) (k : nat) (p q : cell),
    FastMazeSolver.walk m a rest = true ->
    (a :: rest) !! k = Some p -> (a :: rest) !! S k = Some q ->
    FastMazeSolver.adjacent p q = true /\ open m q = true.
Proof.
  induction rest as [|b rest IH]; intros a k p q Hw Hp Hq.
  - destruct k; discriminate.
  - cbn [FastMazeSolver.walk] in Hw.
    apply andb_true_iff in Hw as [Hw Hrest].
    apply andb_true_iff in Hw as [Hadj Hvalid].
    destruct k as [|k].
    + cbn in Hp, Hq. inversion Hp; inversion Hq; subst.
      split; [exact Hadj|now apply valid_open].
    + exact (IH b k p q Hrest Hp Hq).
Qed.

(** a route of the oracle begins on the start and is a walk *)
Lemma oracle_walk (m : maze) (start : cell) (route : list cell) :
  FastMazeSolver.oracle m start = Some route ->
  exists rest, route = start :: rest
               /\ FastMazeSolver.walk m start rest = true.
Proof.
  unfold FastMazeSolver.oracle. intros Ho.
  pose proof (SearchFacts.solveMazeAStar_correct
                (FastMazeSolver.enoughFuel m) m start) as Hc.
  destruct (FastMazeSolver.solveMazeAStar _ m start) as [[p|]|];
    try discriminate.
  cbn in Ho. inversion Ho; subst p. destruct Hc as [Hr _].
  unfold FastMazeSolver.route in Hr. destruct route as [|a rest];
    [discriminate|].
  apply andb_true_iff in Hr as [Hr _].
  apply andb_true_iff in Hr as [Hhead Hwalk].
  apply bool_decide_eq_true in Hhead. subst a. eauto.
Qed.

(** the agent after a step onto [next], a neighbour of its position *)
Lemma tracked_step (m : maze) (ag : agent) (sol : option (list cell))
  (k : Z) (next : cell) (vis : gset (Z * Z)) (prev : option cell)
  (lastA : Z) :
  tracked m ag ->
  FastMazeSolver.adjacent (position ag) next = true ->
  open m next = true ->
  tracked m (with_episode ag sol k next (path ag ++ [next])
               (moves ag + 1)%Z vis prev lastA).
Proof.
  intros (rest & Hpath & Hlast & Hmoves & Hsteps) Hadj Hopen.
  exists (rest ++ [next]). cbn [path position moves with_episode].
  rewrite Hpath. split; [reflexivity|]. split.
  - change ((1, 1)%Z :: rest ++ [next]) with (((1, 1)%Z :: rest) ++ [next]).
    apply last_snoc.
  - split; [rewrite length_app, Hmoves; cbn; lia|].
    rewrite steps_app, Hsteps.
    rewrite Hpath in Hlast.
    rewrite <- (SearchFacts.last_default_cons (1, 1)%Z (1, 1)%Z rest), Hlast.
    cbn [default from_option id]. now rewrite Hadj, Hopen.
Qed.

Lemma selectStrategy_fields (ag ag' : agent) (m : maze) :
  isLargeMaze ag' = isLargeMaze ag -> gamesPlayed ag' = gamesPlayed ag ->
  successfulGames ag' = successfulGames ag -> epsilon ag' = epsilon ag ->
  selectStrategy ag' m = selectStrategy ag m.
Proof. unfold selectStrategy. now intros -> -> -> ->. Qed.

(** an action's neighbour is adjacent *)
Lemma action_adjacent (p : cell) (a : nat) (dx dy : Z) :
  actions !! a = Some (dx, dy) ->
  FastMazeSolver.adjacent p ((p.1 + dx)%Z, (p.2 + dy)%Z) = true.
Proof.
  intros Ha. unfold FastMazeSolver.adjacent. apply existsb_exists.
  exists (dx, dy). split.
  - apply list_elem_of_In. eapply list_elem_of_lookup_2. exact Ha.
  - cbn [fst snd]. now rewrite !Z.eqb_refl.
Qed.

(** one request keeps the trail *)
Lemma move_tracked (chooseAction : agent -> cell -> maze -> nat)
  (ag ag' : agent) (m : maze) (r : moveResult) :
  fastSolver ag = FastMazeSolver.oracle ->
  tracked m ag -> following m ag ->
  move chooseAction ag m = Some (ag', r) ->
  fastSolver ag' = FastMazeSolver.oracle
  /\ tracked m ag' /\ following m ag'
  /\ moves ag' = (moves ag + (if resIsValid r then 1 else 0))%Z.
Proof.
  intros Hsolver Htr Hfol Hmove. unfold move in Hmove.
  set (ag1 := with_currentStrategy ag (selectStrategy ag m)) in *.
  assert (tracked m ag1) as Htr1 by exact Htr.
  assert (selectStrategy ag1 m = selectStrategy ag m) as Hsel
    by (now apply selectStrategy_fields).
  cbn [currentStrategy ag1 with_currentStrategy] in Hmove.
  destruct (selectStrategy ag m) eqn:Hstrat.
  - (* pathfinding *)
    inversion Hmove as [Hpm]. clear Hmove. unfold pathfindingMove in Hpm.
    fold ag1 in Hpm.
    destruct ((match knownSolution ag1 with None => true | Some _ => false end)
              || (solutionSteps ag1 =? 0)%Z) eqn:Hfresh.
    + (* the oracle is asked *)
      cbn [knownSolution solutionSteps with_episode fastSolver ag1
           with_currentStrategy position path moves visited prevPosition
           lastAction] in Hpm.
      rewrite Hsolver in Hpm.
      destruct (FastMazeSolver.oracle m (position ag)) as [route|] eqn:Ho.
      * destruct (oracle_walk m (position ag) route Ho) as (rest & -> & Hw).
        destruct (0 <? Z.of_nat (length (position ag :: rest)) - 1)%Z
          eqn:Hlen.
        -- destruct rest as [|next rest]; [cbn in Hlen; discriminate|].
           change (at_ (position ag :: next :: rest) (0 + 1)) with (Some next)
             in Hpm.
           inversion Hpm; subst ag' r. clear Hpm.
           destruct (walk_lookup m (next :: rest) (position ag) 0
                       (position ag) next Hw eq_refl eq_refl) as [Hadj Hopen].
           split; [exact Hsolver|]. split; [|split].
           ++ apply (tracked_step m
                       (with_episode ag1 (Some (position ag :: next :: rest)) 0
                          (position ag) (path ag) (moves ag) (visited ag)
                          (prevPosition ag) (lastAction ag))); auto.
           ++ right. right. exists (position ag), (next :: rest).
              cbn [knownSolution solutionSteps with_episode position].
              split; [reflexivity|]. split; [|split; [lia|split; auto]].
              rewrite <- Hstrat. now apply selectStrategy_fields.
           ++ reflexivity.
        -- inversion Hpm; subst ag' r. clear Hpm.
           split; [exact Hsolver|]. split; [exact Htr|].
           split; [now left|]. cbn. lia.
      * inversion Hpm; subst ag' r. clear Hpm.
        split; [exact Hsolver|]. split; [exact Htr|].
        split; [now left|]. cbn. lia.
    + (* the stored route is followed *)
      apply orb_false_iff in Hfresh as [Hknown Hsteps0].
      apply Z.eqb_neq in Hsteps0.
      destruct Hfol as [H0|[Hnone|(a & rest & Hsol & _ & Hpos & Hat & Hw)]].
      * exfalso. apply Hsteps0. exact H0.
      * exfalso. cbn [knownSolution ag1 with_currentStrategy] in Hknown.
        now rewrite Hnone in Hknown.
      * cbn [knownSolution solutionSteps ag1 with_currentStrategy] in Hpm.
        rewrite Hsol in Hpm.
        destruct (solutionSteps ag <? Z.of_nat (length (a :: rest)) - 1)%Z
          eqn:Hlen.
        -- apply Z.ltb_lt in Hlen.
           unfold at_ in Hpm.
           replace (solutionSteps ag + 1 <? 0)%Z with false in Hpm
             by (symmetry; apply Z.ltb_ge; lia).
           replace (Z.to_nat (solutionSteps ag + 1))
             with (S (Z.to_nat (solutionSteps ag))) in Hpm by lia.
           destruct ((a :: rest) !! S (Z.to_nat (solutionSteps ag)))
             as [next|] eqn:Hnext.
           ++ inversion Hpm; subst ag' r. clear Hpm.
              destruct (walk_lookup m rest a _ _ _ Hw Hat Hnext)
                as [Hadj Hopen].
              split; [exact Hsolver|]. split; [|split].
              ** apply (tracked_step m ag1); auto.
              ** right. right. exists a, rest.
                 cbn [knownSolution solutionSteps with_episode position ag1
                      with_currentStrategy].
                 split; [reflexivity|]. split; [|split; [lia|split; auto]].
                 --- rewrite <- Hstrat. now apply selectStrategy_fields.
                 --- replace (Z.to_nat (solutionSteps ag + 1))
                       with (S (Z.to_nat (solutionSteps ag))) by lia.
                     exact Hnext.
              ** reflexivity.
           ++ apply lookup_ge_None in Hnext. cbn [length] in *. lia.
        -- inversion Hpm; subst ag' r. clear Hpm.
           split; [exact Hsolver|]. split; [exact Htr|]. split.
           ++ right. right. exists a, rest. cbn. auto.
           ++ cbn. lia.
  - (* Q-learning *)
    unfold qLearningMove in Hmove. cbv zeta in Hmove.
    destruct (actions !! chooseAction ag1 (position ag1) m)
      as [[dx dy]|] eqn:Hact; [|discriminate].
    destruct (isValidMove ag1 (position ag1) _ m) as [[|]|] eqn:Hvalid;
      [| |discriminate]; inversion Hmove; subst ag' r; clear Hmove.
    + apply MoveFacts.hybrid_isValidMove in Hvalid
        as (dx' & dy' & Hact' & _ & _ & Hzero).
      rewrite Hact in Hact'. inversion Hact'; subst dx' dy'.
      split; [exact Hsolver|]. split; [|split].
      * apply (tracked_step m ag1); auto.
        -- exact (action_adjacent _ _ _ _ Hact).
        -- exact (f_equal (default false) Hzero).
      * destruct Hfol as [H0|[Hnone|(a & rest & _ & Hp & _)]].
        -- now left.
        -- right. now left.
        -- congruence.
      * reflexivity.
    + split; [exact Hsolver|]. split; [exact Htr|]. split.
      * destruct Hfol as [H0|[Hnone|(a & rest & _ & Hp & _)]].
        -- now left.
        -- right. now left.
        -- congruence.
      * cbn. lia.
Qed.

Lemma moveTimes_tracked (chooseAction : agent -> cell -> maze -> nat)
  (m : maze) :
  forall (n : nat) (ag ag' : agent) (rs : list moveResult),
    fastSolver ag = FastMazeSolver.oracle ->
    tracked m ag -> following m ag ->
    moveTimes chooseAction n ag m = Some (ag', rs) ->
    tracked m ag' /\ length rs = n
    /\ moves ag' = (moves ag + Z.of_nat (validMoves rs))%Z.
Proof.
  induction n as [|n IH]; intros ag ag' rs Hsolver Htr Hfol Hrun;
    cbn [moveTimes] in Hrun.
  - inversion Hrun; subst. split; [exact Htr|]. split; [reflexivity|].
    cbn. lia.
  - destruct (move chooseAction ag m) as [[ag1 r]|] eqn:Hmove;
      [|discriminate].
    destruct (moveTimes chooseAction n ag1 m) as [[ag2 rs']|] eqn:Hrest;
      [|discriminate].
    inversion Hrun; subst ag' rs. clear Hrun.
    destruct (move_tracked chooseAction ag ag1 m r Hsolver Htr Hfol Hmove)
      as (Hs1 & Htr1 & Hfol1 & Hm1).
    destruct (IH ag1 ag2 rs' Hs1 Htr1 Hfol1 Hrest) as (Htr2 & Hlen & Hm2).
    split; [exact Htr2|]. split; [cbn; now rewrite Hlen|].
    rewrite Hm2, Hm1. unfold validMoves. rewrite filter_cons.
    destruct (decide (resIsValid r = true)) as [->|Hno].
    + cbn [length]. lia.
    + destruct (resIsValid r); [congruence|]. lia.
Qed.

End TrailFacts.

(** X18.  The hybrid agent never walks through a wall.  With the A*
    search as its path oracle, whatever [chooseAction] answers and
    whichever strategy serves the requests, after any number of
    requests of an episode that raised no error [path] begins on the
    start (1,1) and ends on the agent's position, every cell of it
    after the first is next to the cell before it and holds 0 in the
    maze, and [moves] counts the cells after the first, which is the
    number of requests answered as valid. *)
Theorem hybrid_never_walks_through_walls
  (chooseAction : Hybrid.agent -> Grid.cell -> Grid.maze -> nat)
  (ag ag' : Hybrid.agent) (m : Grid.maze) (n : nat)
  (rs : list Hybrid.moveResult) :
  Hybrid.fastSolver ag = FastMazeSolver.oracle ->
  Hybrid.moveTimes chooseAction n (Hybrid.reset ag) m = Some (ag', rs) ->
  exists rest,
    Hybrid.path ag' = (1, 1)%Z :: rest
    /\ last (Hybrid.path ag') = Some (Hybrid.position ag')
    /\ Trail.steps m (1, 1)%Z rest = true
    /\ Hybrid.moves ag' = Z.of_nat (length rest)
    /\ length rest = Trail.validMoves rs.
Proof.
  intros Hsolver Hrun.
  destruct (TrailFacts.moveTimes_tracked chooseAction m n (Hybrid.reset ag)
              ag' rs) as ((rest & Hpath & Hlast & Hmoves & Hsteps) & _ & Hm).
  - exact Hsolver.
  - exists []. cbn. auto.
  - now left.
  - exact Hrun.
  - exists rest. repeat split; auto.
    cbn [Hybrid.moves Hybrid.reset Hybrid.with_episode] in Hm. lia.
Qed.

(** [hybrid_never_walks_through_walls] on the ring maze, for an agent
    that always asks to go right: two steps, then a wall *)
Lemma hybrid_never_walks_through_walls_witness :
  exists ag' rs rest,
    Hybrid.moveTimes (fun _ _ _ => 1%nat) 3
      (Hybrid.reset Examples.hybridOnRing) Examples.ring = Some (ag', rs)
    /\ Hybrid.path ag' = (1, 1)%Z :: rest
    /\ Trail.steps Examples.ring (1, 1)%Z rest = true
    /\ length rest = Trail.validMoves rs.
Proof.
  assert (is_Some (Hybrid.moveTimes (fun _ _ _ => 1%nat) 3
                     (Hybrid.reset Examples.hybridOnRing) Examples.ring))
    as [[ag' rs] Hrun].
  { apply (bool_decide_unpack _). vm_compute. reflexivity. }
  destruct (hybrid_never_walks_through_walls (fun _ _ _ => 1%nat)
              Examples.hybridOnRing ag' Examples.ring 3 rs eq_refl Hrun)
    as (rest & Hpath & _ & Hsteps & _ & Hcount).
  exists ag', rs, rest. auto.
Defined.
